(** * YU Automations: event alerts and gym-shift summaries

    A shallow embedding of the three scripts of the repository

    - [yu-event-alerts.js]   (module [EventAlerts]),
    - the stand-alone gym-shift summary, which reads [.env] and
      de-duplicates rows (module [GymShifts]),
    - the GitHub-Actions gym-shift summary (module [GymShiftsGH]),
    - the reading of [.env] at the head of the first two (module [DotEnv]),

    together with the part of the JavaScript run time they rely on
    (module [JS]): strings as sequences of UTF-16 code units, [parseInt],
    the day arithmetic behind [Date], [Set], and [JSON].

    What lies outside the scripts is a parameter of the model: the answer
    of the network, the clock, the behaviour of the mail relay, the content
    of the cache file, the formatting of [Intl] for en-US in the zone
    America/New_York, the arithmetic of doubles (interface [JS.Number]),
    and the offset of local time, taken to be the same all year.  Console
    output and the pause between two messages are not modelled.

    The file has three parts: the embedding, the vocabulary of the
    statements with the data of the examples, and the properties, those of
    the loops, the periods and the runs as a whole at the end. *)

From Stdlib Require Import ZArith NArith List String Ascii Lia ZifyBool Bool DecimalString.
From Stdlib Require Import Sorted DecimalN DecimalPos.
From stdpp Require Import base option list gmap.

Local Open Scope Z_scope.

(** A JavaScript string is a finite sequence of 16-bit code units. *)
Abbreviation jsstring := (list N).

(** ** The JavaScript run time *)
Module JS.

(** *** String literals and characters *)

Definition js (s : string) : jsstring :=
  map N_of_ascii (list_ascii_of_string s).

Definition LF : N := 10.
Definition CR : N := 13.
Definition COLON : N := 58.
Definition BACKSLASH : N := 92.
Definition QUOTE : N := 34.

(** WhiteSpace and LineTerminator code units, as [String.prototype.trim]
    and [parseInt] strip them. *)
Definition is_space (c : N) : bool :=
  ((9 <=? c) && (c <=? 13) || (c =? 32) || (c =? 160) || (c =? 5760)
   || (8192 <=? c) && (c <=? 8202) || (c =? 8232) || (c =? 8233)
   || (c =? 8239) || (c =? 8287) || (c =? 12288) || (c =? 65279))%N.

Definition str_eqb (a b : jsstring) : bool := bool_decide (a = b).

(** [s.startsWith(p)] *)
Fixpoint starts_with (p s : jsstring) : bool :=
  match p, s with
  | [], _ => true
  | _ :: _, [] => false
  | a :: p', b :: s' => (a =? b)%N && starts_with p' s'
  end.

(** [s.substring(a, b)] for constant indices [a <= b]; both are clamped to
    the length of [s]. *)
Definition substring (a b : nat) (s : jsstring) : jsstring :=
  take (b - a) (drop a s).

Fixpoint take_while (f : N -> bool) (s : jsstring) : jsstring :=
  match s with
  | [] => []
  | c :: r => if f c then c :: take_while f r else []
  end.

Fixpoint drop_while (f : N -> bool) (s : jsstring) : jsstring :=
  match s with
  | [] => []
  | c :: r => if f c then drop_while f r else s
  end.

(** [s.trim()] *)
Definition trim_start (s : jsstring) : jsstring := drop_while is_space s.
Definition trim (s : jsstring) : jsstring :=
  rev (drop_while is_space (rev (trim_start s))).

(** [s.split(sep)] for a non-empty separator.  [skip] counts the code
    units of a separator occurrence that remain to be consumed, [cur] is
    the piece being read, reversed. *)
Fixpoint split_go (sep : jsstring) (skip : nat) (cur : jsstring) (s : jsstring)
  : list jsstring :=
  match s with
  | [] => [rev cur]
  | c :: r =>
      match skip with
      | S k => split_go sep k cur r
      | O =>
          if starts_with sep s
          then rev cur :: split_go sep (length sep - 1) [] r
          else split_go sep 0 (c :: cur) r
      end
  end.

Definition split (sep s : jsstring) : list jsstring := split_go sep 0 [] s.

(** [s.replace(/p/g, by)] for a pattern [p] that is a non-empty literal. *)
Fixpoint replace_go (p by_ : jsstring) (skip : nat) (s : jsstring) : jsstring :=
  match s with
  | [] => []
  | c :: r =>
      match skip with
      | S k => replace_go p by_ k r
      | O =>
          if starts_with p s
          then by_ ++ replace_go p by_ (length p - 1) r
          else c :: replace_go p by_ 0 r
      end
  end.

Definition replace_all (p by_ s : jsstring) : jsstring := replace_go p by_ 0 s.

(** [arr.join(sep)] *)
Fixpoint join (sep : jsstring) (l : list jsstring) : jsstring :=
  match l with
  | [] => []
  | [x] => x
  | x :: r => x ++ sep ++ join sep r
  end.

(** [!s] for a string or undefined. *)
Definition falsy (s : option jsstring) : bool :=
  match s with
  | None | Some [] => true
  | Some (_ :: _) => false
  end.

(** [s || d] for strings. *)
Definition or_else (s d : jsstring) : jsstring :=
  match s with
  | [] => d
  | _ => s
  end.

(** *** Numbers to text *)

(** [String(n)] for an integer [n]. *)
Definition N_to_string (n : N) : jsstring :=
  js (NilEmpty.string_of_uint (N.to_uint n)).

Definition Z_to_string (z : Z) : jsstring :=
  if z <? 0 then js "-" ++ N_to_string (Z.to_N (- z)) else N_to_string (Z.to_N z).

(** [s.padStart(n, '0')] *)
Definition pad_start0 (n : nat) (s : jsstring) : jsstring :=
  repeat 48%N (n - length s) ++ s.

(** *** parseInt *)

Definition digit_value (radix : N) (c : N) : option N :=
  (let v :=
     if (48 <=? c) && (c <=? 57) then Some (c - 48)
     else if (97 <=? c) && (c <=? 122) then Some (c - 87)
     else if (65 <=? c) && (c <=? 90) then Some (c - 55)
     else None in
   match v with
   | Some d => if d <? radix then Some d else None
   | None => None
   end)%N.

(** The longest prefix of digits of the radix, read left to right;
    [None] when there is no digit at all. *)
Fixpoint digits_value (radix : N) (acc : option N) (s : jsstring) : option N :=
  match s with
  | [] => acc
  | c :: r =>
      match digit_value radix c with
      | Some d => digits_value radix (Some (default 0 acc * radix + d)%N) r
      | None => acc
      end
  end.

(** [parseInt(s)] with no radix argument: leading white space is skipped,
    a sign is read, a [0x] or [0X] prefix selects base 16, and the digits
    that follow are read up to the first other code unit.  [None] is NaN. *)
Definition parseInt (s : jsstring) : option Z :=
  let s1 := trim_start s in
  let '(neg, s2) :=
    match s1 with
    | 45%N :: r => (true, r)
    | 43%N :: r => (false, r)
    | _ => (false, s1)
    end in
  let '(radix, s3) :=
    match s2 with
    | 48%N :: 120%N :: r => (16%N, r)
    | 48%N :: 88%N :: r => (16%N, r)
    | _ => (10%N, s2)
    end in
  match digits_value radix None s3 with
  | Some n => Some (if neg then - Z.of_N n else Z.of_N n)
  | None => None
  end.

(** *** Day arithmetic of [Date]

    Time values are milliseconds since the epoch, [None] is the time value
    NaN of an invalid date. *)

Definition msPerDay : Z := 86400000.
Definition msPerHour : Z := 3600000.
Definition msPerMinute : Z := 60000.

(** Day number of the civil date [y]-[m]-[d], [m] from 1 to 12. *)
Definition days_from_civil (y m d : Z) : Z :=
  let y' := if m <=? 2 then y - 1 else y in
  let era := y' / 400 in
  let yoe := y' - era * 400 in
  let doy := (153 * (m + (if 2 <? m then -3 else 9)) + 2) / 5 + d - 1 in
  let doe := yoe * 365 + yoe / 4 - yoe / 100 + doy in
  era * 146097 + doe - 719468.

(** Civil date (year, month from 1 to 12, day of the month) of a day
    number. *)
Definition civil_from_days (z : Z) : Z * Z * Z :=
  let z' := z + 719468 in
  let era := z' / 146097 in
  let doe := z' - era * 146097 in
  let yoe := (doe - doe / 1460 + doe / 36524 - doe / 146096) / 365 in
  let doy := doe - (365 * yoe + yoe / 4 - yoe / 100) in
  let mp := (5 * doy + 2) / 153 in
  let d := doy - (153 * mp + 2) / 5 + 1 in
  let m := if mp <? 10 then mp + 3 else mp - 9 in
  (yoe + era * 400 + (if m <=? 2 then 1 else 0), m, d).

Definition Day (t : Z) : Z := t / msPerDay.
Definition TimeWithinDay (t : Z) : Z := t mod msPerDay.
Definition YearFromTime (t : Z) : Z := fst (fst (civil_from_days (Day t))).
(** Month index, 0 to 11. *)
Definition MonthFromTime (t : Z) : Z := snd (fst (civil_from_days (Day t))) - 1.
Definition DateFromTime (t : Z) : Z := snd (civil_from_days (Day t)).

(** [MakeDay(year, month, date)] with a month index that may lie outside
    0..11 and a day of the month that may lie outside the month. *)
Definition MakeDay (year month date : Z) : Z :=
  days_from_civil (year + month / 12) (month mod 12 + 1) 1 + date - 1.

Definition MakeTime (h m s ms : Z) : Z :=
  h * msPerHour + m * msPerMinute + s * 1000 + ms.

Definition MakeDate (day time : Z) : Z := day * msPerDay + time.

Definition TimeClip (t : Z) : option Z :=
  if Z.abs t <=? 8640000000000000 then Some t else None.

(** Years 0 to 99 denote 1900 to 1999 in [Date.UTC] and in the
    multi-argument [Date] constructor. *)
Definition full_year (y : Z) : Z :=
  if (0 <=? y) && (y <=? 99) then 1900 + y else y.

(** [Date.UTC(year, month, date, hours, minutes)]; a NaN argument gives
    NaN. *)
Definition Date_UTC (year month date hours minutes : option Z) : option Z :=
  y ← year; m ← month; d ← date; h ← hours; mi ← minutes;
  TimeClip (MakeDate (MakeDay (full_year y) m d) (MakeTime h mi 0 0)).

(** [date.toISOString()] of a valid time value. *)
Definition pad (n : nat) (z : Z) : jsstring := pad_start0 n (Z_to_string z).

Definition toISOString (t : Z) : jsstring :=
  let '(y, m, d) := civil_from_days (Day t) in
  let tod := TimeWithinDay t in
  (if (0 <=? y) && (y <=? 9999) then pad 4 y
   else (if y <? 0 then js "-" else js "+") ++ pad 6 (Z.abs y))
  ++ js "-" ++ pad 2 m ++ js "-" ++ pad 2 d ++ js "T"
  ++ pad 2 (tod / msPerHour) ++ js ":"
  ++ pad 2 (tod mod msPerHour / msPerMinute) ++ js ":"
  ++ pad 2 (tod mod msPerMinute / 1000) ++ js "."
  ++ pad 3 (tod mod 1000) ++ js "Z".

(** *** Regular expressions of the scripts *)

Definition not_crlf (c : N) : bool := negb ((c =? LF) || (c =? CR))%N.
Definition not_colon (c : N) : bool := negb (c =? COLON)%N.

(** What follows the key of [/KEY([^\r\n]+)/] ([params = false]) or of
    [/KEY[^:]*:([^\r\n]+)/] ([params = true]): the greedy [[^:]*] can
    only stop at the first colon, and the group takes the longest run of
    code units other than CR and LF, which must not be empty. *)
Definition capture_after (params : bool) (rest : jsstring) : option jsstring :=
  let after :=
    if params then
      match drop_while not_colon rest with
      | _ :: r => Some r
      | [] => None
      end
    else Some rest in
  match after with
  | Some r =>
      match take_while not_crlf r with
      | [] => None
      | cap => Some cap
      end
  | None => None
  end.

(** [(s.match(re) || [])[1]] for the two shapes of expression above: the
    group of the leftmost match, [None] (undefined) when there is none. *)
Fixpoint match_field (key : jsstring) (params : bool) (s : jsstring)
  : option jsstring :=
  match s with
  | [] => None
  | _ :: r =>
      if starts_with key s then
        match capture_after params (drop (length key) s) with
        | Some cap => Some cap
        | None => match_field key params r
        end
      else match_field key params r
  end.

(** Length of the match of [/ENCODING=QUOT[^:]*:/] at the head of [s]. *)
Definition ENCODING_QUOT : jsstring := Eval cbv in js "ENCODING=QUOT".

Definition encoding_match_length (s : jsstring) : option nat :=
  if starts_with ENCODING_QUOT s then
    let rest := drop (length ENCODING_QUOT) s in
    let run := take_while not_colon rest in
    if (length run <? length rest)%nat
    then Some (length ENCODING_QUOT + length run + 1)%nat
    else None
  else None.

(** [s.replace(/ENCODING=QUOT[^:]*:/g, '')] *)
Fixpoint strip_encoding_go (skip : nat) (s : jsstring) : jsstring :=
  match s with
  | [] => []
  | c :: r =>
      match skip with
      | S k => strip_encoding_go k r
      | O =>
          match encoding_match_length s with
          | Some len => strip_encoding_go (len - 1) r
          | None => c :: strip_encoding_go 0 r
          end
      end
  end.

Definition strip_encoding (s : jsstring) : jsstring := strip_encoding_go 0 s.

(** *** Numbers

    The scripts add up hours that [parseFloat] reads and [JSON] carries
    numbers; both are IEEE doubles.  Their arithmetic is kept behind an
    interface: every statement below holds for each implementation of
    it. *)
Class Number (num : Type) := {
  num_zero : num;
  num_add : num -> num -> num;
  (** [x === 1] *)
  num_is_one : num -> bool;
  (** [false] for NaN, [+0] and [-0], as [x || 0] tests it *)
  num_truthy : num -> bool;
  (** [false] for NaN and the infinities *)
  num_is_finite : num -> bool;
  (** equality of the elements of a [Set] *)
  num_same_value_zero : num -> num -> bool;
  (** [parseFloat(s)] *)
  parseFloat : jsstring -> num;
  (** the value of a JSON number literal *)
  num_of_literal : jsstring -> num;
  (** [String(x)] *)
  num_to_string : num -> jsstring;
  (** [x.toFixed(1)] *)
  num_toFixed1 : num -> jsstring
}.

(** *** JSON values, objects and sets *)

#[local] Set Warnings "-register-all".
Inductive json (num : Type) : Type :=
| JNull
| JBool (b : bool)
| JNum (x : num)
| JStr (s : jsstring)
| JArr (l : list (json num))
| JObj (o : list (jsstring * json num)).

Arguments JNull {num}.
Arguments JBool {num} b.
Arguments JNum {num} x.
Arguments JStr {num} s.
Arguments JArr {num} l.
Arguments JObj {num} o.

Section Values.
Context {num : Type} `{Number num}.

(** The own properties of an ordinary object, in the order in which
    [JSON.stringify] and [Object.keys] visit them: array indices first, in
    ascending order, then the other keys in the order of their creation. *)
Definition object := list (jsstring * json num).

Definition is_digit (c : N) : bool := ((48 <=? c) && (c <=? 57))%N.

(** A key is an array index when it is the canonical decimal form of an
    integer below 2^32 - 1. *)
Definition array_index (k : jsstring) : option N :=
  match k with
  | [] => None
  | c :: r =>
      if forallb is_digit k && (negb (c =? 48)%N || bool_decide (r = []))
         && (length k <=? 10)%nat
      then
        match digits_value 10 None k with
        | Some n => if (n <? 4294967295)%N then Some n else None
        | None => None
        end
      else None
  end.

Fixpoint obj_get (o : object) (k : jsstring) : option (json num) :=
  match o with
  | [] => None
  | (k', v) :: r => if str_eqb k' k then Some v else obj_get r k
  end.

Fixpoint obj_replace (o : object) (k : jsstring) (v : json num) : object :=
  match o with
  | [] => []
  | (k', v') :: r =>
      if str_eqb k' k then (k', v) :: r else (k', v') :: obj_replace r k v
  end.

(** Where a new array-index key [i] goes: before the first key that is not
    an array index or is a larger one. *)
Fixpoint obj_insert_index (o : object) (i : N) (k : jsstring) (v : json num)
  : object :=
  match o with
  | [] => [(k, v)]
  | (k', v') :: r =>
      match array_index k' with
      | Some j =>
          if (j <? i)%N then (k', v') :: obj_insert_index r i k v
          else (k, v) :: o
      | None => (k, v) :: o
      end
  end.

(** [o[k] = v] on an ordinary object. *)
Definition obj_set (o : object) (k : jsstring) (v : json num) : object :=
  match obj_get o k with
  | Some _ => obj_replace o k v
  | None =>
      match array_index k with
      | Some i => obj_insert_index o i k v
      | None => o ++ [(k, v)]
      end
  end.

(** SameValueZero on the values [JSON.parse] produces.  Arrays and objects
    are compared by reference, and two values that were parsed apart are
    never the same object. *)
Definition same_value_zero (a b : json num) : bool :=
  match a, b with
  | JNull, JNull => true
  | JBool x, JBool y => Bool.eqb x y
  | JNum x, JNum y => num_same_value_zero x y
  | JStr x, JStr y => str_eqb x y
  | _, _ => false
  end.

(** A [Set] is the list of its elements in insertion order. *)
Definition set_has (s : list (json num)) (x : json num) : bool :=
  existsb (same_value_zero x) s.

Definition set_add (s : list (json num)) (x : json num) : list (json num) :=
  if set_has s x then s else s ++ [x].

Definition set_add_all (s : list (json num)) (l : list (json num))
  : list (json num) :=
  fold_left set_add l s.

Definition is_high_surrogate (c : N) : bool := ((55296 <=? c) && (c <=? 56319))%N.
Definition is_low_surrogate (c : N) : bool := ((56320 <=? c) && (c <=? 57343))%N.

(** The strings a string iterator yields: one per code point. *)
Fixpoint code_points (s : jsstring) : list jsstring :=
  match s with
  | [] => []
  | c :: r =>
      match r with
      | d :: r' =>
          if is_high_surrogate c && is_low_surrogate d
          then [c; d] :: code_points r'
          else [c] :: code_points r
      | [] => [[c]]
      end
  end.

(** [new Set(x)]; the outer [None] of the argument is [undefined], the
    [None] of the result is the TypeError for a value that cannot be
    iterated. *)
Definition Set_new (x : option (json num)) : option (list (json num)) :=
  match x with
  | None | Some JNull => Some []
  | Some (JArr l) => Some (set_add_all [] l)
  | Some (JStr s) => Some (set_add_all [] (map JStr (code_points s)))
  | Some _ => None
  end.

(** [v[k]] for a key that no prototype defines; [None] is the TypeError of
    reading a property of [null], [Some None] is [undefined]. *)
Definition get_prop (v : json num) (k : jsstring) : option (option (json num)) :=
  match v with
  | JNull => None
  | JObj o => Some (obj_get o k)
  | _ => Some None
  end.

(** [v[k] = x] in strict mode, for a key that is not an array index.  On a
    primitive it is a TypeError.  On an array it creates a property that
    [JSON.stringify] does not visit, and nothing else reads the value
    afterwards, so the array stands for the result. *)
Definition set_prop (v : json num) (k : jsstring) (x : json num) : option (json num) :=
  match v with
  | JObj o => Some (JObj (obj_set o k x))
  | JArr l => Some (JArr l)
  | _ => None
  end.

End Values.

(** *** JSON.stringify with an indentation of two spaces *)
Section Json.
Context {num : Type} `{Number num}.

Definition hex_digit (d : N) : N := (if d <? 10 then 48 + d else 87 + d)%N.

(** The escape [\uXXXX] of a code unit, in lower-case hexadecimal. *)
Definition uescape (c : N) : jsstring :=
  [BACKSLASH; 117; hex_digit (c / 4096 mod 16); hex_digit (c / 256 mod 16);
   hex_digit (c / 16 mod 16); hex_digit (c mod 16)]%N.

(** QuoteJSONString, without the enclosing quotes: the named escapes, the
    other control characters and the unpaired surrogates as [\uXXXX],
    everything else as it is. *)
Definition quote_unit (c : N) : jsstring :=
  (if c =? 8 then [BACKSLASH; 98]
   else if c =? 9 then [BACKSLASH; 116]
   else if c =? 10 then [BACKSLASH; 110]
   else if c =? 12 then [BACKSLASH; 102]
   else if c =? 13 then [BACKSLASH; 114]
   else if c =? QUOTE then [BACKSLASH; QUOTE]
   else if c =? BACKSLASH then [BACKSLASH; BACKSLASH]
   else if c <? 32 then uescape c
   else if is_high_surrogate c || is_low_surrogate c then uescape c
   else [c])%N.

Fixpoint quote_body (s : jsstring) : jsstring :=
  match s with
  | [] => []
  | c :: r =>
      match r with
      | d :: r' =>
          if is_high_surrogate c && is_low_surrogate d
          then c :: d :: quote_body r'
          else quote_unit c ++ quote_body r
      | [] => quote_unit c
      end
  end.

Definition quote (s : jsstring) : jsstring := QUOTE :: quote_body s ++ [QUOTE].

Definition INDENT : jsstring := [32; 32]%N.

Fixpoint stringify_at (ind : jsstring) (v : json num) : jsstring :=
  let ind' := ind ++ INDENT in
  let sep := [44; LF]%N ++ ind' in
  match v with
  | JNull => js "null"
  | JBool true => js "true"
  | JBool false => js "false"
  | JNum x => if num_is_finite x then num_to_string x else js "null"
  | JStr s => quote s
  | JArr [] => js "[]"
  | JArr l =>
      [91; LF]%N ++ ind' ++ join sep (map (stringify_at ind') l)
      ++ [LF] ++ ind ++ [93]%N
  | JObj [] => js "{}"
  | JObj o =>
      [123; LF]%N ++ ind'
      ++ join sep (map (fun kv => quote (fst kv) ++ [COLON; 32]%N
                                  ++ stringify_at ind' (snd kv)) o)
      ++ [LF] ++ ind ++ [125]%N
  end.

(** [JSON.stringify(v, null, 2)] *)
Definition JSON_stringify (v : json num) : jsstring := stringify_at [] v.

(** *** JSON.parse *)

Definition is_json_ws (c : N) : bool :=
  ((c =? 32) || (c =? 9) || (c =? LF) || (c =? CR))%N.

Definition skip_ws (s : jsstring) : jsstring := drop_while is_json_ws s.

Definition hex4 (a b c d : N) : option N :=
  a' ← digit_value 16 a; b' ← digit_value 16 b;
  c' ← digit_value 16 c; d' ← digit_value 16 d;
  Some (((a' * 16 + b') * 16 + c') * 16 + d')%N.

Definition simple_escape (e : N) : option N :=
  (if e =? QUOTE then Some QUOTE
   else if e =? BACKSLASH then Some BACKSLASH
   else if e =? 47 then Some 47
   else if e =? 98 then Some 8
   else if e =? 102 then Some 12
   else if e =? 110 then Some 10
   else if e =? 114 then Some 13
   else if e =? 116 then Some 9
   else None)%N.

Definition cons_unit (c : N) (r : option (jsstring * jsstring))
  : option (jsstring * jsstring) :=
  match r with
  | Some (s, rest) => Some (c :: s, rest)
  | None => None
  end.

(** The characters of a string after its opening quote: the string they
    denote and what follows the closing quote. *)
Fixpoint parse_string_body (s : jsstring) : option (jsstring * jsstring) :=
  match s with
  | [] => None
  | c :: r =>
      if (c =? QUOTE)%N then Some ([], r)
      else if (c =? BACKSLASH)%N then
        match r with
        | e :: r1 =>
            if (e =? 117)%N then
              match r1 with
              | a :: b :: c' :: d :: r2 =>
                  match hex4 a b c' d with
                  | Some u => cons_unit u (parse_string_body r2)
                  | None => None
                  end
              | _ => None
              end
            else
              match simple_escape e with
              | Some u => cons_unit u (parse_string_body r1)
              | None => None
              end
        | [] => None
        end
      else if (c <? 32)%N then None
      else cons_unit c (parse_string_body r)
  end.

Definition digits1 (s : jsstring) : option (jsstring * jsstring) :=
  match take_while is_digit s with
  | [] => None
  | ds => Some (ds, drop_while is_digit s)
  end.

(** What follows the code unit [ch] at the head of [s]; [None] when [s]
    does not begin with [ch]. *)
Definition after (ch : N) (s : jsstring) : option jsstring :=
  match s with
  | c :: r => if (c =? ch)%N then Some r else None
  | [] => None
  end.

(** The parts of a number literal: a zero or a non-zero digit and any
    digits; optionally a dot and digits; optionally an exponent mark, a sign
    and digits.  Each returns the part it read and what follows it. *)
Definition scan_int (s : jsstring) : option (jsstring * jsstring) :=
  match s with
  | c :: r =>
      if (c =? 48)%N then Some ([c], r)
      else if is_digit c then Some (c :: take_while is_digit r, drop_while is_digit r)
      else None
  | [] => None
  end.

Definition scan_fraction (s : jsstring) : option (jsstring * jsstring) :=
  match after 46 s with
  | Some r => '(ds, r') ← digits1 r; Some (46%N :: ds, r')
  | None => Some ([], s)
  end.

Definition scan_sign (s : jsstring) : jsstring * jsstring :=
  match after 43 s with
  | Some r => ([43%N], r)
  | None =>
      match after 45 s with
      | Some r => ([45%N], r)
      | None => ([], s)
      end
  end.

Definition scan_exponent (s : jsstring) : option (jsstring * jsstring) :=
  match s with
  | e :: r =>
      if ((e =? 101) || (e =? 69))%N then
        let '(sg, r1) := scan_sign r in
        '(ds, r2) ← digits1 r1; Some (e :: sg ++ ds, r2)
      else Some ([], s)
  | [] => Some ([], s)
  end.

(** The longest number literal at the head of [s] and what follows it. *)
Definition scan_number (s : jsstring) : option (jsstring * jsstring) :=
  let '(sign, s1) :=
    match after 45 s with
    | Some r => ([45%N], r)
    | None => ([], s)
    end in
  '(ip, s2) ← scan_int s1;
  '(fp, s3) ← scan_fraction s2;
  '(ep, s4) ← scan_exponent s3;
  Some (sign ++ ip ++ fp ++ ep, s4).

(** The members of an object literal are created one after the other. *)
Definition object_of_members (ms : list (jsstring * json num)) : object :=
  fold_left (fun o kv => obj_set o (fst kv) (snd kv)) ms [].

Definition expect (lit : jsstring) (v : json num) (s : jsstring)
  : option (json num * jsstring) :=
  if starts_with lit s then Some (v, drop (length lit) s) else None.

(** Recursive descent; each call on a nested value, on the next element or
    on the next member takes one unit of [fuel], and [JSON_parse] below
    gives more than the text can use. *)
Fixpoint parse_value (fuel : nat) (s : jsstring) : option (json num * jsstring) :=
  match fuel with
  | O => None
  | S f =>
      match skip_ws s with
      | [] => None
      | c :: r =>
          if (c =? 123)%N then
            match after 125 (skip_ws r) with
            | Some r' => Some (JObj [], r')
            | None => '(ms, r') ← parse_members f r; Some (JObj (object_of_members ms), r')
            end
          else if (c =? 91)%N then
            match after 93 (skip_ws r) with
            | Some r' => Some (JArr [], r')
            | None => '(vs, r') ← parse_elements f r; Some (JArr vs, r')
            end
          else if (c =? QUOTE)%N then
            '(str, r') ← parse_string_body r; Some (JStr str, r')
          else if (c =? 116)%N then expect (js "true") (JBool true) (c :: r)
          else if (c =? 102)%N then expect (js "false") (JBool false) (c :: r)
          else if (c =? 110)%N then expect (js "null") JNull (c :: r)
          else '(lit, r') ← scan_number (c :: r); Some (JNum (num_of_literal lit), r')
      end
  end
with parse_elements (fuel : nat) (s : jsstring)
  : option (list (json num) * jsstring) :=
  match fuel with
  | O => None
  | S f =>
      '(v, r) ← parse_value f s;
      match after 44 (skip_ws r) with
      | Some r' => '(vs, r'') ← parse_elements f r'; Some (v :: vs, r'')
      | None =>
          match after 93 (skip_ws r) with
          | Some r' => Some ([v], r')
          | None => None
          end
      end
  end
with parse_members (fuel : nat) (s : jsstring)
  : option (list (jsstring * json num) * jsstring) :=
  match fuel with
  | O => None
  | S f =>
      r ← after QUOTE (skip_ws s);
      '(k, r1) ← parse_string_body r;
      r2 ← after COLON (skip_ws r1);
      '(v, r3) ← parse_value f r2;
      match after 44 (skip_ws r3) with
      | Some r4 => '(ms, r5) ← parse_members f r4; Some ((k, v) :: ms, r5)
      | None =>
          match after 125 (skip_ws r3) with
          | Some r4 => Some ([(k, v)], r4)
          | None => None
          end
      end
  end.

(** [JSON.parse(text)]; [None] is the SyntaxError. *)
Definition JSON_parse (text : jsstring) : option (json num) :=
  match parse_value (S (length text)) text with
  | Some (v, r) =>
      match skip_ws r with
      | [] => Some v
      | _ => None
      end
  | None => None
  end.

End Json.

(** *** A fixed-point implementation of the numbers

    Thousandths, exact on the decimals with at most three fractional
    digits; [None] is NaN.  It serves to run the scripts on examples. *)
Module Fixed.

Definition t : Type := option Z.

(** Digits, then optionally a dot and digits; further digits after the
    third fractional one are dropped, an exponent is not read. *)
Definition read_decimal (s : jsstring) : option Z :=
  let ip := take_while is_digit s in
  let rest := drop_while is_digit s in
  let fp :=
    match rest with
    | 46%N :: r => take_while is_digit r
    | _ => []
    end in
  match ip, fp with
  | [], [] => None
  | _, _ =>
      let frac := take 3 (fp ++ [48; 48; 48]%N) in
      Some (Z.of_N (default 0%N (digits_value 10 None ip)) * 1000
            + Z.of_N (default 0%N (digits_value 10 None frac)))
  end.

Definition parse (s : jsstring) : t :=
  match trim_start s with
  | 45%N :: r => Z.opp <$> read_decimal r
  | 43%N :: r => read_decimal r
  | r => read_decimal r
  end.

Definition strip_zeros (s : jsstring) : jsstring :=
  rev (drop_while (fun c => (c =? 48)%N) (rev s)).

Definition to_string (x : t) : jsstring :=
  match x with
  | None => js "NaN"
  | Some z =>
      let a := Z.abs z in
      let frac := strip_zeros (pad 3 (a mod 1000)) in
      (if z <? 0 then js "-" else []) ++ Z_to_string (a / 1000)
      ++ match frac with
         | [] => []
         | _ => 46%N :: frac
         end
  end.

Definition toFixed1 (x : t) : jsstring :=
  match x with
  | None => js "NaN"
  | Some z =>
      let a := (Z.abs z + 50) / 100 in
      (if z <? 0 then js "-" else []) ++ Z_to_string (a / 10)
      ++ 46%N :: Z_to_string (a mod 10)
  end.

#[export] Instance number : Number t := {|
  num_zero := Some 0;
  num_add := fun a b => x ← a; y ← b; Some (x + y);
  num_is_one := fun a => bool_decide (a = Some 1000);
  num_truthy := fun a => match a with Some z => negb (z =? 0) | None => false end;
  num_is_finite := fun a => match a with Some _ => true | None => false end;
  num_same_value_zero := fun a b => bool_decide (a = b);
  parseFloat := parse;
  num_of_literal := parse;
  num_to_string := to_string;
  num_toFixed1 := toFixed1
|}.

End Fixed.

End JS.

(** ** yu-event-alerts.js *)
Module EventAlerts.
Import JS.

(** The two calls into [Intl] of the script: [toLocaleDateString] with the
    options weekday, month, day, year and [toLocaleTimeString] with the
    options hour, minute, hour12, both for the locale en-US in the zone
    America/New_York, on a valid time value.  The time-zone data behind
    them is not part of the repository. *)
Record Intl := {
  localeDate : Z -> jsstring;
  localeTime : Z -> jsstring
}.

Record Event := {
  id : jsstring;
  title : jsstring;
  date : jsstring;
  time : jsstring;
  location : jsstring;
  url : jsstring;
  timestamp : jsstring
}.

(** The argument of [transporter.sendMail]; [env.GMAIL_USER] is undefined
    ([None]) when [.env] does not set it. *)
Record Mail := {
  mail_from : option jsstring;
  mail_to : jsstring;
  subject : jsstring;
  html : jsstring
}.

Definition ICAL_SEPARATOR : jsstring := Eval cbv in js "BEGIN:VEVENT".
Definition EMAIL_TO : jsstring := Eval cbv in js "kfirslon@gmail.com".
Definition DEFAULT_URL : jsstring :=
  Eval cbv in js "https://yeshiva.campusgroups.com/events".
Definition TBD : jsstring := Eval cbv in js "TBD".
Definition INVALID_DATE : jsstring := Eval cbv in js "Invalid Date".
Definition SEEN_IDS : jsstring := Eval cbv in js "seenIds".

(** [parseICalDate(str)].  The outer [None] is [null]; [Some None] is a
    [Date] whose time value is NaN.  Nothing in the body of the [try]
    throws, so its [catch] is never entered. *)
Definition parseICalDate (str : option jsstring) : option (option Z) :=
  if falsy str then None
  else
    let str := default [] str in
    let y := substring 0 4 str in
    let m := substring 4 6 str in
    let d := substring 6 8 str in
    let h := or_else (substring 9 11 str) (js "00") in
    let min := or_else (substring 11 13 str) (js "00") in
    Some (Date_UTC (parseInt y) ((fun x => x - 1) <$> parseInt m) (parseInt d)
                   (parseInt h) (parseInt min)).

(** [start && start < today]: a [Date] is compared through its time value,
    and NaN is below nothing. *)
Definition is_past (start : option (option Z)) (today : Z) : bool :=
  match start with
  | Some (Some t) => t <? today
  | _ => false
  end.

Definition clean_title (summary : jsstring) : jsstring :=
  trim (replace_all [BACKSLASH] []
         (replace_all [BACKSLASH; 59%N] [59%N]
           (replace_all [BACKSLASH; 110%N] [32%N]
             (replace_all [BACKSLASH; 44%N] [44%N]
               (strip_encoding summary))))).

Definition clean_location (location : jsstring) : jsstring :=
  trim (replace_all [BACKSLASH] [] (replace_all [BACKSLASH; 44%N] [44%N] location)).

Section Run.
Context {num : Type} `{Number num}.
Variable intl : Intl.

(** [d.toLocaleDateString(...)] and [d.toLocaleTimeString(...)] on a [Date]
    that may be invalid. *)
Definition toLocaleDateString (d : option Z) : jsstring :=
  match d with
  | Some t => localeDate intl t
  | None => INVALID_DATE
  end.

Definition toLocaleTimeString (d : option Z) : jsstring :=
  match d with
  | Some t => localeTime intl t
  | None => INVALID_DATE
  end.

(** The body of the loop of [fetchEvents] on one block: [None] for the two
    [continue], the event pushed otherwise.  [today] is the time value of
    local midnight, [now] the clock when the event is built. *)
Definition parseBlock (today now : Z) (block : jsstring) : option Event :=
  let uid := match_field (js "UID:") false block in
  let summary := match_field (js "SUMMARY") true block in
  let dtStart := match_field (js "DTSTART") true block in
  let location := match_field (js "LOCATION:") false block in
  let url := match_field (js "URL:") false block in
  if falsy uid || falsy summary then None
  else
    let start := parseICalDate dtStart in
    if is_past start today then None
    else
      Some {|
        id := trim (default [] uid);
        title := clean_title (or_else (default [] summary) (js "Untitled Event"));
        date := match start with
                | Some d => toLocaleDateString d
                | None => TBD
                end;
        time := match start with
                | Some d => toLocaleTimeString d
                | None => TBD
                end;
        location := if falsy location then TBD
                    else clean_location (default [] location);
        url := if falsy url then DEFAULT_URL else trim (default [] url);
        timestamp := toISOString now
      |}.

(** The loop of [fetchEvents] from index [i] on; [clock i] is the time at
    which block [i] is handled. *)
Fixpoint fetch_loop (today : Z) (clock : nat -> Z) (i : nat)
  (blocks : list jsstring) : list Event :=
  match blocks with
  | [] => []
  | block :: rest =>
      match parseBlock today (clock i) block with
      | Some e => e :: fetch_loop today clock (S i) rest
      | None => fetch_loop today clock (S i) rest
      end
  end.

(** What [fetchEvents] does with the text of the response. *)
Definition eventBlocks (icalText : jsstring) : list jsstring :=
  split ICAL_SEPARATOR (replace_all [BACKSLASH; 110%N] [LF] icalText).

Definition parseFeed (today : Z) (clock : nat -> Z) (icalText : jsstring)
  : list Event :=
  fetch_loop today clock 1 (tail (eventBlocks icalText)).

(** *** The cache file *)

Definition empty_cache : json num := JObj [(SEEN_IDS, JArr [])].

(** [loadCache()]: the file is absent ([None]) or holds a text.  The
    SyntaxError of [JSON.parse] is caught. *)
Definition loadCache (file : option jsstring) : json num :=
  match file with
  | Some text =>
      match JSON_parse text with
      | Some cache => cache
      | None => empty_cache
      end
  | None => empty_cache
  end.

(** [saveCache(cache)]: the new content of the file. *)
Definition saveCache (cache : json num) : option jsstring :=
  Some (JSON_stringify cache).

(** *** Mail *)

Definition q (s : string) : jsstring :=
  map (fun c => if (c =? 39)%N then QUOTE else c) (js s).

Definition email_html (e : Event) : jsstring :=
  concat [
    [LF];
    q "    <div style='font-family: Arial, sans-serif; max-width: 600px; margin: 0;'>";
    [LF];
    q "      <div style='background: linear-gradient(135deg, #667eea 0%, #764ba2 100%); padding: 30px; text-align: center; border-radius: 10px 10px 0 0;'>";
    [LF];
    q "        <h1 style='color: white; margin: 0;'>";
    [55356; 57235]%N;
    q " New YU Event!</h1>";
    [LF];
    q "      </div>";
    [LF];
    q "      ";
    [LF];
    q "      <div style='background: #f8f9fa; padding: 30px;'>";
    [LF];
    q "        <div style='background: white; padding: 25px; border-radius: 8px;'>";
    [LF];
    q "          <h2 style='color: #333; margin-top: 0;'>";
    title e;
    q "</h2>";
    [LF];
    q "          ";
    [LF];
    q "          <div style='margin: 20px 0; padding: 15px; background: #e3f2fd; border-left: 4px solid #2196f3;'>";
    [LF];
    q "            <p style='margin: 8px 0;'><strong>";
    [55357; 56517]%N;
    q " Date:</strong> ";
    date e;
    q "</p>";
    [LF];
    q "            <p style='margin: 8px 0;'><strong>";
    [55357; 56656]%N;
    q " Time:</strong> ";
    time e;
    q "</p>";
    [LF];
    q "            <p style='margin: 8px 0;'><strong>";
    [55357; 56525]%N;
    q " Location:</strong> ";
    location e;
    q "</p>";
    [LF];
    q "          </div>";
    [LF];
    q "          ";
    [LF];
    q "          <div style='text-align: center; margin: 25px 0;'>";
    [LF];
    q "            <a href='";
    url e;
    q "' style='background: #4CAF50; color: white; padding: 15px 40px; text-decoration: none; border-radius: 50px; font-weight: bold;'>";
    [55356; 57247; 65039]%N;
    q " REGISTER NOW</a>";
    [LF];
    q "          </div>";
    [LF];
    q "          ";
    [LF];
    q "          <p style='color: #888; font-size: 12px; border-top: 1px solid #eee; padding-top: 15px; margin-top: 20px;'>";
    [9889]%N;
    q " Automated notification</p>";
    [LF];
    q "        </div>";
    [LF];
    q "      </div>";
    [LF];
    q "    </div>";
    [LF];
    q "  "
  ].

Definition email_subject (e : Event) : jsstring :=
  [55357; 57000; 32]%N ++ js "NEW YU EVENT: " ++ title e.

(** *** The run

    What a run finds outside the script, and what it leaves behind. *)
Record Env := {
  (** the text of the response of [fetch(ICAL_URL)], [None] when the
      request is rejected *)
  feed : option jsstring;
  (** the time value of [today] after [setHours(0, 0, 0, 0)] *)
  today : Z;
  (** the clock when block [i] of the feed is handled *)
  clock : nat -> Z;
  (** whether the mail relay accepts a message, given those it has
      accepted during this run *)
  transport : list Mail -> Mail -> bool;
  GMAIL_USER : option jsstring
}.

Record World := {
  (** the content of [events-cache.json], [None] when there is no file *)
  cache_file : option jsstring;
  (** the messages the relay has accepted, oldest first *)
  outbox : list Mail
}.

(** A computation reads and changes the world and returns a value or throws
    ([None]); what it changed before throwing stays changed. *)
Definition M (A : Type) : Type := World -> option A * World.

Definition ret {A} (a : A) : M A := fun w => (Some a, w).

Definition bind {A B} (m : M A) (k : A -> M B) : M B :=
  fun w =>
    match m w with
    | (Some a, w') => k a w'
    | (None, w') => (None, w')
    end.

(** A step that cannot change the world: its value, or the exception. *)
Definition lift {A} (o : option A) : M A := fun w => (o, w).

Variable env : Env.

Definition fetchEvents : M (list Event) :=
  bind (lift (feed env)) (fun icalText =>
  ret (parseFeed (today env) (clock env) icalText)).

(** The message [sendEmail(event)] hands to the relay. *)
Definition email_of (event : Event) : Mail :=
  {| mail_from := GMAIL_USER env; mail_to := EMAIL_TO;
     subject := email_subject event; html := email_html event |}.

Definition sendEmail (event : Event) : M unit :=
  fun w =>
    let mail := email_of event in
    if transport env (outbox w) mail
    then (Some tt, {| cache_file := cache_file w; outbox := outbox w ++ [mail] |})
    else (None, w).

(** [for (const event of events) { await sendEmail(event); ... }]; the
    pause after each message does not show in the world. *)
Fixpoint send_each (events : list Event) : M unit :=
  match events with
  | [] => ret tt
  | event :: rest => bind (sendEmail event) (fun _ => send_each rest)
  end.

(** [for (const event of newEvents) seenIds.add(event.id)] *)
Definition mark_seen (seenIds : list (json num)) (newEvents : list Event)
  : list (json num) :=
  fold_left (fun s e => set_add s (JStr (id e))) newEvents seenIds.

Definition is_new (seenIds : list (json num)) (e : Event) : bool :=
  negb (set_has seenIds (JStr (id e))).

Definition writeCache (cache : json num) : M unit :=
  fun w => (Some tt, {| cache_file := saveCache cache; outbox := outbox w |}).

(** The body of the [try] of [main]. *)
Definition main_try : M unit :=
  bind fetchEvents (fun events =>
  bind (fun w => (Some (loadCache (cache_file w)), w)) (fun cache =>
  bind (lift (get_prop cache SEEN_IDS)) (fun seen =>
  bind (lift (Set_new seen)) (fun seenIds =>
  let newEvents := List.filter (is_new seenIds) events in
  let eventsToNotify := take 10 newEvents in
  bind (send_each eventsToNotify) (fun _ =>
  bind (lift (set_prop cache SEEN_IDS (JArr (mark_seen seenIds newEvents))))
    (fun cache' =>
  writeCache cache')))))).

(** [main()]: the exit code of the process, 1 from [process.exit(1)] in
    the [catch], and the world it leaves. *)
Definition main (w : World) : Z * World :=
  match main_try w with
  | (Some _, w') => (0, w')
  | (None, w') => (1, w')
  end.

End Run.
End EventAlerts.

(** ** The gym-shift summaries

    The two scripts define [getPayPeriod], [formatDate] and [parseCSV] with
    the same text. *)
Module GymCommon.
Import JS.

Definition PERIOD_LENGTH_DAYS : Z := 14.
Definition EMAIL_TO : jsstring := Eval cbv in js "kfirslon@gmail.com".
Definition UNDEFINED : jsstring := Eval cbv in js "undefined".

(** The argument of [transporter.sendMail]. *)
Record Mail := {
  mail_from : option jsstring;
  mail_to : jsstring;
  subject : jsstring;
  text : jsstring
}.

(** A row of the sheet: an object from column name to cell. *)
Abbreviation Row := (gmap jsstring jsstring).

(** [row[h] = v]; assigning a string to [__proto__] changes nothing. *)
Definition set_field (row : Row) (h v : jsstring) : Row :=
  if str_eqb h (js "__proto__") then row else <[h:=v]> row.

(** [headers.forEach((h, i) => { row[h] = values[i] || ''; })] *)
Definition make_row (headers values : list jsstring) : Row :=
  fold_left (fun row ih => set_field row (snd ih) (or_else (default [] (values !! fst ih)) []))
            (zip (seq 0 (length headers)) headers) ∅.

Definition cells (line : jsstring) : list jsstring :=
  map trim (split [44%N] line).

(** [parseCSV(content)] *)
Definition parseCSV (content : jsstring) : list Row :=
  let lines := split [LF] (trim content) in
  let headers := cells (hd [] lines) in
  map (fun line => make_row headers (cells line)) (tail lines).

(** [`${x}`] for a string or undefined. *)
Definition show (x : option jsstring) : jsstring := default UNDEFINED x.

(** [String(x)] for an integer or NaN. *)
Definition show_int (x : option Z) : jsstring :=
  match x with
  | Some z => Z_to_string z
  | None => js "NaN"
  end.

(** [a >= b] and [a <= b] on dates, through their time values. *)
Definition date_ge (a b : option Z) : bool :=
  match a, b with
  | Some x, Some y => y <=? x
  | _, _ => false
  end.

Definition date_le (a b : option Z) : bool :=
  match a, b with
  | Some x, Some y => x <=? y
  | _, _ => false
  end.

(** The order of [Array.prototype.sort] without a comparator: strings by
    their code units. *)
Fixpoint str_ltb (a b : jsstring) : bool :=
  match a, b with
  | _, [] => false
  | [], _ :: _ => true
  | x :: a', y :: b' => (x <? y)%N || ((x =? y)%N && str_ltb a' b')
  end.

Fixpoint insert_sorted (x : jsstring) (l : list jsstring) : list jsstring :=
  match l with
  | [] => [x]
  | y :: r => if str_ltb x y then x :: l else y :: insert_sorted x r
  end.

Definition sort (l : list jsstring) : list jsstring :=
  fold_right insert_sorted [] l.

Section Zone.
(** The offset of local time from UTC in milliseconds, taken to be the
    same all year. *)
Variable tz : Z.

Definition LocalTime (t : Z) : Z := t + tz.
Definition UTC (t : Z) : Z := t - tz.

(** [new Date(year, monthIndex, day)] *)
Definition Date_local (year month day : option Z) : option Z :=
  y ← year; m ← month; d ← day;
  TimeClip (UTC (MakeDate (MakeDay (full_year y) m d) 0)).

(** [new Date('2025-11-29T00:00:00')]: a date-time without an offset is
    local time. *)
Definition ANCHOR_DATE : option Z :=
  TimeClip (UTC (MakeDate (days_from_civil 2025 11 29) 0)).

Definition getDate (d : option Z) : option Z :=
  (fun t => DateFromTime (LocalTime t)) <$> d.

Definition getMonth (d : option Z) : option Z :=
  (fun t => MonthFromTime (LocalTime t)) <$> d.

Definition getFullYear (d : option Z) : option Z :=
  (fun t => YearFromTime (LocalTime t)) <$> d.

(** The time value of [d] after [d.setDate(dt)]. *)
Definition setDate (d : option Z) (dt : option Z) : option Z :=
  t ← d; dt ← dt;
  let t := LocalTime t in
  TimeClip (UTC (MakeDate (MakeDay (YearFromTime t) (MonthFromTime t) dt)
                          (TimeWithinDay t))).

(** [getPayPeriod(date)]: the pair of [periodStart] and [periodEnd].  The
    quotients are integers far below 2^53, where [Math.floor] of the
    double quotient is the floor of the exact one. *)
Definition getPayPeriod (date : Z) : option Z * option Z :=
  let timeDiff := (fun a => date - a) <$> ANCHOR_DATE in
  let daysDiff := (fun x => x / msPerDay) <$> timeDiff in
  let periodIndex := (fun x => x / PERIOD_LENGTH_DAYS) <$> daysDiff in
  let periodStart :=
    setDate ANCHOR_DATE
      (a ← getDate ANCHOR_DATE; i ← periodIndex; Some (a + i * PERIOD_LENGTH_DAYS)) in
  let periodEnd :=
    setDate periodStart
      ((fun a => a + PERIOD_LENGTH_DAYS - 1) <$> getDate periodStart) in
  (periodStart, periodEnd).

(** [formatDate(date)] *)
Definition formatDate (date : option Z) : jsstring :=
  let month := pad_start0 2 (show_int ((fun m => m + 1) <$> getMonth date)) in
  let day := pad_start0 2 (show_int (getDate date)) in
  let year := show_int (getFullYear date) in
  month ++ [47%N] ++ day ++ [47%N] ++ year.

(** The date of a row whose [Date] has three parts. *)
Definition rowDate (dateParts : list jsstring) : option Z :=
  Date_local (parseInt (default [] (dateParts !! 2%nat)))
             ((fun m => m - 1) <$> parseInt (default [] (dateParts !! 0%nat)))
             (parseInt (default [] (dateParts !! 1%nat))).

End Zone.

Section Lines.
Context {num : Type} `{Number num}.

(** [parseFloat(row.Hours) || 0] *)
Definition row_hours (row : Row) : num :=
  let h := parseFloat (show (row !! js "Hours")) in
  if num_truthy h then h else num_zero.

(** The line of a shift. *)
Definition shift_line (row : Row) (hours : num) : jsstring :=
  let hourText := if num_is_one hours then js "hour" else js "hours" in
  show (row !! js "Date") ++ [32; 8212; 32]%N ++ num_to_string hours
  ++ [32%N] ++ hourText ++ js " ("
  ++ show (row !! js "Start Time") ++ js " - " ++ show (row !! js "End Time")
  ++ js ")".

(** The first test of the loop: [!row.Date || row.Date === 'Date' ||
    row.Date === 'MM/DD/YYYY']. *)
Definition skip_row (row : Row) : bool :=
  falsy (row !! js "Date")
  || bool_decide (row !! js "Date" = Some (js "Date"))
  || bool_decide (row !! js "Date" = Some (js "MM/DD/YYYY")).

Definition date_parts (row : Row) : list jsstring :=
  split [47%N] (default [] (row !! js "Date")).

Definition emailBody (periodStartStr periodEndStr : jsstring)
  (shiftLines : list jsstring) (totalHours : num) : jsstring :=
  let shiftListText :=
    if (0 <? length shiftLines)%nat then join [LF] shiftLines
    else js "No shifts recorded for this pay period" in
  js "Pay Period: " ++ periodStartStr ++ [32; 8211; 32]%N ++ periodEndStr
  ++ [LF; LF] ++ shiftListText ++ [LF; LF] ++ js "Total Hours: "
  ++ num_toFixed1 totalHours.

Definition SUBJECT : jsstring :=
  js "YU Gym Shifts " ++ [8212%N] ++ js " Weekly Pay Period Summary".

End Lines.
End GymCommon.

(** ** The stand-alone gym-shift summary *)
Module GymShifts.
Import JS GymCommon.

Record Env := {
  (** the clock at the start of [main] *)
  now : Z;
  (** the answer of the sheet: [None] when the request is rejected, else
      [response.ok] and the text *)
  sheet : option (bool * jsstring);
  (** the content of [gym-shifts.csv], [None] when there is no file *)
  shifts_file : option jsstring;
  (** whether the mail relay accepts the message *)
  transport : Mail -> bool;
  GMAIL_USER : option jsstring
}.

(** [fetchShifts()]: a failed request falls back to the local file, and to
    no rows without one. *)
Definition fetchShifts (env : Env) : option (list Row) :=
  match sheet env with
  | Some (true, csvContent) => Some (parseCSV csvContent)
  | _ =>
      match shifts_file env with
      | Some content => Some (parseCSV content)
      | None => Some []
      end
  end.

Section Run.
Context {num : Type} `{Number num}.
Variable tz : Z.

(** The variables the loop of [main] updates. *)
Record Acc := {
  totalHours : num;
  shiftLines : list jsstring;
  seenShifts : gset jsstring
}.

Definition start : Acc := {| totalHours := num_zero; shiftLines := []; seenShifts := ∅ |}.

Definition shiftKey (row : Row) : jsstring :=
  show (row !! js "Date") ++ [124%N] ++ show (row !! js "Start Time")
  ++ [124%N] ++ show (row !! js "End Time").

(** The body of the loop of [main] on one row. *)
Definition step (period : option Z * option Z) (acc : Acc) (row : Row) : Acc :=
  if skip_row row then acc
  else if negb (length (date_parts row) =? 3)%nat then acc
  else if bool_decide (shiftKey row ∈ seenShifts acc) then acc
  else
    let seen := {[shiftKey row]} ∪ seenShifts acc in
    let rowDate := rowDate tz (date_parts row) in
    if date_ge rowDate (fst period) && date_le rowDate (snd period) then
      let hours := row_hours row in
      {| totalHours := num_add (totalHours acc) hours;
         shiftLines := shiftLines acc ++ [shift_line row hours];
         seenShifts := seen |}
    else
      {| totalHours := totalHours acc; shiftLines := shiftLines acc;
         seenShifts := seen |}.

(** The loop of [main] over the rows. *)
Definition aggregate (period : option Z * option Z) (rows : list Row) : Acc :=
  fold_left (step period) rows start.

(** The message of a run, from the rows that were fetched. *)
Definition summary (env : Env) (rows : list Row) : Mail :=
  let currentPeriod := getPayPeriod tz (now env) in
  let periodStartStr := formatDate tz (fst currentPeriod) in
  let periodEndStr := formatDate tz (snd currentPeriod) in
  let acc := aggregate currentPeriod rows in
  {| mail_from := GMAIL_USER env; mail_to := EMAIL_TO; subject := SUBJECT;
     text := emailBody periodStartStr periodEndStr (sort (shiftLines acc))
                       (totalHours acc) |}.

(** [main()]: the exit code of the process and the messages the relay
    accepted. *)
Definition main (env : Env) : Z * list Mail :=
  match fetchShifts env with
  | Some rows =>
      let mail := summary env rows in
      if transport env mail then (0, [mail]) else (1, [])
  | None => (1, [])
  end.

End Run.
End GymShifts.

(** ** The GitHub-Actions gym-shift summary *)
Module GymShiftsGH.
Import JS GymCommon.

Record Env := {
  (** the clock at the start of [main] *)
  now : Z;
  (** the answer of the sheet: [None] when the request is rejected, else
      [response.ok] and the text *)
  sheet : option (bool * jsstring);
  (** whether the mail relay accepts the message *)
  transport : Mail -> bool;
  GMAIL_USER : option jsstring;
  GMAIL_APP_PASSWORD : option jsstring
}.

(** [fetchShifts()]: [None] when the request is rejected or the status is
    not a success. *)
Definition fetchShifts (env : Env) : option (list Row) :=
  match sheet env with
  | Some (true, csvContent) => Some (parseCSV csvContent)
  | _ => None
  end.

Section Run.
Context {num : Type} `{Number num}.
Variable tz : Z.

(** The variables the loop of [main] updates. *)
Record Acc := {
  totalHours : num;
  shiftLines : list jsstring
}.

Definition start : Acc := {| totalHours := num_zero; shiftLines := [] |}.

(** The body of the loop of [main] on one row. *)
Definition step (period : option Z * option Z) (acc : Acc) (row : Row) : Acc :=
  if skip_row row then acc
  else if negb (length (date_parts row) =? 3)%nat then acc
  else
    let rowDate := rowDate tz (date_parts row) in
    if date_ge rowDate (fst period) && date_le rowDate (snd period) then
      let hours := row_hours row in
      {| totalHours := num_add (totalHours acc) hours;
         shiftLines := shiftLines acc ++ [shift_line row hours] |}
    else acc.

(** The loop of [main] over the rows. *)
Definition aggregate (period : option Z * option Z) (rows : list Row) : Acc :=
  fold_left (step period) rows start.

(** The message of a run, from the rows that were fetched. *)
Definition summary (env : Env) (rows : list Row) : Mail :=
  let currentPeriod := getPayPeriod tz (now env) in
  let periodStartStr := formatDate tz (fst currentPeriod) in
  let periodEndStr := formatDate tz (snd currentPeriod) in
  let acc := aggregate currentPeriod rows in
  {| mail_from := GMAIL_USER env; mail_to := EMAIL_TO; subject := SUBJECT;
     text := emailBody periodStartStr periodEndStr (sort (shiftLines acc))
                       (totalHours acc) |}.

(** [main()]: the exit code of the process and the messages the relay
    accepted. *)
Definition main (env : Env) : Z * list Mail :=
  if falsy (GMAIL_USER env) || falsy (GMAIL_APP_PASSWORD env) then (1, [])
  else
  match fetchShifts env with
  | Some rows =>
      let mail := summary env rows in
      if transport env mail then (0, [mail]) else (1, [])
  | None => (1, [])
  end.

End Run.
End GymShiftsGH.

(** ** The reading of [.env]

    [yu-event-alerts.js] and the stand-alone gym-shift summary begin with
    the same lines: every line of [.env] is cut at its equals signs, and a
    line whose first piece is not empty and does not begin with [#] sets
    the trimmed piece to the trimmed rest of the line. *)
Module DotEnv.
Import JS GymCommon.

(** The body of the [forEach]: [const [key, ...valueParts] = line.split('=')]
    and the assignment [env[key.trim()] = valueParts.join('=').trim()]. *)
Definition env_line (env : gmap jsstring jsstring) (line : jsstring)
  : gmap jsstring jsstring :=
  let parts := split [61%N] line in
  let key := hd [] parts in
  let valueParts := tail parts in
  if negb (falsy (Some key)) && negb (starts_with [35%N] key)
  then set_field env (trim key) (trim (join [61%N] valueParts))
  else env.

(** The object [env] after the loop over [envContent.split('\n')]. *)
Definition parseEnv (envContent : jsstring) : gmap jsstring jsstring :=
  fold_left env_line (split [LF] envContent) ∅.

End DotEnv.

(** * Vocabulary of the statements *)

(** ** Pay periods *)
Section PayPeriodVocabulary.
Import JS.

(** The time value of local midnight of a civil date. *)
Definition local_midnight (tz y m d : Z) : Z :=
  days_from_civil y m d * msPerDay - tz.

(** [t] lies in the local day [y]-[m]-[d]. *)
Definition on_local_day (tz t y m d : Z) : Prop :=
  local_midnight tz y m d <= t < local_midnight tz y m d + msPerDay.

End PayPeriodVocabulary.

(** ** Shifts *)
Section ShiftVocabulary.
Import JS GymCommon.
Context {num : Type} `{Number num}.
Variable tz : Z.

(** The tests of the loop that a row passes to be counted, apart from the
    one on duplicates: its [Date] is there, has three parts, and lies in
    the period. *)
Definition in_period (period : option Z * option Z) (row : Row) : bool :=
  negb (skip_row row) && (length (date_parts row) =? 3)%nat
  && date_ge (rowDate tz (date_parts row)) (fst period)
  && date_le (rowDate tz (date_parts row)) (snd period).

(** Two rows are the same shift. *)
Definition same_shift (r1 r2 : Row) : Prop :=
  r1 !! js "Date" = r2 !! js "Date"
  /\ r1 !! js "Start Time" = r2 !! js "Start Time"
  /\ r1 !! js "End Time" = r2 !! js "End Time".

(** The rows the loop leaves before it looks at the set of keys. *)
Definition unreadable (row : Row) : bool :=
  skip_row row || negb (length (date_parts row) =? 3)%nat.

(** What counting a row does to the variables of the loop of the
    GitHub-Actions script. *)
Definition add_row (acc : GymShiftsGH.Acc) (row : Row) : GymShiftsGH.Acc :=
  {| GymShiftsGH.totalHours := num_add (GymShiftsGH.totalHours acc) (row_hours row);
     GymShiftsGH.shiftLines :=
       GymShiftsGH.shiftLines acc ++ [shift_line row (row_hours row)] |}.

End ShiftVocabulary.

(** Two rows for the same shift of 1 December 2025 that differ in their
    hours, and the period of 10 December 2025, in a zone without offset and
    with the fixed-point numbers. *)
Definition shift_row (date hours start_time end_time : string) : GymCommon.Row :=
  GymCommon.make_row
    [JS.js "Date"; JS.js "Hours"; JS.js "Start Time"; JS.js "End Time"]
    [JS.js date; JS.js hours; JS.js start_time; JS.js end_time].

Definition row_3h : GymCommon.Row := shift_row "12/01/2025" "3" "9:00" "12:00".
Definition row_4h : GymCommon.Row := shift_row "12/01/2025" "4" "9:00" "12:00".

Definition period_of_dec_10 : option Z * option Z :=
  GymCommon.getPayPeriod 0 (local_midnight 0 2025 12 10).

(** ** Runs of the event pipeline *)
Section EventVocabulary.
Import JS EventAlerts.
Context {num : Type} `{Number num}.
Variable intl : Intl.

(** The state the script keeps: an object whose only property is the array
    of the ids seen. *)
Definition seen_state (ids : list jsstring) : json num :=
  JObj [(EventAlerts.SEEN_IDS, JArr (map JStr ids))].

(** The messages the relay accepts out of those for [events], offered in
    order until one is refused, and whether all were accepted. *)
Fixpoint deliveries (env : Env) (ob : list Mail) (events : list Event)
  : list Mail * bool :=
  match events with
  | [] => ([], true)
  | e :: rest =>
      if transport env ob (email_of env e) then
        let '(ms, ok) := deliveries env (ob ++ [email_of env e]) rest in
        (email_of env e :: ms, ok)
      else ([], false)
  end.

(** The seen-set a run builds from the cache file. *)
Definition seen_at_start (file : option jsstring) : option (list (json num)) :=
  seen ← get_prop (loadCache file) SEEN_IDS; Set_new seen.

(** The events of the feed of a run. *)
Definition events_of (env : Env) : option (list Event) :=
  parseFeed intl (today env) (clock env) <$> feed env.

(** The list [new] of a run: the events of the feed whose id is not in the
    seen-set. *)
Definition new_events (env : Env) (w : World) : option (list Event) :=
  events ← events_of env;
  seen ← seen_at_start (cache_file w);
  Some (List.filter (is_new seen) events).

(** The worlds after one run after the other. *)
Definition runs (envs : list Env) (w : World) : World :=
  fold_left (fun w env => snd (main intl env w)) envs w.

(** The ways a run can fail before the cache file is written: the request
    for the feed is rejected; the cached value cannot be read as a seen-set
    (it is [null], or its [seenIds] cannot be iterated); the relay refuses
    one of the messages; the cached value is a string, a number or a
    boolean, on which no property can be set. *)
Definition run_fails (env : Env) (w : World) : Prop :=
  feed env = None
  \/ seen_at_start (cache_file w) = None
  \/ (exists new, new_events env w = Some new
                  /\ snd (deliveries env (outbox w) (take 10 new)) = false)
  \/ (exists seenIds new,
         seen_at_start (cache_file w) = Some seenIds
         /\ new_events env w = Some new
         /\ set_prop (loadCache (cache_file w)) SEEN_IDS
                     (JArr (mark_seen seenIds new)) = None).

End EventVocabulary.

(** *** Examples of runs

    A feed of eleven coming events, read on 10 December 2025 with a relay
    that accepts every message and no cache file; [Intl] is replaced by the
    ISO text of the instant, and the numbers are the fixed-point ones. *)
Definition iso_intl : EventAlerts.Intl :=
  {| EventAlerts.localeDate := JS.toISOString;
     EventAlerts.localeTime := JS.toISOString |}.

Definition CRLF : jsstring := [JS.CR; JS.LF].

Definition vevent (uid summary dtstart : string) : jsstring :=
  JS.js "BEGIN:VEVENT" ++ CRLF
  ++ JS.js "UID:" ++ JS.js uid ++ CRLF
  ++ JS.js "SUMMARY:" ++ JS.js summary ++ CRLF
  ++ JS.js "DTSTART:" ++ JS.js dtstart ++ CRLF
  ++ JS.js "END:VEVENT" ++ CRLF.

Definition calendar (events : list jsstring) : jsstring :=
  JS.js "BEGIN:VCALENDAR" ++ CRLF ++ concat events ++ JS.js "END:VCALENDAR" ++ CRLF.

Definition eleven_events : jsstring :=
  calendar (map (fun n => vevent (String.append "event-" n) "Talk" "20251220T180000")
                ["0"; "1"; "2"; "3"; "4"; "5"; "6"; "7"; "8"; "9"; "10"]%string).

Definition dec_10_2025 : Z := 1765324800000.

Definition env_eleven : EventAlerts.Env :=
  {| EventAlerts.feed := Some eleven_events;
     EventAlerts.today := dec_10_2025;
     EventAlerts.clock := fun _ => 1765390000123;
     EventAlerts.transport := fun _ _ => true;
     EventAlerts.GMAIL_USER := Some (JS.js "alerts@example.org") |}.

Definition env_offline : EventAlerts.Env :=
  {| EventAlerts.feed := None;
     EventAlerts.today := dec_10_2025;
     EventAlerts.clock := fun _ => 1765390000123;
     EventAlerts.transport := fun _ _ => true;
     EventAlerts.GMAIL_USER := Some (JS.js "alerts@example.org") |}.

Definition first_world : EventAlerts.World :=
  {| EventAlerts.cache_file := None; EventAlerts.outbox := [] |}.

Definition eleven_new : list EventAlerts.Event :=
  EventAlerts.parseFeed iso_intl dec_10_2025 (fun _ => 1765390000123) eleven_events.

(** The same run on a feed of eleven events with a title each. *)
Definition eleven_talks : jsstring :=
  calendar (map (fun n => vevent (String.append "talk-" n) (String.append "Talk " n)
                                 "20251220T180000")
                ["0"; "1"; "2"; "3"; "4"; "5"; "6"; "7"; "8"; "9"; "10"]%string).

Definition env_talks : EventAlerts.Env :=
  {| EventAlerts.feed := Some eleven_talks;
     EventAlerts.today := dec_10_2025;
     EventAlerts.clock := fun _ => 1765390000123;
     EventAlerts.transport := fun _ _ => true;
     EventAlerts.GMAIL_USER := Some (JS.js "alerts@example.org") |}.

Definition talks_new : list EventAlerts.Event :=
  EventAlerts.parseFeed iso_intl dec_10_2025 (fun _ => 1765390000123) eleven_talks.

(** The block of an event of 1 January 2020, and one whose start is the
    text TBA. *)
Definition past_block : jsstring :=
  CRLF ++ JS.js "UID:old-1" ++ CRLF ++ JS.js "SUMMARY:New Year" ++ CRLF
  ++ JS.js "DTSTART:20200101T100000" ++ CRLF ++ JS.js "END:VEVENT" ++ CRLF.

Definition undated_block : jsstring :=
  CRLF ++ JS.js "UID:evt-1" ++ CRLF ++ JS.js "SUMMARY:Chess Night" ++ CRLF
  ++ JS.js "DTSTART:TBA" ++ CRLF ++ JS.js "END:VEVENT" ++ CRLF.

(** A text given by its lines, with an apostrophe for each double quote. *)
Definition lines (l : list string) : jsstring :=
  JS.join [JS.LF] (map EventAlerts.q l).

(** The sheet of the aggregation example of the specification. *)
Definition two_shifts_csv : jsstring :=
  lines ["Date,Hours,Start Time,End Time";
         "12/05/2025,2.5,10:00,12:30";
         "12/01/2025,3,9:00,12:00"]%string.

Definition env_two_shifts : GymShifts.Env :=
  {| GymShifts.now := local_midnight 0 2025 12 10;
     GymShifts.sheet := Some (true, two_shifts_csv);
     GymShifts.shifts_file := None;
     GymShifts.transport := fun _ => true;
     GymShifts.GMAIL_USER := Some (JS.js "alerts@example.org") |}.

(** ** More vocabulary: texts, rows and states *)
Section MoreVocabulary.
Import JS GymCommon.
Context {num : Type} `{Number num}.

(** [sep] occurs in [s]: some suffix of [s] begins with it. *)
Fixpoint occurs (sep s : jsstring) : bool :=
  starts_with sep s
  || match s with
     | [] => false
     | _ :: r => occurs sep r
     end.

(** The key a line of [.env] assigns, if it assigns one. *)
Definition line_key (line : jsstring) : option jsstring :=
  let key := hd [] (split [61%N] line) in
  if negb (falsy (Some key)) && negb (starts_with [35%N] key)
     && negb (str_eqb (trim key) (js "__proto__"))
  then Some (trim key)
  else None.

(** The rows the stand-alone loop does not skip: those it can read whose
    key no earlier such row has, given the keys [seen] so far. *)
Fixpoint first_by_key (seen : gset jsstring) (rows : list Row) : list Row :=
  match rows with
  | [] => []
  | r :: rest =>
      if unreadable r then first_by_key seen rest
      else if bool_decide (GymShifts.shiftKey r ∈ seen) then first_by_key seen rest
      else r :: first_by_key ({[GymShifts.shiftKey r]} ∪ seen) rest
  end.


(** The order of the lines of a summary: [a] does not come after [b]. *)
Definition str_le (a b : jsstring) : Prop := str_ltb b a = false.

(** The values of JSON that are not objects or arrays. *)
Definition is_primitive (v : json num) : bool :=
  match v with
  | JNull | JBool _ | JNum _ | JStr _ => true
  | JArr _ | JObj _ => false
  end.

End MoreVocabulary.

(** *** More examples

    A relay that accepts three messages in a run and refuses the fourth; a
    cache file with a given text; the event of the block whose start is
    TBA; a block without a start; a response that is an error page; a run
    of each gym script without the sheet, and the GitHub-Actions run on
    the sheet of two shifts. *)
Definition env_flaky : EventAlerts.Env :=
  {| EventAlerts.feed := Some eleven_events;
     EventAlerts.today := dec_10_2025;
     EventAlerts.clock := fun _ => 1765390000123;
     EventAlerts.transport := fun ob _ => (length ob <? 3)%nat;
     EventAlerts.GMAIL_USER := Some (JS.js "alerts@example.org") |}.

Definition world_of_file (text : string) : EventAlerts.World :=
  {| EventAlerts.cache_file := Some (JS.js text); EventAlerts.outbox := [] |}.

Definition chess_night : EventAlerts.Event :=
  {| EventAlerts.id := JS.js "evt-1";
     EventAlerts.title := JS.js "Chess Night";
     EventAlerts.date := EventAlerts.INVALID_DATE;
     EventAlerts.time := EventAlerts.INVALID_DATE;
     EventAlerts.location := EventAlerts.TBD;
     EventAlerts.url := EventAlerts.DEFAULT_URL;
     EventAlerts.timestamp := JS.toISOString 0 |}.

Definition unscheduled_block : jsstring :=
  CRLF ++ JS.js "UID:evt-2" ++ CRLF ++ JS.js "SUMMARY:Open House" ++ CRLF
  ++ JS.js "END:VEVENT" ++ CRLF.

Definition env_error_page : EventAlerts.Env :=
  {| EventAlerts.feed := Some (JS.js "<html><body>503 Service Unavailable</body></html>");
     EventAlerts.today := dec_10_2025;
     EventAlerts.clock := fun _ => 1765390000123;
     EventAlerts.transport := fun _ _ => true;
     EventAlerts.GMAIL_USER := Some (JS.js "alerts@example.org") |}.

Definition env_no_sheet : GymShifts.Env :=
  {| GymShifts.now := local_midnight 0 2025 12 10;
     GymShifts.sheet := None;
     GymShifts.shifts_file := None;
     GymShifts.transport := fun _ => true;
     GymShifts.GMAIL_USER := Some (JS.js "alerts@example.org") |}.

Definition env_gh_no_sheet : GymShiftsGH.Env :=
  {| GymShiftsGH.now := local_midnight 0 2025 12 10;
     GymShiftsGH.sheet := Some (false, JS.js "Not Found");
     GymShiftsGH.transport := fun _ => true;
     GymShiftsGH.GMAIL_USER := Some (JS.js "alerts@example.org");
     GymShiftsGH.GMAIL_APP_PASSWORD := Some (JS.js "secret") |}.


(** ** Tactics *)

(** Lists of code units written with [++] and [::], nested to the right. *)
Ltac right_nest := repeat (progress (rewrite <- ?app_assoc; cbn [app])).
Ltac right_nest_in H := repeat (progress (rewrite <- ?app_assoc in H; cbn [app] in H)).

(** Decide the tests on code units that are numerals. *)
Ltac decide_units :=
  cbn [JS.after];
  repeat match goal with
         | |- context [(?a =? ?b)%N] =>
             let v := eval vm_compute in (a =? b)%N in
             lazymatch v with
             | true => change (a =? b)%N with true
             | false => change (a =? b)%N with false
             end
         end;
  cbv iota.

(** The code units of the digits of a decimal numeral. *)
Ltac digit_units :=
  cbn [NilEmpty.string_of_uint];
  repeat match goal with
         | |- context [JS.js (String ?c ?s)] =>
             let v := eval vm_compute in (N_of_ascii c) in
             change (JS.js (String c s)) with (v :: JS.js s)
         end.

(** * Properties *)

(** ** The models on concrete inputs *)

Example parseInt_examples :
  JS.parseInt (JS.js "08") = Some 8
  /\ JS.parseInt (JS.js "0x1f") = Some 31
  /\ JS.parseInt (JS.js " -12ab") = Some (-12)
  /\ JS.parseInt (JS.js "TBA") = None.
Proof. repeat split; reflexivity. Qed.

Example parseICalDate_examples :
  EventAlerts.parseICalDate (Some (JS.js "20251210T180000")) = Some (Some 1765389600000)
  /\ EventAlerts.parseICalDate (Some (JS.js "20251210")) = Some (Some dec_10_2025)
  /\ EventAlerts.parseICalDate (Some (JS.js "TBA")) = Some None
  /\ EventAlerts.parseICalDate None = None.
Proof. repeat split; vm_compute; reflexivity. Qed.

Example clean_title_example :
  EventAlerts.clean_title (JS.js " ENCODING=QUOTED-PRINTABLE:Purim\, music\; food \\ ")
  = JS.js "Purim, music; food".
Proof. vm_compute. reflexivity. Qed.

Example state_file_example :
  JS.JSON_stringify (H := JS.Fixed.number) (seen_state [JS.js "a"; JS.js "b"])
  = lines ["{"; "  'seenIds': ["; "    'a',"; "    'b'"; "  ]"; "}"]%string.
Proof. vm_compute. reflexivity. Qed.

Example JSON_parse_examples :
  JS.JSON_parse (H := JS.Fixed.number) (EventAlerts.q "{'b': [true, null], '2': 'x', 'b': {}}")
  = Some (JS.JObj [(JS.js "2", JS.JStr (JS.js "x")); (JS.js "b", JS.JObj [])])
  /\ JS.JSON_parse (H := JS.Fixed.number) (JS.js "[1,]") = None
  /\ JS.JSON_parse (H := JS.Fixed.number) (JS.js "01") = None.
Proof. repeat split; vm_compute; reflexivity. Qed.

(** The aggregation example of the specification: two shifts of the
    period, listed in the order of their lines, 5.5 hours in all. *)
Example summary_example :
  GymShifts.main (H := JS.Fixed.number) 0 env_two_shifts
  = (0, [{| GymCommon.mail_from := Some (JS.js "alerts@example.org");
            GymCommon.mail_to := GymCommon.EMAIL_TO;
            GymCommon.subject := GymCommon.SUBJECT;
            GymCommon.text :=
              JS.js "Pay Period: 11/29/2025 " ++ [8211%N] ++ JS.js " 12/12/2025"
              ++ [JS.LF; JS.LF]
              ++ JS.js "12/01/2025 " ++ [8212%N] ++ JS.js " 3 hours (9:00 - 12:00)"
              ++ [JS.LF]
              ++ JS.js "12/05/2025 " ++ [8212%N] ++ JS.js " 2.5 hours (10:00 - 12:30)"
              ++ [JS.LF; JS.LF] ++ JS.js "Total Hours: 5.5" |}]).
Proof. vm_compute. reflexivity. Qed.

(** A cache file that holds a JSON array is not a state of the script: the
    run finds no seen-set in it, sends its messages, and writes the array
    back without the ids. *)
Example array_in_cache_file :
  let w := {| EventAlerts.cache_file := Some (JS.js "[]"); EventAlerts.outbox := [] |} in
  let result := EventAlerts.main (H := JS.Fixed.number) iso_intl env_eleven w in
  fst result = 0
  /\ EventAlerts.cache_file (snd result) = Some (JS.js "[]")
  /\ length (EventAlerts.outbox (snd result)) = 10%nat.
Proof. vm_compute. repeat split; reflexivity. Qed.

(** ** Pay periods *)
Section PayPeriod.
Import JS GymCommon.

Lemma TimeClip_in_range t :
  Z.abs t <= 8640000000000000 -> TimeClip t = Some t.
Proof.
  intros Ht. unfold TimeClip.
  destruct (Z.leb_spec (Z.abs t) 8640000000000000); [reflexivity | lia].
Qed.

Lemma Day_midnight d : Day (d * msPerDay) = d.
Proof. unfold Day. apply Z.div_mul. discriminate. Qed.

Lemma TimeWithinDay_midnight d : TimeWithinDay (d * msPerDay) = 0.
Proof. unfold TimeWithinDay. apply Z.mod_mul. discriminate. Qed.

(** [setDate] on a date at local midnight of day number [d]. *)
Lemma setDate_midnight tz d dt :
  Z.abs (d * msPerDay - tz) <= 8640000000000000 ->
  let '(y, m, _) := civil_from_days d in
  Z.abs (MakeDay y (m - 1) dt * msPerDay - tz) <= 8640000000000000 ->
  setDate tz (Some (d * msPerDay - tz)) (Some dt)
  = Some (MakeDay y (m - 1) dt * msPerDay - tz).
Proof.
  intros Hd. destruct (civil_from_days d) as [[y m] dd] eqn:E. intros Hn.
  unfold setDate. cbn [mbind option_bind].
  unfold LocalTime, UTC, YearFromTime, MonthFromTime.
  replace (d * msPerDay - tz + tz) with (d * msPerDay) by ring.
  rewrite Day_midnight, TimeWithinDay_midnight, E. cbn [fst snd].
  unfold MakeDate. rewrite Z.add_0_r. apply TimeClip_in_range. exact Hn.
Qed.

Lemma getDate_midnight tz d :
  getDate tz (Some (d * msPerDay - tz)) = Some (snd (civil_from_days d)).
Proof.
  unfold getDate, LocalTime, DateFromTime. cbn [fmap option_fmap option_map].
  replace (d * msPerDay - tz + tz) with (d * msPerDay) by ring.
  by rewrite Day_midnight.
Qed.

(** The period of every instant [t] whose day number, counted from the
    anchor in local time, is [n] with [14 * i <= n < 14 * (i + 1)], for the
    two periods of the examples. *)
Lemma getPayPeriod_from_anchor tz t i :
  - msPerDay < tz < msPerDay ->
  0 <= i <= 1 ->
  (20421 + 14 * i) * msPerDay - tz <= t < (20421 + 14 * (i + 1)) * msPerDay - tz ->
  getPayPeriod tz t
  = (Some ((20421 + 14 * i) * msPerDay - tz),
     Some ((20421 + 14 * i + 13) * msPerDay - tz)).
Proof.
  intros Htz Hi Ht. unfold msPerDay in *.
  assert (Hidx : (t - (20421 * 86400000 - tz)) / 86400000 / 14 = i).
  { rewrite Z.div_div by lia.
    symmetry. apply (Z.div_unique _ _ i (t - (20421 * 86400000 - tz) - i * (86400000 * 14))); lia. }
  unfold getPayPeriod, ANCHOR_DATE, UTC, MakeDate, PERIOD_LENGTH_DAYS.
  change (days_from_civil 2025 11 29) with 20421. rewrite Z.add_0_r.
  rewrite TimeClip_in_range by (unfold msPerDay; lia).
  cbn [fmap option_fmap option_map]. unfold msPerDay. rewrite Hidx.
  change 86400000 with msPerDay.
  rewrite getDate_midnight. cbn [mbind option_bind].
  change (snd (civil_from_days 20421)) with 29.
  pose proof (setDate_midnight tz 20421 (29 + i * 14)) as Hs.
  change (civil_from_days 20421) with (2025, 11, 29) in Hs. cbv beta iota in Hs.
  assert (Hmk : forall k, MakeDay 2025 (11 - 1) k = 20392 + k).
  { intros k. unfold MakeDay. change (days_from_civil _ _ _) with 20393. lia. }
  rewrite Hmk in Hs. rewrite Hs by (unfold msPerDay; lia). clear Hs.
  replace (20392 + (29 + i * 14)) with (20421 + 14 * i) by lia.
  rewrite getDate_midnight. cbn [fmap option_fmap option_map].
  f_equal.
  destruct (Z.eq_dec i 0) as [-> | Hne].
  - pose proof (setDate_midnight tz 20421 (29 + 14 - 1)) as Hs.
    change (civil_from_days 20421) with (2025, 11, 29) in Hs. cbv beta iota in Hs.
    rewrite Hmk in Hs. change (20421 + 14 * 0) with 20421.
    change (snd (civil_from_days 20421)) with 29.
    rewrite Hs by (unfold msPerDay; lia). reflexivity.
  - assert (i = 1) as -> by lia.
    pose proof (setDate_midnight tz 20435 (13 + 14 - 1)) as Hs.
    change (civil_from_days 20435) with (2025, 12, 13) in Hs. cbv beta iota in Hs.
    change (MakeDay 2025 (12 - 1) (13 + 14 - 1)) with 20448 in Hs.
    change (20421 + 14 * 1) with 20435.
    change (snd (civil_from_days 20435)) with 13.
    rewrite Hs by (unfold msPerDay; lia). reflexivity.
Qed.

Lemma formatDate_midnight tz d :
  formatDate tz (Some (d * msPerDay - tz))
  = let '(y, m, dd) := civil_from_days d in
    pad_start0 2 (Z_to_string (m - 1 + 1)) ++ [47%N]
    ++ pad_start0 2 (Z_to_string dd) ++ [47%N] ++ Z_to_string y.
Proof.
  unfold formatDate, getMonth, getDate, getFullYear, LocalTime,
    MonthFromTime, DateFromTime, YearFromTime.
  cbn [fmap option_fmap option_map show_int].
  replace (d * msPerDay - tz + tz) with (d * msPerDay) by ring.
  rewrite Day_midnight. by destruct (civil_from_days d) as [[y m] dd].
Qed.

(** C2. With the anchor 2025-11-29 and periods of 14 days, every instant of
    the local day 2025-12-10 lies in the period that starts on 2025-11-29
    and ends on 2025-12-12, and every instant of 2025-12-13 in the period
    that starts on 2025-12-13 and ends on 2025-12-26; [formatDate] prints
    these bounds as 11/29/2025, 12/12/2025, 12/13/2025 and 12/26/2025. *)
Theorem C2_pay_period_examples (tz t1 t2 : Z) :
  - msPerDay < tz < msPerDay ->
  on_local_day tz t1 2025 12 10 ->
  on_local_day tz t2 2025 12 13 ->
  getPayPeriod tz t1
  = (Some (local_midnight tz 2025 11 29), Some (local_midnight tz 2025 12 12))
  /\ getPayPeriod tz t2
    = (Some (local_midnight tz 2025 12 13), Some (local_midnight tz 2025 12 26))
  /\ formatDate tz (fst (getPayPeriod tz t1)) = js "11/29/2025"
  /\ formatDate tz (snd (getPayPeriod tz t1)) = js "12/12/2025"
  /\ formatDate tz (fst (getPayPeriod tz t2)) = js "12/13/2025"
  /\ formatDate tz (snd (getPayPeriod tz t2)) = js "12/26/2025".
Proof.
  intros Htz H1 H2. unfold on_local_day, local_midnight in *.
  change (days_from_civil 2025 12 10) with 20432 in H1.
  change (days_from_civil 2025 12 13) with 20435 in H2.
  change (days_from_civil 2025 11 29) with 20421.
  change (days_from_civil 2025 12 12) with 20434.
  change (days_from_civil 2025 12 13) with 20435.
  change (days_from_civil 2025 12 26) with 20448.
  rewrite (getPayPeriod_from_anchor tz t1 0) by (unfold msPerDay in *; lia).
  rewrite (getPayPeriod_from_anchor tz t2 1) by (unfold msPerDay in *; lia).
  cbn [fst snd]. rewrite !formatDate_midnight.
  repeat split; reflexivity.
Qed.

Lemma C2_pay_period_examples_witness :
  let tz := -18000000 in
  let t1 := 1765390000123 in
  let t2 := 1765602000000 in
  on_local_day tz t1 2025 12 10 /\ on_local_day tz t2 2025 12 13
  /\ getPayPeriod tz t1 = (Some 1764392400000, Some 1765515600000)
  /\ getPayPeriod tz t2 = (Some 1765602000000, Some 1766725200000).
Proof.
  intros tz t1 t2.
  destruct (C2_pay_period_examples tz t1 t2) as (E1 & E2 & _);
    [unfold msPerDay, tz; lia
    | unfold on_local_day, local_midnight, msPerDay, tz, t1; vm_compute; split; [discriminate | reflexivity]
    | unfold on_local_day, local_midnight, msPerDay, tz, t2; vm_compute; split; [discriminate | reflexivity]
    | ].
  split; [vm_compute; split; [discriminate | reflexivity] |].
  split; [vm_compute; split; [discriminate | reflexivity] |].
  split; [exact E1 | exact E2].
Defined.

End PayPeriod.

(** ** Shift aggregation *)
Section Shifts.
Import JS GymCommon.
Context {num : Type} `{Number num}.
Variable tz : Z.

Lemma same_shift_in_period period r1 r2 :
  same_shift r1 r2 -> in_period tz period r2 = in_period tz period r1.
Proof.
  intros (Hd & _ & _). unfold in_period, skip_row, date_parts. by rewrite Hd.
Qed.

Lemma same_shift_key r1 r2 :
  same_shift r1 r2 -> GymShifts.shiftKey r2 = GymShifts.shiftKey r1.
Proof.
  intros (Hd & Hs & He). unfold GymShifts.shiftKey. by rewrite Hd, Hs, He.
Qed.

(** *** The stand-alone script *)

Lemma step_unreadable period acc row :
  unreadable row = true -> GymShifts.step tz period acc row = acc.
Proof.
  unfold unreadable, GymShifts.step. intros Hu.
  destruct (skip_row row); [reflexivity |].
  cbn in Hu. by rewrite Hu.
Qed.

Lemma step_seen period acc row :
  GymShifts.shiftKey row ∈ GymShifts.seenShifts acc ->
  GymShifts.step tz period acc row = acc.
Proof.
  intros Hin. unfold GymShifts.step.
  destruct (skip_row row); [reflexivity |].
  destruct (negb _); [reflexivity |].
  by rewrite bool_decide_eq_true_2.
Qed.

Lemma step_seen_mono period acc row :
  GymShifts.seenShifts acc ⊆ GymShifts.seenShifts (GymShifts.step tz period acc row).
Proof.
  unfold GymShifts.step.
  destruct (skip_row row); [reflexivity |].
  destruct (negb _); [reflexivity |].
  case_bool_decide; [reflexivity |].
  destruct (_ && _); cbn; set_solver.
Qed.

Lemma fold_seen_mono period rows acc :
  GymShifts.seenShifts acc
  ⊆ GymShifts.seenShifts (fold_left (GymShifts.step tz period) rows acc).
Proof.
  revert acc. induction rows as [| r rows IH]; intros acc; cbn; [reflexivity |].
  etrans; [apply (step_seen_mono period acc r) | apply IH].
Qed.

Lemma step_records_key period acc row :
  unreadable row = false ->
  GymShifts.shiftKey row ∈ GymShifts.seenShifts (GymShifts.step tz period acc row).
Proof.
  unfold unreadable, GymShifts.step. intros Hu.
  destruct (skip_row row); [discriminate |].
  cbn in Hu. rewrite Hu.
  case_bool_decide; [assumption |].
  destruct (_ && _); cbn; set_solver.
Qed.

(** A key-fresh row of the period adds its hours and its line. *)
Lemma step_counts period acc row :
  in_period tz period row = true ->
  GymShifts.shiftKey row ∉ GymShifts.seenShifts acc ->
  GymShifts.step tz period acc row
  = {| GymShifts.totalHours := num_add (GymShifts.totalHours acc) (row_hours row);
       GymShifts.shiftLines :=
         GymShifts.shiftLines acc ++ [shift_line row (row_hours row)];
       GymShifts.seenShifts := {[GymShifts.shiftKey row]} ∪ GymShifts.seenShifts acc |}.
Proof.
  unfold in_period, GymShifts.step. intros Hp Hfresh.
  destruct (skip_row row); [discriminate |]. cbn in Hp.
  destruct (length (date_parts row) =? 3)%nat; [| discriminate]. cbn in Hp |- *.
  rewrite bool_decide_eq_false_2 by assumption.
  by rewrite Hp.
Qed.

(** A row that repeats the date, start time and end time of an earlier row
    leaves every variable of the loop as it was. *)
Lemma duplicate_row_skipped period pre mid post r1 r2 :
  same_shift r1 r2 ->
  GymShifts.aggregate tz period (pre ++ r1 :: mid ++ r2 :: post)
  = GymShifts.aggregate tz period (pre ++ r1 :: mid ++ post).
Proof.
  intros Hsame. unfold GymShifts.aggregate.
  rewrite !fold_left_app. cbn [fold_left]. rewrite !fold_left_app. cbn [fold_left].
  f_equal.
  set (a := fold_left (GymShifts.step tz period) pre GymShifts.start).
  destruct (unreadable r1) eqn:Hu.
  - apply step_unreadable.
    destruct Hsame as (Hd & _ & _).
    unfold unreadable, skip_row, date_parts in *. by rewrite <- Hd.
  - apply step_seen. rewrite (same_shift_key r1 r2 Hsame).
    apply (fold_seen_mono period mid). by apply step_records_key.
Qed.

(** C3. In the stand-alone script, of two rows with the same date, start
    time and end time, whatever their hours, the first, being the first row
    with that key and lying in the period, adds its hours to the total and
    appends its line; the second changes neither the total nor the lines,
    wherever it stands after the first. *)
Theorem C3_standalone_first_row_counts_duplicate_skipped
  (period : option Z * option Z) (pre mid post : list Row) (r1 r2 : Row) :
  same_shift r1 r2 ->
  in_period tz period r1 = true ->
  GymShifts.shiftKey r1 ∉ GymShifts.seenShifts (GymShifts.aggregate tz period pre) ->
  let before := GymShifts.aggregate tz period pre in
  let after := GymShifts.aggregate tz period (pre ++ [r1]) in
  GymShifts.totalHours after = num_add (GymShifts.totalHours before) (row_hours r1)
  /\ GymShifts.shiftLines after
     = GymShifts.shiftLines before ++ [shift_line r1 (row_hours r1)]
  /\ GymShifts.aggregate tz period (pre ++ r1 :: mid ++ [r2])
     = GymShifts.aggregate tz period (pre ++ r1 :: mid)
  /\ GymShifts.aggregate tz period (pre ++ r1 :: mid ++ r2 :: post)
     = GymShifts.aggregate tz period (pre ++ r1 :: mid ++ post).
Proof.
  intros Hsame Hp Hfresh before after.
  assert (Hafter : after = GymShifts.step tz period before r1).
  { unfold after, before, GymShifts.aggregate. by rewrite fold_left_app. }
  rewrite Hafter, (step_counts period before r1 Hp Hfresh). cbn.
  split; [reflexivity |]. split; [reflexivity |]. split.
  - rewrite (duplicate_row_skipped period pre mid [] r1 r2 Hsame).
    by rewrite app_nil_r.
  - by apply duplicate_row_skipped.
Qed.

(** *** The GitHub-Actions script *)

Lemma gh_step_counts period acc row :
  in_period tz period row = true ->
  GymShiftsGH.step tz period acc row = add_row acc row.
Proof.
  unfold in_period, GymShiftsGH.step, add_row. intros Hp.
  destruct (skip_row row); [discriminate |]. cbn in Hp.
  destruct (length (date_parts row) =? 3)%nat; [| discriminate]. cbn in Hp |- *.
  by rewrite Hp.
Qed.

(** C10. In the GitHub-Actions script two rows of the period with the same
    date, start time and end time are both counted, wherever they stand
    among the rows: each adds to the total the number read from its
    [Hours], or zero when that is no number or is zero, and appends its
    line, made of its date, that number, the word hour or hours, and its
    start and end time. *)
Theorem C10_gh_counts_both_rows
  (period : option Z * option Z) (pre mid : list Row) (r1 r2 : Row) :
  same_shift r1 r2 ->
  in_period tz period r1 = true ->
  let hours (r : Row) :=
    if num_truthy (parseFloat (show (r !! js "Hours")))
    then parseFloat (show (r !! js "Hours")) else num_zero in
  let line (r : Row) :=
    show (r !! js "Date") ++ [32; 8212; 32]%N ++ num_to_string (hours r) ++ [32%N]
    ++ (if num_is_one (hours r) then js "hour" else js "hours") ++ js " ("
    ++ show (r !! js "Start Time") ++ js " - " ++ show (r !! js "End Time")
    ++ js ")" in
  let before1 := GymShiftsGH.aggregate tz period pre in
  let after1 := GymShiftsGH.aggregate tz period (pre ++ [r1]) in
  let before2 := GymShiftsGH.aggregate tz period (pre ++ r1 :: mid) in
  let after2 := GymShiftsGH.aggregate tz period (pre ++ r1 :: mid ++ [r2]) in
  after1 = add_row before1 r1
  /\ after2 = add_row before2 r2
  /\ GymShiftsGH.totalHours after1 = num_add (GymShiftsGH.totalHours before1) (hours r1)
  /\ GymShiftsGH.shiftLines after1 = GymShiftsGH.shiftLines before1 ++ [line r1]
  /\ GymShiftsGH.totalHours after2 = num_add (GymShiftsGH.totalHours before2) (hours r2)
  /\ GymShiftsGH.shiftLines after2 = GymShiftsGH.shiftLines before2 ++ [line r2]
  /\ GymShiftsGH.totalHours (GymShiftsGH.aggregate tz period (pre ++ [r1; r2]))
     = num_add (num_add (GymShiftsGH.totalHours before1) (hours r1)) (hours r2)
  /\ GymShiftsGH.shiftLines (GymShiftsGH.aggregate tz period (pre ++ [r1; r2]))
     = GymShiftsGH.shiftLines before1 ++ [line r1; line r2].
Proof.
  intros Hsame Hp hours line before1 after1 before2 after2.
  assert (Hp2 : in_period tz period r2 = true)
    by (by rewrite (same_shift_in_period period r1 r2 Hsame)).
  assert (H1 : after1 = add_row before1 r1).
  { unfold after1, before1, GymShiftsGH.aggregate.
    rewrite fold_left_app. cbn [fold_left]. by apply gh_step_counts. }
  assert (H2 : after2 = add_row before2 r2).
  { unfold after2, before2, GymShiftsGH.aggregate.
    rewrite !fold_left_app. cbn [fold_left]. rewrite fold_left_app. cbn [fold_left].
    by apply gh_step_counts. }
  assert (H12 : GymShiftsGH.aggregate tz period (pre ++ [r1; r2])
                = add_row (add_row before1 r1) r2).
  { unfold before1, GymShiftsGH.aggregate. rewrite fold_left_app. cbn [fold_left].
    by rewrite !gh_step_counts. }
  rewrite H12, H1, H2.
  repeat split; try reflexivity.
  cbn [add_row GymShiftsGH.shiftLines]. by rewrite <- app_assoc.
Qed.

End Shifts.

Lemma C3_standalone_witness :
  same_shift row_3h row_4h
  /\ in_period 0 period_of_dec_10 row_3h = true
  /\ GymShifts.totalHours
       (GymShifts.aggregate (H := JS.Fixed.number) 0 period_of_dec_10 [row_3h; row_4h])
     = Some 3000
  /\ GymShifts.aggregate (H := JS.Fixed.number) 0 period_of_dec_10 [row_3h; row_4h]
     = GymShifts.aggregate (H := JS.Fixed.number) 0 period_of_dec_10 [row_3h].
Proof.
  assert (Hs : same_shift row_3h row_4h) by (repeat split; vm_compute; reflexivity).
  assert (Hp : in_period 0 period_of_dec_10 row_3h = true) by (vm_compute; reflexivity).
  destruct (C3_standalone_first_row_counts_duplicate_skipped
              (H := JS.Fixed.number) 0 period_of_dec_10 [] [] [] row_3h row_4h Hs Hp)
    as (Ht & _ & Hskip & _).
  { cbn. apply not_elem_of_empty. }
  split; [exact Hs |]. split; [exact Hp |]. split.
  - cbn [app] in Hskip. rewrite Hskip. cbn [app] in Ht. rewrite Ht.
    vm_compute. reflexivity.
  - exact Hskip.
Defined.

(** C3 does not hold of the GitHub-Actions script: there the same two rows
    are both counted, the total is 3 + 4 hours (7000 thousandths) and there
    are two lines. *)
Lemma C3_gh_counterexample :
  same_shift row_3h row_4h
  /\ GymShiftsGH.totalHours
       (GymShiftsGH.aggregate (H := JS.Fixed.number) 0 period_of_dec_10 [row_3h; row_4h])
     = Some 7000
  /\ length (GymShiftsGH.shiftLines
               (GymShiftsGH.aggregate (H := JS.Fixed.number) 0 period_of_dec_10
                                      [row_3h; row_4h])) = 2%nat
  /\ GymShiftsGH.aggregate (H := JS.Fixed.number) 0 period_of_dec_10 [row_3h; row_4h]
     <> GymShiftsGH.aggregate (H := JS.Fixed.number) 0 period_of_dec_10 [row_3h].
Proof.
  split; [repeat split; vm_compute; reflexivity |].
  split; [vm_compute; reflexivity |].
  split; [vm_compute; reflexivity |].
  intros Heq. apply (f_equal GymShiftsGH.totalHours) in Heq.
  vm_compute in Heq. discriminate Heq.
Qed.

Lemma C10_gh_witness :
  same_shift row_3h row_4h
  /\ in_period 0 period_of_dec_10 row_3h = true
  /\ GymShiftsGH.totalHours
       (GymShiftsGH.aggregate (H := JS.Fixed.number) 0 period_of_dec_10 [row_3h; row_4h])
     = Some 7000
  /\ GymShiftsGH.shiftLines
       (GymShiftsGH.aggregate (H := JS.Fixed.number) 0 period_of_dec_10 [row_3h; row_4h])
     = [JS.js "12/01/2025 " ++ [8212%N] ++ JS.js " 3 hours (9:00 - 12:00)";
        JS.js "12/01/2025 " ++ [8212%N] ++ JS.js " 4 hours (9:00 - 12:00)"].
Proof.
  assert (Hs : same_shift row_3h row_4h) by (repeat split; vm_compute; reflexivity).
  assert (Hp : in_period 0 period_of_dec_10 row_3h = true) by (vm_compute; reflexivity).
  destruct (C10_gh_counts_both_rows (H := JS.Fixed.number) 0 period_of_dec_10
              [] [] row_3h row_4h Hs Hp)
    as (_ & _ & _ & _ & _ & _ & Ht & Hl).
  split; [exact Hs |]. split; [exact Hp |].
  cbn [app] in Ht, Hl. split.
  - rewrite Ht. vm_compute. reflexivity.
  - rewrite Hl. vm_compute. reflexivity.
Defined.

(** ** JSON texts of strings and of arrays of strings *)
Section JsonFacts.
Import JS.
Context {num : Type} `{Number num}.

Lemma digit_value_hex_digit d :
  (d < 16)%N -> digit_value 16 (hex_digit d) = Some d.
Proof.
  intros Hd.
  assert (Hcases : In d (map N.of_nat (seq 0 16))).
  { apply in_map_iff. exists (N.to_nat d). split; [lia |]. apply in_seq. lia. }
  cbn in Hcases.
  repeat (destruct Hcases as [<- | Hcases]; [reflexivity |]). destruct Hcases.
Qed.

Lemma hex4_uescape c :
  (c < 65536)%N ->
  exists a b c' d, uescape c = [BACKSLASH; 117%N; a; b; c'; d] /\ hex4 a b c' d = Some c.
Proof.
  intros Hc. eexists _, _, _, _. split; [reflexivity |].
  unfold hex4.
  rewrite !digit_value_hex_digit by (apply N.mod_lt; discriminate).
  cbn [mbind option_bind]. f_equal.
  pose proof (N.div_mod c 16 ltac:(discriminate)).
  pose proof (N.div_mod (c / 16) 16 ltac:(discriminate)).
  pose proof (N.div_mod (c / 16 / 16) 16 ltac:(discriminate)).
  assert (c / 4096 = c / 16 / 16 / 16)%N as -> by (rewrite !N.Div0.div_div; reflexivity).
  assert (c / 256 = c / 16 / 16)%N as -> by (rewrite !N.Div0.div_div; reflexivity).
  assert (c / 16 / 16 / 16 < 16)%N.
  { rewrite !N.Div0.div_div. apply N.Div0.div_lt_upper_bound. exact Hc. }
  rewrite (N.mod_small (c / 16 / 16 / 16) 16) by assumption.
  lia.
Qed.

(** Reading back what [quote_unit] wrote gives the code unit. *)
Lemma parse_quote_unit c tail :
  parse_string_body (quote_unit c ++ tail) = cons_unit c (parse_string_body tail).
Proof.
  unfold quote_unit.
  destruct (N.eqb_spec c 8) as [-> | ?]; [reflexivity |].
  destruct (N.eqb_spec c 9) as [-> | ?]; [reflexivity |].
  destruct (N.eqb_spec c 10) as [-> | ?]; [reflexivity |].
  destruct (N.eqb_spec c 12) as [-> | ?]; [reflexivity |].
  destruct (N.eqb_spec c 13) as [-> | ?]; [reflexivity |].
  destruct (N.eqb_spec c QUOTE) as [-> | Hq]; [reflexivity |].
  destruct (N.eqb_spec c BACKSLASH) as [-> | Hb]; [reflexivity |].
  assert (Hesc : (c < 65536)%N ->
                 parse_string_body (uescape c ++ tail)
                 = cons_unit c (parse_string_body tail)).
  { intros Hc. destruct (hex4_uescape c Hc) as (a & b & c' & d & -> & Hx).
    cbn [app parse_string_body]. change (BACKSLASH =? QUOTE)%N with false.
    change (BACKSLASH =? BACKSLASH)%N with true. change (117 =? 117)%N with true.
    cbv iota. by rewrite Hx. }
  destruct (N.ltb_spec c 32) as [Hlt | Hge]; [apply Hesc; lia |].
  destruct (is_high_surrogate c || is_low_surrogate c) eqn:Hs.
  - apply Hesc. unfold is_high_surrogate, is_low_surrogate in Hs. lia.
  - cbn [app parse_string_body].
    destruct (N.eqb_spec c QUOTE); [contradiction |].
    destruct (N.eqb_spec c BACKSLASH); [contradiction |].
    destruct (N.ltb_spec c 32); [lia | reflexivity].
Qed.

Lemma parse_raw_unit c tail :
  (55296 <= c)%N ->
  parse_string_body (c :: tail) = cons_unit c (parse_string_body tail).
Proof.
  intros Hc. cbn [parse_string_body]. unfold QUOTE, BACKSLASH.
  destruct (N.eqb_spec c 34); [lia |].
  destruct (N.eqb_spec c 92); [lia |].
  destruct (N.ltb_spec c 32); [lia | reflexivity].
Qed.

Lemma quote_body_cons c r :
  quote_body (c :: r)
  = match r with
    | d :: r' =>
        if is_high_surrogate c && is_low_surrogate d
        then c :: d :: quote_body r'
        else quote_unit c ++ quote_body r
    | [] => quote_unit c
    end.
Proof. destruct r; reflexivity. Qed.

(** The text of a string reads back as the string. *)
Lemma parse_quote_body s rest :
  parse_string_body (quote_body s ++ QUOTE :: rest) = Some (s, rest).
Proof.
  remember (length s) as n eqn:Hn. revert s Hn.
  induction n as [n IH] using lt_wf_ind. intros s Hn.
  destruct s as [| c r]; [reflexivity |].
  rewrite quote_body_cons. destruct r as [| d r'].
  - rewrite parse_quote_unit. reflexivity.
  - destruct (is_high_surrogate c && is_low_surrogate d) eqn:Hpair.
    + unfold is_high_surrogate, is_low_surrogate in Hpair.
      cbn [app]. rewrite parse_raw_unit by lia. rewrite parse_raw_unit by lia.
      rewrite (IH (length r') ltac:(subst n; cbn; lia) r' eq_refl).
      reflexivity.
    + rewrite <- app_assoc, parse_quote_unit.
      rewrite (IH (length (d :: r')) ltac:(subst n; cbn; lia) (d :: r') eq_refl).
      reflexivity.
Qed.

Lemma skip_ws_app ws s :
  forallb is_json_ws ws = true -> skip_ws (ws ++ s) = skip_ws s.
Proof.
  induction ws as [| c ws IH]; [reflexivity |]. cbn. intros Hws.
  apply andb_prop in Hws as [Hc Hws]. rewrite Hc. by apply IH.
Qed.

Lemma skip_ws_newline ind s :
  forallb is_json_ws ind = true -> skip_ws (LF :: ind ++ s) = skip_ws s.
Proof. intros Hind. apply (skip_ws_app (LF :: ind)). exact Hind. Qed.

Lemma skip_ws_stop c s : is_json_ws c = false -> skip_ws (c :: s) = c :: s.
Proof. intros Hc. unfold skip_ws. cbn. by rewrite Hc. Qed.

Lemma quote_cons s tail : quote s ++ tail = QUOTE :: quote_body s ++ QUOTE :: tail.
Proof. unfold quote. cbn [app]. by rewrite <- app_assoc. Qed.

Lemma parse_elements_S f s :
  parse_elements (num := num) (S f) s
  = ('(v, r) ← parse_value f s;
     match after 44 (skip_ws r) with
     | Some r' => '(vs, r'') ← parse_elements f r'; Some (v :: vs, r'')
     | None =>
         match after 93 (skip_ws r) with
         | Some r' => Some ([v], r')
         | None => None
         end
     end).
Proof. reflexivity. Qed.

Lemma parse_value_S f s :
  parse_value (num := num) (S f) s
  = match skip_ws s with
    | [] => None
    | c :: r =>
        if (c =? 123)%N then
          match after 125 (skip_ws r) with
          | Some r' => Some (JObj [], r')
          | None => '(ms, r') ← parse_members f r; Some (JObj (object_of_members ms), r')
          end
        else if (c =? 91)%N then
          match after 93 (skip_ws r) with
          | Some r' => Some (JArr [], r')
          | None => '(vs, r') ← parse_elements f r; Some (JArr vs, r')
          end
        else if (c =? QUOTE)%N then
          '(str, r') ← parse_string_body r; Some (JStr str, r')
        else if (c =? 116)%N then expect (js "true") (JBool true) (c :: r)
        else if (c =? 102)%N then expect (js "false") (JBool false) (c :: r)
        else if (c =? 110)%N then expect (js "null") JNull (c :: r)
        else '(lit, r') ← scan_number (c :: r); Some (JNum (num_of_literal lit), r')
    end.
Proof. reflexivity. Qed.

Lemma parse_members_S f s :
  parse_members (num := num) (S f) s
  = (r ← after QUOTE (skip_ws s);
     '(k, r1) ← parse_string_body r;
     r2 ← after COLON (skip_ws r1);
     '(v, r3) ← parse_value f r2;
     match after 44 (skip_ws r3) with
     | Some r4 => '(ms, r5) ← parse_members f r4; Some ((k, v) :: ms, r5)
     | None =>
         match after 125 (skip_ws r3) with
         | Some r4 => Some ([(k, v)], r4)
         | None => None
         end
     end).
Proof. reflexivity. Qed.

(** A string, after any white space, is read with any fuel. *)
Lemma parse_value_string f ws s tail :
  forallb is_json_ws ws = true ->
  parse_value (num := num) (S f) (ws ++ quote s ++ tail) = Some (JStr s, tail).
Proof.
  intros Hws. rewrite parse_value_S, skip_ws_app by assumption.
  rewrite quote_cons, skip_ws_stop by reflexivity.
  decide_units. by rewrite parse_quote_body.
Qed.

Lemma stringify_strings ind (ids : list jsstring) :
  map (stringify_at (num := num) ind) (map JStr ids) = map quote ids.
Proof. rewrite map_map. apply map_ext. reflexivity. Qed.

(** The elements of an array of strings, up to the closing bracket. *)
Lemma parse_elements_strings ids : forall id f ws ind ind' rest,
  forallb is_json_ws ws = true ->
  forallb is_json_ws ind = true ->
  forallb is_json_ws ind' = true ->
  (length ids + 1 < f)%nat ->
  parse_elements (num := num) f
    (ws ++ join ([44%N; LF] ++ ind') (map quote (id :: ids))
        ++ [LF] ++ ind ++ [93%N] ++ rest)
  = Some (map JStr (id :: ids), rest).
Proof.
  induction ids as [| id2 ids IH]; intros id f ws ind ind' rest Hws Hind Hind' Hf.
  - destruct f as [| [| f]]; [cbn in Hf; lia | cbn in Hf; lia |].
    cbn [map join]. rewrite parse_elements_S.
    rewrite parse_value_string by assumption. cbn [mbind option_bind].
    change ([LF] ++ ind ++ [93%N] ++ rest) with (LF :: (ind ++ 93%N :: rest)).
    rewrite skip_ws_newline by assumption.
    rewrite skip_ws_stop by reflexivity. decide_units. reflexivity.
  - destruct f as [| [| f]]; [cbn in Hf; lia | cbn in Hf; lia |].
    change (join ([44%N; LF] ++ ind') (map quote (id :: id2 :: ids)))
      with (quote id ++ ([44%N; LF] ++ ind')
            ++ join ([44%N; LF] ++ ind') (map quote (id2 :: ids))).
    rewrite <- !app_assoc.
    rewrite parse_elements_S.
    rewrite parse_value_string by assumption. cbn [mbind option_bind].
    cbn [app]. rewrite skip_ws_stop by reflexivity. decide_units.
    specialize (IH id2 (S f) (LF :: ind') ind ind' rest).
    cbn [app] in IH.
    rewrite IH; [reflexivity | cbn; assumption | assumption | assumption | cbn in Hf |- *; lia].
Qed.

Lemma length_join_quotes sep (ids : list jsstring) :
  (length ids <= length (join sep (map quote ids)))%nat.
Proof.
  induction ids as [| id [| id2 ids] IH]; [cbn; lia | cbn; lia |].
  change (join sep (map quote (id :: id2 :: ids)))
    with (quote id ++ sep ++ join sep (map quote (id2 :: ids))).
  rewrite !length_app. unfold quote at 1. cbn [length] in IH |- *. lia.
Qed.

(** An array of strings, after any white space. *)
Lemma parse_value_string_array f ws ind (ids : list jsstring) rest :
  forallb is_json_ws ws = true ->
  forallb is_json_ws ind = true ->
  (length ids + 2 < f)%nat ->
  parse_value (num := num) f (ws ++ stringify_at ind (JArr (map JStr ids)) ++ rest)
  = Some (JArr (map JStr ids), rest).
Proof.
  intros Hws Hind Hf. destruct f as [| f]; [lia |].
  destruct ids as [| id ids].
  - cbn [map stringify_at]. rewrite parse_value_S, skip_ws_app by assumption.
    reflexivity.
  - assert (Hind' : forallb is_json_ws (ind ++ INDENT) = true).
    { rewrite forallb_app, Hind. reflexivity. }
    change (stringify_at ind (JArr (map JStr (id :: ids))))
      with ([91%N; LF] ++ (ind ++ INDENT)
            ++ join ([44%N; LF] ++ (ind ++ INDENT))
                 (map (stringify_at (ind ++ INDENT)) (map JStr (id :: ids)))
            ++ [LF] ++ ind ++ [93%N]).
    rewrite stringify_strings.
    remember (ind ++ INDENT) as ind' eqn:Ei.
    pose proof (parse_elements_strings ids id f (LF :: ind') ind ind' rest) as He.
    remember (join ([44%N; LF] ++ ind') (map quote (id :: ids))) as body eqn:Eb.
    assert (Hbody : exists tl, body = QUOTE :: tl).
    { subst body. destruct ids; cbn [map join]; rewrite ?quote_cons; eauto. }
    rewrite parse_value_S, skip_ws_app by assumption.
    right_nest. right_nest_in He.
    rewrite skip_ws_stop by reflexivity. decide_units.
    rewrite skip_ws_newline by assumption.
    destruct Hbody as [tl Etl]. rewrite Etl at 1. cbn [app].
    rewrite skip_ws_stop by reflexivity. decide_units.
    rewrite He; [reflexivity | cbn; assumption | assumption | assumption | cbn in Hf |- *; lia].
Qed.

Lemma length_string_array ind (ids : list jsstring) :
  (length ids <= length (stringify_at (num := num) ind (JArr (map JStr ids))))%nat.
Proof.
  destruct ids as [| id ids]; [cbn; lia |].
  change (stringify_at ind (JArr (map JStr (id :: ids))))
    with ([91%N; LF] ++ (ind ++ INDENT)
          ++ join ([44%N; LF] ++ (ind ++ INDENT))
               (map (stringify_at (ind ++ INDENT)) (map JStr (id :: ids)))
          ++ [LF] ++ ind ++ [93%N]).
  rewrite stringify_strings, !length_app.
  pose proof (length_join_quotes ([44%N; LF] ++ ind ++ INDENT) (id :: ids)). lia.
Qed.

Lemma skip_ws_first_indent s : skip_ws (LF :: 32%N :: 32%N :: s) = skip_ws s.
Proof. reflexivity. Qed.

(** The file of a state reads back as the state. *)
Lemma parse_seen_state ids :
  JSON_parse (JSON_stringify (seen_state ids)) = Some (seen_state ids).
Proof.
  unfold JSON_parse, JSON_stringify, seen_state.
  set (arr := JArr (map JStr ids)).
  assert (Etext : stringify_at [] (JObj [(EventAlerts.SEEN_IDS, arr)])
                  = [123%N; LF; 32%N; 32%N] ++ quote EventAlerts.SEEN_IDS
                    ++ [COLON; 32%N] ++ stringify_at INDENT arr ++ [LF; 125%N]).
  { cbn [stringify_at map join fst snd app]. unfold INDENT. cbn [app].
    rewrite <- !app_assoc. reflexivity. }
  rewrite Etext. clear Etext.
  set (text := [123%N; LF; 32%N; 32%N] ++ _).
  assert (Hlen : (length ids + 4 < length text)%nat).
  { subst text. rewrite !length_app.
    pose proof (length_string_array INDENT ids). fold arr in H0. cbn [length]. lia. }
  destruct (length text) as [| fuel] eqn:Efuel; [lia |].
  subst text. rewrite parse_value_S. cbn [app].
  rewrite skip_ws_stop by reflexivity. decide_units.
  rewrite skip_ws_first_indent.
  rewrite quote_cons, skip_ws_stop by reflexivity. decide_units.
  rewrite parse_members_S.
  rewrite skip_ws_first_indent.
  rewrite skip_ws_stop by reflexivity. decide_units.
  cbn [mbind option_bind]. rewrite parse_quote_body. cbn [mbind option_bind app].
  rewrite skip_ws_stop by reflexivity. decide_units. cbn [mbind option_bind].
  pose proof (parse_value_string_array fuel [32%N] INDENT ids [LF; 125%N]
                eq_refl eq_refl ltac:(lia)) as Hv.
  cbn [app] in Hv. fold arr in Hv.
  rewrite Hv. reflexivity.
Qed.

(** *** The fuel of the parser is no limit

    A parse that succeeds with some fuel consumes at least one code unit
    and succeeds, with the same result, with any fuel that is at least the
    number of code units it consumes. *)

Lemma drop_while_length f s : (length (drop_while f s) <= length s)%nat.
Proof.
  induction s as [| c s IH]; cbn; [lia |]. destruct (f c); cbn; lia.
Qed.

Lemma skip_ws_length s : (length (skip_ws s) <= length s)%nat.
Proof. apply drop_while_length. Qed.

Lemma skip_ws_cons_length s c r :
  skip_ws s = c :: r -> (length r < length s)%nat.
Proof. intros E. pose proof (skip_ws_length s) as Hl. rewrite E in Hl. cbn in Hl. lia. Qed.

Lemma cons_unit_Some c x str r :
  cons_unit c x = Some (str, r) -> exists str', x = Some (str', r) /\ str = c :: str'.
Proof.
  unfold cons_unit. destruct x as [[str' r'] |]; [| discriminate].
  intros [= <- <-]. eauto.
Qed.

Lemma parse_string_body_length s : forall str r,
  parse_string_body s = Some (str, r) -> (length r < length s)%nat.
Proof.
  remember (length s) as n eqn:Hn. revert s Hn.
  induction n as [n IH] using lt_wf_ind. intros s Hn str r.
  destruct s as [| c t]; [discriminate |]. cbn [parse_string_body].
  destruct (c =? QUOTE)%N; [intros [= <- <-]; rewrite Hn; cbn; lia |].
  destruct (c =? BACKSLASH)%N.
  - destruct t as [| e r1]; [discriminate |].
    destruct (e =? 117)%N.
    + destruct r1 as [| a [| b [| c' [| d r2]]]]; try discriminate.
      destruct (hex4 a b c' d); [| discriminate].
      intros Hc. apply cons_unit_Some in Hc as (str' & Hc & _).
      apply (IH (length r2)) in Hc; [| subst n; cbn; lia | reflexivity].
      rewrite Hn. cbn. lia.
    + destruct (simple_escape e); [| discriminate].
      intros Hc. apply cons_unit_Some in Hc as (str' & Hc & _).
      apply (IH (length r1)) in Hc; [| subst n; cbn; lia | reflexivity].
      rewrite Hn. cbn. lia.
  - destruct (c <? 32)%N; [discriminate |].
    intros Hc. apply cons_unit_Some in Hc as (str' & Hc & _).
    apply (IH (length t)) in Hc; [| subst n; cbn; lia | reflexivity].
    rewrite Hn. cbn. lia.
Qed.

Lemma digits1_length s ds r : digits1 s = Some (ds, r) -> (length r <= length s)%nat.
Proof.
  unfold digits1. destruct (take_while is_digit s); [discriminate |].
  intros [= _ <-]. apply drop_while_length.
Qed.

Lemma after_length ch s r : after ch s = Some r -> length s = S (length r).
Proof.
  destruct s as [| c t]; [discriminate |]. cbn.
  destruct (c =? ch)%N; [| discriminate]. by intros [= <-].
Qed.

Lemma scan_int_length s ip r : scan_int s = Some (ip, r) -> (length r < length s)%nat.
Proof.
  destruct s as [| c t]; [discriminate |]. cbn.
  destruct (c =? 48)%N; [intros [= _ <-]; lia |].
  destruct (is_digit c); [| discriminate].
  intros [= _ <-]. pose proof (drop_while_length is_digit t). lia.
Qed.

Lemma scan_fraction_length s fp r :
  scan_fraction s = Some (fp, r) -> (length r <= length s)%nat.
Proof.
  unfold scan_fraction. destruct (after 46 s) as [t |] eqn:E.
  - apply after_length in E. destruct (digits1 t) as [[ds r'] |] eqn:Ed; [| discriminate].
    cbn. intros [= _ <-]. apply digits1_length in Ed. lia.
  - intros [= _ <-]. lia.
Qed.

Lemma scan_sign_length s : (length (snd (scan_sign s)) <= length s)%nat.
Proof.
  unfold scan_sign. destruct (after 43 s) as [t |] eqn:E.
  - apply after_length in E. cbn. lia.
  - destruct (after 45 s) as [t |] eqn:E'; cbn; [| lia].
    apply after_length in E'. lia.
Qed.

Lemma scan_exponent_length s ep r :
  scan_exponent s = Some (ep, r) -> (length r <= length s)%nat.
Proof.
  destruct s as [| e t]; cbn; [intros [= _ <-]; cbn; lia |].
  destruct ((e =? 101) || (e =? 69))%N; [| intros [= _ <-]; cbn; lia].
  pose proof (scan_sign_length t) as Hs. destruct (scan_sign t) as [sg r1].
  destruct (digits1 r1) as [[ds r2] |] eqn:Ed; [| discriminate].
  cbn in *. intros [= _ <-]. apply digits1_length in Ed. lia.
Qed.

Lemma scan_number_length s lit r :
  scan_number s = Some (lit, r) -> (length r < length s)%nat.
Proof.
  unfold scan_number.
  assert (Hgen : forall sign s1,
             (length s1 <= length s)%nat ->
             ('(ip, s2) ← scan_int s1;
              '(fp, s3) ← scan_fraction s2;
              '(ep, s4) ← scan_exponent s3;
              Some (sign ++ ip ++ fp ++ ep, s4)) = Some (lit, r) ->
             (length r < length s)%nat).
  { intros sign s1 Hs1.
    destruct (scan_int s1) as [[ip s2] |] eqn:Ei; [| discriminate].
    apply scan_int_length in Ei. cbn [mbind option_bind].
    destruct (scan_fraction s2) as [[fp s3] |] eqn:Ef; [| discriminate].
    apply scan_fraction_length in Ef. cbn [mbind option_bind].
    destruct (scan_exponent s3) as [[ep s4] |] eqn:Ee; [| discriminate].
    apply scan_exponent_length in Ee. cbn [mbind option_bind].
    intros [= _ <-]. lia. }
  destruct (after 45 s) as [t |] eqn:E.
  - apply after_length in E. apply Hgen. lia.
  - apply Hgen. lia.
Qed.

Lemma starts_with_length p s :
  starts_with p s = true -> (length p <= length s)%nat.
Proof.
  revert s. induction p as [| a p IH]; intros s; cbn; [lia |].
  destruct s as [| b s]; [discriminate |].
  intros Hs. apply andb_prop in Hs as [_ Hs]. apply IH in Hs. cbn. lia.
Qed.

Lemma expect_length lit (v v' : json num) s r :
  (0 < length lit)%nat ->
  expect lit v s = Some (v', r) -> (length r < length s)%nat.
Proof.
  unfold expect. intros Hlit. destruct (starts_with lit s) eqn:E; [| discriminate].
  apply starts_with_length in E. intros [= _ <-]. rewrite length_drop. lia.
Qed.

Lemma parse_fuel f :
  (forall s v r,
      parse_value (num := num) f s = Some (v, r) ->
      (length r < length s)%nat
      /\ forall f', (length s - length r <= f')%nat -> parse_value f' s = Some (v, r))
  /\ (forall s vs r,
        parse_elements (num := num) f s = Some (vs, r) ->
        (length r < length s)%nat
        /\ forall f', (length s - length r <= f')%nat ->
                      parse_elements f' s = Some (vs, r))
  /\ (forall s ms r,
        parse_members (num := num) f s = Some (ms, r) ->
        (length r < length s)%nat
        /\ forall f', (length s - length r <= f')%nat ->
                      parse_members f' s = Some (ms, r)).
Proof.
  induction f as [| g (IHv & IHe & IHm)]; [repeat split; discriminate |].
  split; [| split].
  - intros s v r. rewrite parse_value_S.
    destruct (skip_ws s) as [| c t] eqn:Es; [discriminate |].
    pose proof (skip_ws_cons_length _ _ _ Es) as Ht.
    pose proof (skip_ws_length t) as Hst.
    destruct (c =? 123)%N eqn:E123; [| destruct (c =? 91)%N eqn:E91].
    + destruct (after 125 (skip_ws t)) as [r' |] eqn:Ea.
      * intros [= <- <-]. apply after_length in Ea as Hl. split; [lia |].
        intros [| g'] Hf'; [lia |]. by rewrite parse_value_S, Es, E123, Ea.
      * destruct (parse_members g t) as [[ms r'] |] eqn:Em; [| discriminate].
        intros [= <- <-]. destruct (IHm _ _ _ Em) as [Hl Hf]. split; [lia |].
        intros [| g'] Hf'; [lia |].
        rewrite parse_value_S, Es, E123, Ea, (Hf g') by lia. reflexivity.
    + destruct (after 93 (skip_ws t)) as [r' |] eqn:Ea.
      * intros [= <- <-]. apply after_length in Ea as Hl. split; [lia |].
        intros [| g'] Hf'; [lia |]. by rewrite parse_value_S, Es, E123, E91, Ea.
      * destruct (parse_elements g t) as [[vs r'] |] eqn:Em; [| discriminate].
        intros [= <- <-]. destruct (IHe _ _ _ Em) as [Hl Hf]. split; [lia |].
        intros [| g'] Hf'; [lia |].
        rewrite parse_value_S, Es, E123, E91, Ea, (Hf g') by lia. reflexivity.
    + intros Hleaf.
      assert (Hlen : (length r < length (c :: t))%nat).
      { destruct (c =? QUOTE)%N.
        - destruct (parse_string_body t) as [[str r'] |] eqn:Eb; [| discriminate].
          injection Hleaf as _ <-. apply parse_string_body_length in Eb. cbn. lia.
        - destruct (c =? 116)%N; [apply expect_length in Hleaf; [exact Hleaf | cbn; lia] |].
          destruct (c =? 102)%N; [apply expect_length in Hleaf; [exact Hleaf | cbn; lia] |].
          destruct (c =? 110)%N; [apply expect_length in Hleaf; [exact Hleaf | cbn; lia] |].
          destruct (scan_number (c :: t)) as [[lit r'] |] eqn:En; [| discriminate].
          injection Hleaf as _ <-. by apply scan_number_length in En. }
      cbn in Hlen. split; [lia |].
      intros [| g'] Hf'; [lia |]. by rewrite parse_value_S, Es, E123, E91.
  - intros s vs r. rewrite parse_elements_S.
    destruct (parse_value g s) as [[v r1] |] eqn:Ev; [| discriminate].
    destruct (IHv _ _ _ Ev) as [Hl1 Hf1]. cbn [mbind option_bind].
    pose proof (skip_ws_length r1) as Hs1.
    destruct (after 44 (skip_ws r1)) as [r2 |] eqn:Ec.
    + apply after_length in Ec as Hl2.
      destruct (parse_elements g r2) as [[vs' r3] |] eqn:Ee; [| discriminate].
      intros [= <- <-]. destruct (IHe _ _ _ Ee) as [Hl3 Hf3]. split; [lia |].
      intros [| g'] Hf'; [lia |].
      rewrite parse_elements_S, (Hf1 g') by lia. cbn [mbind option_bind].
      rewrite Ec, (Hf3 g') by lia. reflexivity.
    + destruct (after 93 (skip_ws r1)) as [r2 |] eqn:Eb; [| discriminate].
      apply after_length in Eb as Hl2. intros [= <- <-]. split; [lia |].
      intros [| g'] Hf'; [lia |].
      rewrite parse_elements_S, (Hf1 g') by lia. cbn [mbind option_bind].
      by rewrite Ec, Eb.
  - intros s ms r. rewrite parse_members_S.
    pose proof (skip_ws_length s) as Hs0.
    destruct (after QUOTE (skip_ws s)) as [t |] eqn:Eq; [| discriminate].
    apply after_length in Eq as Hl0. cbn [mbind option_bind].
    destruct (parse_string_body t) as [[k r1] |] eqn:Ek; [| discriminate].
    apply parse_string_body_length in Ek as Hl1. cbn [mbind option_bind].
    pose proof (skip_ws_length r1) as Hs1.
    destruct (after COLON (skip_ws r1)) as [r2 |] eqn:Ec; [| discriminate].
    apply after_length in Ec as Hl2. cbn [mbind option_bind].
    destruct (parse_value g r2) as [[v r3] |] eqn:Ev; [| discriminate].
    destruct (IHv _ _ _ Ev) as [Hl3 Hf3]. cbn [mbind option_bind].
    pose proof (skip_ws_length r3) as Hs3.
    destruct (after 44 (skip_ws r3)) as [r4 |] eqn:Em.
    + apply after_length in Em as Hl4.
      destruct (parse_members g r4) as [[ms' r5] |] eqn:Emm; [| discriminate].
      intros [= <- <-]. destruct (IHm _ _ _ Emm) as [Hl5 Hf5]. split; [lia |].
      intros [| g'] Hf'; [lia |].
      rewrite parse_members_S, Eq. cbn [mbind option_bind]. rewrite Ek.
      cbn [mbind option_bind]. rewrite Ec. cbn [mbind option_bind].
      rewrite (Hf3 g') by lia. cbn [mbind option_bind].
      rewrite Em, (Hf5 g') by lia. reflexivity.
    + destruct (after 125 (skip_ws r3)) as [r4 |] eqn:Eb; [| discriminate].
      apply after_length in Eb as Hl4. intros [= <- <-]. split; [lia |].
      intros [| g'] Hf'; [lia |].
      rewrite parse_members_S, Eq. cbn [mbind option_bind]. rewrite Ek.
      cbn [mbind option_bind]. rewrite Ec. cbn [mbind option_bind].
      rewrite (Hf3 g') by lia. cbn [mbind option_bind].
      by rewrite Em, Eb.
Qed.

(** Whatever some fuel parses, the fuel of [JSON_parse] parses: a text
    that [JSON_parse] rejects is rejected with every fuel. *)
Lemma JSON_parse_fuel text fuel v r :
  parse_value (num := num) fuel text = Some (v, r) ->
  parse_value (S (length text)) text = Some (v, r).
Proof.
  intros Hp. destruct (parse_fuel fuel) as (Hv & _ & _).
  destruct (Hv _ _ _ Hp) as [_ Hf]. apply Hf. lia.
Qed.

Lemma JSON_parse_None_any_fuel text fuel v r :
  JSON_parse (num := num) text = None ->
  parse_value fuel text = Some (v, r) ->
  skip_ws r <> [].
Proof.
  unfold JSON_parse. intros Hbad Hp. rewrite (JSON_parse_fuel _ _ _ _ Hp) in Hbad.
  by destruct (skip_ws r).
Qed.

End JsonFacts.

(** ** The event pipeline *)
Section Events.
Import JS EventAlerts.
Context {num : Type} `{Number num}.
Variable intl : Intl.

Lemma send_each_deliveries env events w :
  send_each env events w
  = (if snd (deliveries env (outbox w) events) then Some tt else None,
     {| cache_file := cache_file w;
        outbox := outbox w ++ fst (deliveries env (outbox w) events) |}).
Proof.
  revert w. induction events as [| e rest IH]; intros [file ob]; cbn.
  - by rewrite app_nil_r.
  - unfold bind, sendEmail. cbn.
    destruct (transport env ob (email_of env e)); cbn.
    + rewrite IH. cbn.
      destruct (deliveries env (ob ++ [email_of env e]) rest) as [ms ok]. cbn.
      by rewrite <- app_assoc.
    + by rewrite app_nil_r.
Qed.

Lemma deliveries_all env ob events :
  snd (deliveries env ob events) = true ->
  fst (deliveries env ob events) = map (email_of env) events.
Proof.
  revert ob. induction events as [| e rest IH]; intros ob; cbn; [reflexivity |].
  destruct (transport env ob (email_of env e)); [| discriminate].
  specialize (IH (ob ++ [email_of env e])).
  destruct (deliveries env (ob ++ [email_of env e]) rest) as [ms ok]. cbn in *.
  intros Hok. by rewrite IH.
Qed.

(** The result of the body of [main], step by step. *)
Lemma main_try_unfold env w :
  main_try intl env w
  = match feed env with
    | None => (None, w)
    | Some icalText =>
        let events := parseFeed intl (today env) (clock env) icalText in
        let cache := loadCache (cache_file w) in
        match seen_at_start (cache_file w) with
        | None => (None, w)
        | Some seenIds =>
            let newEvents := List.filter (is_new seenIds) events in
            let '(ms, ok) := deliveries env (outbox w) (take 10 newEvents) in
            let w1 := {| cache_file := cache_file w; outbox := outbox w ++ ms |} in
            if ok then
              match set_prop cache SEEN_IDS (JArr (mark_seen seenIds newEvents)) with
              | Some cache' =>
                  (Some tt, {| cache_file := saveCache cache'; outbox := outbox w ++ ms |})
              | None => (None, w1)
              end
            else (None, w1)
        end
    end.
Proof.
  unfold main_try, fetchEvents, bind, lift, ret, seen_at_start.
  destruct (feed env) as [icalText |]; [| reflexivity]. cbn.
  destruct (get_prop (loadCache (cache_file w)) SEEN_IDS) as [seen |]; [| reflexivity].
  cbn. destruct (Set_new seen) as [seenIds |]; [| reflexivity].
  rewrite send_each_deliveries.
  destruct (deliveries env (outbox w) _) as [ms ok]. cbn.
  destruct ok; [| reflexivity].
  destruct (set_prop _ _ _); reflexivity.
Qed.

(** *** Sets and objects *)

Lemma same_value_zero_str a (y : json num) :
  same_value_zero (JStr a) y = true <-> y = JStr a.
Proof.
  destruct y; cbn; try (split; [discriminate | discriminate]).
  unfold str_eqb. rewrite bool_decide_eq_true. split; congruence.
Qed.

Lemma set_has_str (s : list (json num)) a :
  set_has s (JStr a) = true <-> JStr a ∈ s.
Proof.
  unfold set_has. rewrite existsb_exists. split.
  - intros (y & Hin & Hy). apply same_value_zero_str in Hy as ->.
    by apply list_elem_of_In.
  - intros Hin. exists (JStr a). split; [by apply list_elem_of_In |].
    by apply same_value_zero_str.
Qed.

Lemma set_add_str (s : list (json num)) a :
  (JStr a ∈ s /\ set_add s (JStr a) = s)
  \/ ((JStr a ∉ s) /\ set_add s (JStr a) = s ++ [JStr a]).
Proof.
  unfold set_add. destruct (set_has s (JStr a)) eqn:E.
  - left. split; [by apply set_has_str | reflexivity].
  - right. split; [| reflexivity].
    intros Hin. apply set_has_str in Hin. congruence.
Qed.

Lemma mark_seen_cons seen e new :
  mark_seen seen (e :: new) = mark_seen (set_add seen (JStr (id e))) new.
Proof. reflexivity. Qed.

(** Marking events as seen only appends to the seen-set. *)
Lemma mark_seen_prefix new : forall seen,
  exists added, mark_seen (num := num) seen new = seen ++ added.
Proof.
  induction new as [| e new IH]; intros seen.
  - exists []. by rewrite app_nil_r.
  - rewrite mark_seen_cons.
    destruct (set_add_str seen (id e)) as [[_ ->] | [_ ->]].
    + apply IH.
    + destruct (IH (seen ++ [JStr (id e)])) as [added ->].
      exists (JStr (id e) :: added). by rewrite <- app_assoc.
Qed.

Lemma mark_seen_keeps new seen (x : json num) :
  x ∈ seen -> x ∈ mark_seen seen new.
Proof.
  intros Hx. destruct (mark_seen_prefix new seen) as [added ->].
  apply elem_of_app. by left.
Qed.

(** Every event marked is in the seen-set afterwards. *)
Lemma mark_seen_contains new : forall (seen : list (json num)) e,
  e ∈ new -> JStr (id e) ∈ mark_seen seen new.
Proof.
  induction new as [| e' new IH]; intros seen e Hin.
  - by apply elem_of_nil in Hin.
  - rewrite mark_seen_cons. apply elem_of_cons in Hin as [-> | Hin].
    + apply mark_seen_keeps.
      destruct (set_add_str seen (id e')) as [[Hin ->] | [_ ->]]; [assumption |].
      apply elem_of_app. right. apply list_elem_of_singleton. reflexivity.
    + by apply IH.
Qed.

(** Nothing else enters the seen-set. *)
Lemma mark_seen_elem new : forall (seen : list (json num)) x,
  x ∈ mark_seen seen new -> x ∈ seen \/ exists e, e ∈ new /\ x = JStr (id e).
Proof.
  induction new as [| e' new IH]; intros seen x Hx; [by left |].
  rewrite mark_seen_cons in Hx. apply IH in Hx as [Hx | (e & He & ->)].
  - destruct (set_add_str seen (id e')) as [[_ E] | [_ E]]; rewrite E in Hx;
      [by left |].
    apply elem_of_app in Hx as [Hx | Hx]; [by left |].
    apply list_elem_of_singleton in Hx as ->. right. exists e'. split; [left | reflexivity].
  - right. exists e. split; [by right | reflexivity].
Qed.

Lemma str_eqb_refl k : str_eqb k k = true.
Proof. unfold str_eqb. by apply bool_decide_eq_true_2. Qed.

Lemma obj_get_replace (o : object (num := num)) k v x :
  obj_get o k = Some x -> obj_get (obj_replace o k v) k = Some v.
Proof.
  induction o as [| [k' v'] o IH]; cbn; [discriminate |].
  destruct (str_eqb k' k) eqn:E; cbn; rewrite E; [reflexivity | assumption].
Qed.

Lemma obj_get_insert_index (o : object (num := num)) i k v :
  obj_get o k = None -> obj_get (obj_insert_index o i k v) k = Some v.
Proof.
  induction o as [| [k' v'] o IH]; cbn.
  - by rewrite str_eqb_refl.
  - destruct (str_eqb k' k) eqn:E; [discriminate |]. intros Hnone.
    destruct (array_index k') as [j |]; [destruct (j <? i)%N |];
      cbn; rewrite ?E, ?str_eqb_refl; auto.
Qed.

Lemma obj_get_app_new (o : object (num := num)) k v :
  obj_get o k = None -> obj_get (o ++ [(k, v)]) k = Some v.
Proof.
  induction o as [| [k' v'] o IH]; cbn.
  - by rewrite str_eqb_refl.
  - destruct (str_eqb k' k); [discriminate | assumption].
Qed.

(** A property that was just set reads back. *)
Lemma obj_get_set (o : object (num := num)) k v :
  obj_get (obj_set o k v) k = Some v.
Proof.
  unfold obj_set. destruct (obj_get o k) as [x |] eqn:E.
  - by apply (obj_get_replace o k v x).
  - destruct (array_index k); [by apply obj_get_insert_index | by apply obj_get_app_new].
Qed.

(** *** Runs *)

Lemma main_exit_code env w :
  fst (main intl env w) = 0 \/ fst (main intl env w) = 1.
Proof. unfold main. destruct (main_try intl env w) as [[[] |] w']; auto. Qed.

(** A run that does not end with exit code 0 leaves the cache file as it
    found it. *)
Lemma main_failed_keeps_file env w :
  fst (main intl env w) <> 0 ->
  cache_file (snd (main intl env w)) = cache_file w.
Proof.
  unfold main. rewrite main_try_unfold.
  destruct (feed env); [| reflexivity]. cbn zeta.
  destruct (seen_at_start (cache_file w)); [| reflexivity].
  destruct (deliveries env (outbox w) _) as [ms [|]]; [| reflexivity].
  destruct (set_prop _ _ _); [| reflexivity].
  cbn. congruence.
Qed.

(** What a run that ends with exit code 0 has done. *)
Lemma main_success env w w' :
  main intl env w = (0, w') ->
  exists icalText seenIds cache',
    feed env = Some icalText
    /\ seen_at_start (cache_file w) = Some seenIds
    /\ let newEvents :=
         List.filter (is_new seenIds)
                     (parseFeed intl (today env) (clock env) icalText) in
       set_prop (loadCache (cache_file w)) SEEN_IDS (JArr (mark_seen seenIds newEvents))
       = Some cache'
       /\ w' = {| cache_file := saveCache cache';
                  outbox := outbox w ++ map (email_of env) (take 10 newEvents) |}.
Proof.
  unfold main. rewrite main_try_unfold.
  destruct (feed env) as [icalText |]; [| discriminate]. cbn zeta.
  destruct (seen_at_start (cache_file w)) as [seenIds |]; [| discriminate].
  pose proof (deliveries_all env (outbox w)
                (take 10 (List.filter (is_new seenIds)
                            (parseFeed intl (today env) (clock env) icalText)))) as Hall.
  destruct (deliveries env (outbox w) _) as [ms [|]]; [| discriminate].
  destruct (set_prop _ _ _) as [cache' |] eqn:Eset; [| discriminate].
  intros [= <-]. exists icalText, seenIds, cache'.
  cbn in Hall. rewrite Hall by reflexivity. repeat split; assumption.
Qed.

(** These are all the ways: a run ends with exit code 1 only if one of
    them happens. *)
Lemma main_exit_1_run_fails env w :
  fst (main intl env w) = 1 -> run_fails intl env w.
Proof.
  unfold main, run_fails, new_events, events_of. rewrite main_try_unfold.
  destruct (feed env) as [icalText |]; [| by left]. cbn.
  destruct (seen_at_start (cache_file w)) as [seenIds |]; [| by right; left].
  cbn. destruct (deliveries env (outbox w) _) as [ms [|]] eqn:Ed.
  - destruct (set_prop _ _ _) eqn:Es; [discriminate |].
    intros _. right. right. right. eauto.
  - intros _. right. right. left. eexists. split; [reflexivity |]. by rewrite Ed.
Qed.

(** C7. A run in which the fetch, the reading of the cached value, a
    delivery or the update of the cached value fails ends with exit code 1
    and leaves the cache file as it was. *)
Theorem C7_failed_run_keeps_cache (env : Env) (w : World) :
  run_fails intl env w ->
  fst (main intl env w) = 1
  /\ cache_file (snd (main intl env w)) = cache_file w.
Proof.
  intros Hfail.
  assert (Hexit : fst (main intl env w) = 1).
  { unfold main. rewrite main_try_unfold.
    destruct Hfail as [Hfeed | [Hseen | [(new & Hnew & Hrefused)
                                        | (seenIds & new & Hseen & Hnew & Hset)]]].
    - by rewrite Hfeed.
    - destruct (feed env); [| reflexivity]. cbn zeta. by rewrite Hseen.
    - unfold new_events, events_of in Hnew.
      destruct (feed env) as [icalText |]; [| discriminate]. cbn in Hnew |- *.
      destruct (seen_at_start (cache_file w)) as [seenIds |]; [| discriminate].
      cbn in Hnew. injection Hnew as <-.
      destruct (deliveries env (outbox w) _) as [ms ok]. cbn in Hrefused. subst ok.
      reflexivity.
    - unfold new_events, events_of in Hnew. rewrite Hseen in Hnew |- *.
      destruct (feed env) as [icalText |]; [| reflexivity]. cbn in Hnew |- *.
      injection Hnew as <-.
      destruct (deliveries env (outbox w) _) as [ms [|]]; [| reflexivity].
      by rewrite Hset. }
  split; [exact Hexit |]. apply main_failed_keeps_file. rewrite Hexit. discriminate.
Qed.

(** C8. Without a cache file, or with one that [JSON.parse] rejects,
    [loadCache] returns the object whose [seenIds] is the empty array; the
    seen-set built from it is empty, so every event of the feed is new. *)
Theorem C8_missing_or_corrupt_cache_is_empty (text : jsstring) :
  JSON_parse (num := num) text = None ->
  loadCache None = empty_cache
  /\ loadCache (Some text) = empty_cache
  /\ seen_at_start None = Some []
  /\ seen_at_start (Some text) = Some []
  /\ forall env ob,
       new_events intl env {| cache_file := Some text; outbox := ob |} = events_of intl env.
Proof.
  intros Hbad.
  assert (Hload : loadCache (Some text) = empty_cache).
  { unfold loadCache. by rewrite Hbad. }
  assert (Hseen : seen_at_start (Some text) = Some []).
  { unfold seen_at_start. rewrite Hload. reflexivity. }
  repeat split; try assumption; try reflexivity.
  intros env ob. unfold new_events. cbn [cache_file]. rewrite Hseen.
  destruct (events_of intl env) as [events |]; [| reflexivity]. cbn.
  f_equal. induction events as [| e events IH]; [reflexivity |].
  cbn. by rewrite IH.
Qed.

(** *** The state file across runs *)

Lemma load_saved_state ids :
  loadCache (saveCache (seen_state ids)) = seen_state (num := num) ids.
Proof. unfold loadCache, saveCache. by rewrite parse_seen_state. Qed.

Lemma elem_of_JStr_map a (l : list jsstring) :
  JStr (num := num) a ∈ map JStr l <-> a ∈ l.
Proof.
  rewrite !list_elem_of_In, in_map_iff. split.
  - by intros (x & [= ->] & Hx).
  - intros Ha. by exists a.
Qed.

(** A set built from strings holds strings, the same ones. *)
Lemma set_add_all_strings (ids : list jsstring) : forall acc,
  exists l, set_add_all (num := num) (map JStr acc) (map JStr ids) = map JStr l
            /\ forall x, x ∈ l <-> x ∈ acc \/ x ∈ ids.
Proof.
  induction ids as [| a ids IH]; intros acc.
  - exists acc. split; [reflexivity |]. intros x. rewrite elem_of_nil. tauto.
  - cbn [map set_add_all fold_left].
    destruct (set_add_str (map JStr acc) a) as [[Hin ->] | [Hnin ->]].
    + destruct (IH acc) as (l & El & Hl). exists l. split; [exact El |].
      intros x. rewrite Hl, elem_of_cons. apply elem_of_JStr_map in Hin.
      split; [tauto | intros [? | [-> | ?]]; tauto].
    + change [JStr a] with (map (JStr (num := num)) [a]). rewrite <- map_app.
      destruct (IH (acc ++ [a])) as (l & El & Hl). exists l. split; [exact El |].
      intros x. rewrite Hl, elem_of_app, !elem_of_cons, elem_of_nil. tauto.
Qed.

Lemma mark_seen_strings (new : list Event) : forall acc,
  exists l, mark_seen (num := num) (map JStr acc) new = map JStr l
            /\ forall x, x ∈ l <-> x ∈ acc \/ exists e, e ∈ new /\ id e = x.
Proof.
  induction new as [| e new IH]; intros acc.
  - exists acc. split; [reflexivity |]. intros x. split; [tauto |].
    intros [? | (e & He & _)]; [assumption | by apply elem_of_nil in He].
  - rewrite mark_seen_cons.
    destruct (set_add_str (map JStr acc) (id e)) as [[Hin ->] | [Hnin ->]].
    + destruct (IH acc) as (l & El & Hl). exists l. split; [exact El |].
      intros x. rewrite Hl. apply elem_of_JStr_map in Hin. split.
      * intros [? | (e' & He' & <-)]; [by left |]. right. exists e'. split; [by right | reflexivity].
      * intros [? | (e' & He' & <-)]; [by left |].
        apply elem_of_cons in He' as [-> | He']; [by left |].
        right. by exists e'.
    + change [JStr (id e)] with (map (JStr (num := num)) [id e]). rewrite <- map_app.
      destruct (IH (acc ++ [id e])) as (l & El & Hl). exists l. split; [exact El |].
      intros x. rewrite Hl, elem_of_app, list_elem_of_singleton. split.
      * intros [[? | ->] | (e' & He' & <-)]; [by left | |].
        -- right. exists e. split; [left | reflexivity].
        -- right. exists e'. split; [by right | reflexivity].
      * intros [? | (e' & He' & <-)]; [by left; left |].
        apply elem_of_cons in He' as [-> | He']; [by left; right |].
        right. by exists e'.
Qed.

(** The seen-set of a state. *)
Lemma seen_at_start_state file ids :
  loadCache file = seen_state ids ->
  exists l, seen_at_start file = Some (map JStr l)
            /\ forall x, x ∈ l <-> x ∈ ids.
Proof.
  intros Hload. unfold seen_at_start. rewrite Hload.
  unfold seen_state, get_prop. cbn [obj_get]. rewrite str_eqb_refl.
  cbn [mbind option_bind Set_new].
  destruct (set_add_all_strings ids []) as (l & El & Hl).
  exists l. change (@nil (json num)) with (map (JStr (num := num)) []).
  split; [by rewrite El |]. intros x. rewrite Hl, elem_of_nil. tauto.
Qed.

(** No event of [new] has an id of the state. *)
Lemma new_events_fresh env w ids new e :
  loadCache (cache_file w) = seen_state ids ->
  new_events intl env w = Some new ->
  e ∈ new ->
  id e ∉ ids.
Proof.
  intros Hload Hnew He Hid.
  destruct (seen_at_start_state _ _ Hload) as (l & Hseen & Hl).
  unfold new_events in Hnew. destruct (events_of intl env) as [events |]; [| discriminate].
  cbn in Hnew. rewrite Hseen in Hnew. cbn in Hnew. injection Hnew as <-.
  apply list_elem_of_In, filter_In in He as [_ Hfresh].
  unfold is_new in Hfresh. apply negb_true_iff in Hfresh.
  assert (Hhas : set_has (num := num) (map JStr l) (JStr (id e)) = true).
  { apply set_has_str, elem_of_JStr_map, Hl, Hid. }
  congruence.
Qed.

Lemma set_prop_state ids (l : list (json num)) :
  set_prop (seen_state ids) SEEN_IDS (JArr l) = Some (JObj [(SEEN_IDS, JArr l)]).
Proof.
  unfold seen_state, set_prop, obj_set. cbn [obj_get]. rewrite str_eqb_refl.
  cbn [obj_replace]. by rewrite str_eqb_refl.
Qed.

(** A run that completes on a state writes a state: the ids it had and
    the ids of [new]. *)
Lemma main_on_state env w w' ids :
  loadCache (cache_file w) = seen_state ids ->
  main intl env w = (0, w') ->
  exists new ids',
    new_events intl env w = Some new
    /\ cache_file w' = saveCache (seen_state ids')
    /\ forall x, x ∈ ids' <-> x ∈ ids \/ exists e, e ∈ new /\ id e = x.
Proof.
  intros Hload Hrun.
  destruct (main_success env w w' Hrun)
    as (icalText & seenIds & cache' & Hfeed & Hseen & Hset & ->).
  destruct (seen_at_start_state _ _ Hload) as (l & Hseen' & Hl).
  rewrite Hseen' in Hseen. injection Hseen as <-.
  set (new := List.filter _ _) in Hset.
  destruct (mark_seen_strings new l) as (ids' & Eids' & Hids').
  exists new, ids'. split; [| split].
  - unfold new_events, events_of. rewrite Hfeed. cbn. by rewrite Hseen'.
  - cbn [cache_file]. f_equal.
    rewrite Hload, Eids', set_prop_state in Hset.
    by injection Hset as <-.
  - intros x. rewrite Hids', Hl. reflexivity.
Qed.

(** Whatever its outcome, a run on a state leaves a state that has the ids
    it had. *)
Lemma main_keeps_state env w ids :
  loadCache (cache_file w) = seen_state ids ->
  exists ids', loadCache (cache_file (snd (main intl env w))) = seen_state ids'
               /\ forall x, x ∈ ids -> x ∈ ids'.
Proof.
  intros Hload. destruct (main_exit_code env w) as [Hexit | Hexit].
  - destruct (main intl env w) as [code w'] eqn:Hrun. cbn in Hexit. subst code.
    destruct (main_on_state env w w' ids Hload Hrun) as (new & ids' & _ & Hfile & Hids').
    exists ids'. cbn [snd]. rewrite Hfile, load_saved_state. split; [reflexivity |].
    intros x Hx. apply Hids'. by left.
  - exists ids. rewrite main_failed_keeps_file by (rewrite Hexit; discriminate).
    split; [assumption | auto].
Qed.

Lemma runs_keep_state envs : forall w ids,
  loadCache (cache_file w) = seen_state ids ->
  exists ids', loadCache (cache_file (runs intl envs w)) = seen_state ids'
               /\ forall x, x ∈ ids -> x ∈ ids'.
Proof.
  induction envs as [| env envs IH]; intros w ids Hload.
  - exists ids. split; [assumption | auto].
  - destruct (main_keeps_state env w ids Hload) as (ids1 & Hload1 & Hsub1).
    destruct (IH _ _ Hload1) as (ids2 & Hload2 & Hsub2).
    exists ids2. split; [exact Hload2 | auto].
Qed.

Lemma lookup_map_some {A B} (f : A -> B) (l : list A) : forall i x,
  l !! i = Some x -> map f l !! i = Some (f x).
Proof.
  induction l as [| y l IH]; intros [| i] x Hx; try discriminate.
  - by injection Hx as ->.
  - by apply IH.
Qed.

(** C1. In a run that completes, started on a cache file that is absent,
    unreadable as JSON or holds an object, with more than ten events in
    [new]: the relay receives ten messages and no more, the i-th of them
    for the i-th event of [new] in the order of the feed, from the sender
    of the run to the fixed recipient and with the title of the event in
    its subject; and the text written to the file is the JSON text of the
    object with [seenIds] set to an array in which the id of every event
    of [new] occurs, the ones beyond the tenth included.  When the file
    was absent, unreadable or held a state, the file written reads back as
    a state that has the ids it had and the id of every event of [new]. *)
Theorem C1_first_ten_delivered_all_marked
  (env : Env) (w w' : World) (o : object) (new : list Event) :
  main intl env w = (0, w') ->
  loadCache (cache_file w) = JObj o ->
  new_events intl env w = Some new ->
  (10 < length new)%nat ->
  outbox w' = outbox w ++ map (email_of env) (take 10 new)
  /\ length (outbox w') = (length (outbox w) + 10)%nat
  /\ (forall i e,
        take 10 new !! i = Some e ->
        exists m,
          outbox w' !! (length (outbox w) + i)%nat = Some m
          /\ mail_from m = GMAIL_USER env
          /\ mail_to m = js "kfirslon@gmail.com"
          /\ subject m = [55357; 57000; 32]%N ++ js "NEW YU EVENT: " ++ title e)
  /\ (exists seenIds',
        cache_file w'
        = Some (JSON_stringify (JObj (obj_set o SEEN_IDS (JArr seenIds'))))
        /\ obj_get (obj_set o SEEN_IDS (JArr seenIds')) SEEN_IDS = Some (JArr seenIds')
        /\ forall e, e ∈ new -> JStr (id e) ∈ seenIds')
  /\ (forall ids,
        o = [(SEEN_IDS, JArr (map JStr ids))] ->
        exists ids',
          cache_file w' = Some (JSON_stringify (seen_state ids'))
          /\ loadCache (cache_file w') = seen_state ids'
          /\ (forall e, e ∈ new -> id e ∈ ids')
          /\ (forall x, x ∈ ids -> x ∈ ids')).
Proof.
  intros Hrun Hobj Hnew Hlen.
  destruct (main_success env w w' Hrun)
    as (icalText & seenIds & cache' & Hfeed & Hseen & Hset & Hw').
  assert (Hnew0 : new = List.filter (is_new seenIds)
                          (parseFeed intl (today env) (clock env) icalText)).
  { unfold new_events, events_of in Hnew. rewrite Hfeed, Hseen in Hnew.
    cbn in Hnew. by injection Hnew as <-. }
  rewrite <- Hnew0 in Hset, Hw'.
  assert (Hout : outbox w' = outbox w ++ map (email_of env) (take 10 new))
    by (by rewrite Hw').
  split; [exact Hout |]. split; [| split; [| split]].
  - rewrite Hout, length_app, length_map, length_take. lia.
  - intros i e Hi. exists (email_of env e). split; [| by repeat split].
    rewrite Hout, lookup_app_r by lia.
    replace (length (outbox w) + i - length (outbox w))%nat with i by lia.
    by apply lookup_map_some.
  - rewrite Hobj in Hset. cbn in Hset. injection Hset as <-.
    rewrite Hw'. cbn [cache_file]. eexists. split; [reflexivity |].
    split; [apply obj_get_set |]. intros e He. by apply mark_seen_contains.
  - intros ids Ho. rewrite Ho in Hobj.
    destruct (main_on_state env w w' ids Hobj Hrun)
      as (new0 & ids' & Hnew1 & Hfile & Hids').
    rewrite Hnew in Hnew1. injection Hnew1 as <-.
    exists ids'. split; [exact Hfile |]. split; [| split].
    + rewrite Hfile. apply load_saved_state.
    + intros e He. apply Hids'. right. by exists e.
    + intros x Hx. apply Hids'. by left.
Qed.

(** C6. Start from a cache file that is absent, unreadable as JSON or
    holds a state, and let a run complete.  The state it writes has every
    id of the state it loaded and the id of every event of its [new].
    After any number of further runs, no event with one of these ids is in
    [new] again. *)
Theorem C6_seen_set_only_grows
  (env : Env) (w0 w1 : World) (ids0 : list jsstring) (new : list Event)
  (later : list Env) (env' : Env) (new' : list Event) :
  loadCache (cache_file w0) = seen_state ids0 ->
  main intl env w0 = (0, w1) ->
  new_events intl env w0 = Some new ->
  new_events intl env' (runs intl later w1) = Some new' ->
  (exists ids1,
      loadCache (cache_file w1) = seen_state ids1
      /\ (forall x, x ∈ ids0 -> x ∈ ids1)
      /\ (forall e, e ∈ new -> id e ∈ ids1))
  /\ forall e', e' ∈ new' ->
       (id e' ∉ ids0) /\ forall e, e ∈ new -> id e' <> id e.
Proof.
  intros Hload Hrun Hnew Hnew'.
  destruct (main_on_state env w0 w1 ids0 Hload Hrun) as (new0 & ids1 & Hnew0 & Hfile & Hids1).
  rewrite Hnew in Hnew0. injection Hnew0 as <-.
  assert (Hload1 : loadCache (cache_file w1) = seen_state ids1).
  { rewrite Hfile. apply load_saved_state. }
  split.
  - exists ids1. split; [exact Hload1 |]. split.
    + intros x Hx. apply Hids1. by left.
    + intros e He. apply Hids1. right. by exists e.
  - intros e' He'.
    destruct (runs_keep_state later w1 ids1 Hload1) as (ids2 & Hload2 & Hsub).
    pose proof (new_events_fresh env' _ ids2 new' e' Hload2 Hnew' He') as Hfresh.
    split.
    + intros Hin. apply Hfresh, Hsub, Hids1. by left.
    + intros e He Heq. apply Hfresh, Hsub, Hids1. right. by exists e.
Qed.

(** C9. Saving a state and loading it again gives the state back, and the
    seen-set built from it has exactly the ids that were saved, whatever
    the order of the array. *)
Theorem C9_state_round_trip (ids : list jsstring) :
  loadCache (saveCache (seen_state ids)) = seen_state (num := num) ids
  /\ exists l,
       seen_at_start (saveCache (seen_state ids)) = Some (map JStr l)
       /\ list_to_set l =@{gset jsstring} list_to_set ids.
Proof.
  split; [apply load_saved_state |].
  destruct (seen_at_start_state (saveCache (seen_state ids)) ids (load_saved_state ids))
    as (l & Hseen & Hl).
  exists l. split; [exact Hseen |].
  apply set_eq. intros x. rewrite !elem_of_list_to_set. apply Hl.
Qed.

(** *** The parser *)

Lemma capture_after_nonempty params rest cap :
  capture_after params rest = Some cap -> cap <> [].
Proof.
  unfold capture_after.
  destruct (if params then _ else _) as [r |]; [| discriminate].
  destruct (take_while not_crlf r); [discriminate |]. by intros [= <-].
Qed.

Lemma match_field_nonempty key params s cap :
  match_field key params s = Some cap -> cap <> [].
Proof.
  induction s as [| c r IH]; cbn [match_field]; [discriminate |].
  destruct (starts_with key (c :: r)); [| exact IH].
  destruct (capture_after params _) eqn:E; [| exact IH].
  intros [= <-]. by apply capture_after_nonempty in E.
Qed.

Lemma falsy_match_field key params s cap :
  match_field key params s = Some cap -> falsy (match_field key params s) = false.
Proof.
  intros E. rewrite E. apply match_field_nonempty in E. by destruct cap.
Qed.

Lemma fetch_loop_app today clock pre : forall i post,
  fetch_loop intl today clock i (pre ++ post)
  = fetch_loop intl today clock i pre
    ++ fetch_loop intl today clock (i + length pre) post.
Proof.
  induction pre as [| b pre IH]; intros i post; cbn [app fetch_loop length].
  - by rewrite Nat.add_0_r.
  - rewrite IH, Nat.add_succ_r. by destruct (parseBlock intl today (clock i) b).
Qed.

(** C4. A block whose start parses to an instant before [today] gives no
    event, whatever the clock: the events of a feed that has such a block
    are those of the blocks before it and after it.  The parser takes no
    seen-set, so this holds for every state of the cache. *)
Theorem C4_past_event_excluded
  (today : Z) (clock : nat -> Z) (pre post : list jsstring)
  (block : jsstring) (t : Z) :
  parseICalDate (match_field (js "DTSTART") true block) = Some (Some t) ->
  t < today ->
  (forall now, parseBlock intl today now block = None)
  /\ (forall i,
        fetch_loop intl today clock i (pre ++ block :: post)
        = fetch_loop intl today clock i pre
          ++ fetch_loop intl today clock (S (i + length pre)) post)
  /\ (forall icalText head,
        eventBlocks icalText = head :: pre ++ block :: post ->
        parseFeed intl today clock icalText
        = fetch_loop intl today clock 1 pre
          ++ fetch_loop intl today clock (S (1 + length pre)) post).
Proof.
  intros Hstart Hpast.
  assert (Hnone : forall now, parseBlock intl today now block = None).
  { intros now. unfold parseBlock. rewrite Hstart.
    destruct (falsy _ || falsy _); [reflexivity |].
    unfold is_past. destruct (Z.ltb_spec t today); [reflexivity | lia]. }
  assert (Hloop : forall i,
             fetch_loop intl today clock i (pre ++ block :: post)
             = fetch_loop intl today clock i pre
               ++ fetch_loop intl today clock (S (i + length pre)) post).
  { intros i. rewrite fetch_loop_app. cbn [fetch_loop]. by rewrite Hnone. }
  split; [exact Hnone |]. split; [exact Hloop |].
  intros icalText head Hblocks. unfold parseFeed. rewrite Hblocks. apply Hloop.
Qed.

(** C5. A block with an identifier and a title whose start is there but
    does not parse to a valid date is kept, whatever [today] is; its date
    and its time are the text "Invalid Date", not "TBD": [parseICalDate]
    returns an invalid [Date], not [null]. *)
Theorem C5_unparsable_start_kept_as_invalid_date
  (today now : Z) (block uid summary : jsstring) :
  match_field (js "UID:") false block = Some uid ->
  match_field (js "SUMMARY") true block = Some summary ->
  parseICalDate (match_field (js "DTSTART") true block) = Some None ->
  exists e,
    parseBlock intl today now block = Some e
    /\ id e = trim uid
    /\ date e = INVALID_DATE /\ time e = INVALID_DATE
    /\ date e <> TBD /\ time e <> TBD.
Proof.
  intros Huid Hsummary Hstart. unfold parseBlock.
  rewrite (falsy_match_field _ _ _ _ Huid), (falsy_match_field _ _ _ _ Hsummary).
  rewrite Hstart, Huid. cbn [orb is_past default].
  eexists. split; [reflexivity |]. cbn [id date time toLocaleDateString toLocaleTimeString].
  repeat split; discriminate.
Qed.

End Events.

Lemma first_run_completes :
  EventAlerts.main (H := JS.Fixed.number) iso_intl env_eleven first_world
  = (0, snd (EventAlerts.main (H := JS.Fixed.number) iso_intl env_eleven first_world)).
Proof.
  pose proof (surjective_pairing
                (EventAlerts.main (H := JS.Fixed.number) iso_intl env_eleven first_world))
    as Hp.
  assert (Hc : fst (EventAlerts.main (H := JS.Fixed.number) iso_intl env_eleven
                                     first_world) = 0)
    by (vm_compute; reflexivity).
  rewrite Hc in Hp. exact Hp.
Defined.

Lemma talks_run_completes :
  EventAlerts.main (H := JS.Fixed.number) iso_intl env_talks first_world
  = (0, snd (EventAlerts.main (H := JS.Fixed.number) iso_intl env_talks first_world)).
Proof.
  pose proof (surjective_pairing
                (EventAlerts.main (H := JS.Fixed.number) iso_intl env_talks first_world))
    as Hp.
  assert (Hc : fst (EventAlerts.main (H := JS.Fixed.number) iso_intl env_talks
                                     first_world) = 0)
    by (vm_compute; reflexivity).
  rewrite Hc in Hp. exact Hp.
Defined.

Lemma C1_witness :
  let w' := snd (EventAlerts.main (H := JS.Fixed.number) iso_intl env_talks first_world) in
  EventAlerts.main (H := JS.Fixed.number) iso_intl env_talks first_world = (0, w')
  /\ new_events (H := JS.Fixed.number) iso_intl env_talks first_world = Some talks_new
  /\ map EventAlerts.id talks_new
     = map JS.js ["talk-0"; "talk-1"; "talk-2"; "talk-3"; "talk-4"; "talk-5";
                  "talk-6"; "talk-7"; "talk-8"; "talk-9"; "talk-10"]%string
  /\ map EventAlerts.subject (EventAlerts.outbox w')
     = map (fun n => [55357; 57000; 32]%N
                     ++ JS.js (String.append "NEW YU EVENT: Talk " n))
           ["0"; "1"; "2"; "3"; "4"; "5"; "6"; "7"; "8"; "9"]%string
  /\ map EventAlerts.mail_to (EventAlerts.outbox w')
     = repeat (JS.js "kfirslon@gmail.com") 10
  /\ map EventAlerts.mail_from (EventAlerts.outbox w')
     = repeat (Some (JS.js "alerts@example.org")) 10
  /\ EventAlerts.cache_file w'
     = Some (lines ["{";
                    "  'seenIds': [";
                    "    'talk-0',";
                    "    'talk-1',";
                    "    'talk-2',";
                    "    'talk-3',";
                    "    'talk-4',";
                    "    'talk-5',";
                    "    'talk-6',";
                    "    'talk-7',";
                    "    'talk-8',";
                    "    'talk-9',";
                    "    'talk-10'";
                    "  ]";
                    "}"]%string)
  /\ exists ids',
       EventAlerts.loadCache (H := JS.Fixed.number) (EventAlerts.cache_file w')
       = seen_state ids'
       /\ forall e, e ∈ talks_new -> EventAlerts.id e ∈ ids'.
Proof.
  intros w'.
  assert (Hnew : new_events (H := JS.Fixed.number) iso_intl env_talks first_world
                 = Some talks_new) by (vm_compute; reflexivity).
  assert (Hlen : (10 < length talks_new)%nat) by (apply Nat.ltb_lt; vm_compute; reflexivity).
  destruct (C1_first_ten_delivered_all_marked (H := JS.Fixed.number) iso_intl env_talks
              first_world w' [(EventAlerts.SEEN_IDS, JS.JArr [])] talks_new
              talks_run_completes eq_refl Hnew Hlen)
    as (Hout & _ & _ & _ & Hstate).
  destruct (Hstate [] eq_refl) as (ids' & _ & Hload & Hids & _).
  split; [exact talks_run_completes |]. split; [exact Hnew |].
  split; [vm_compute; reflexivity |].
  split; [rewrite Hout; vm_compute; reflexivity |].
  split; [rewrite Hout; vm_compute; reflexivity |].
  split; [rewrite Hout; vm_compute; reflexivity |].
  split; [vm_compute; reflexivity |].
  exists ids'. split; [exact Hload | exact Hids].
Defined.

Lemma C4_witness :
  EventAlerts.parseICalDate (JS.match_field (JS.js "DTSTART") true past_block)
  = Some (Some 1577872800000)
  /\ 1577872800000 < dec_10_2025
  /\ forall now, EventAlerts.parseBlock iso_intl dec_10_2025 now past_block = None.
Proof.
  assert (Hstart : EventAlerts.parseICalDate
                     (JS.match_field (JS.js "DTSTART") true past_block)
                   = Some (Some 1577872800000)) by (vm_compute; reflexivity).
  assert (Hpast : 1577872800000 < dec_10_2025) by (unfold dec_10_2025; lia).
  split; [exact Hstart |]. split; [exact Hpast |].
  exact (proj1 (C4_past_event_excluded iso_intl dec_10_2025 (fun _ => 0) [] []
                  past_block 1577872800000 Hstart Hpast)).
Defined.

Lemma C5_witness :
  JS.match_field (JS.js "UID:") false undated_block = Some (JS.js "evt-1")
  /\ JS.match_field (JS.js "SUMMARY") true undated_block = Some (JS.js "Chess Night")
  /\ EventAlerts.parseICalDate (JS.match_field (JS.js "DTSTART") true undated_block)
     = Some None
  /\ exists e,
       EventAlerts.parseBlock iso_intl dec_10_2025 0 undated_block = Some e
       /\ EventAlerts.date e = JS.js "Invalid Date"
       /\ EventAlerts.time e = JS.js "Invalid Date".
Proof.
  assert (Huid : JS.match_field (JS.js "UID:") false undated_block
                 = Some (JS.js "evt-1")) by (vm_compute; reflexivity).
  assert (Hsum : JS.match_field (JS.js "SUMMARY") true undated_block
                 = Some (JS.js "Chess Night")) by (vm_compute; reflexivity).
  assert (Hstart : EventAlerts.parseICalDate
                     (JS.match_field (JS.js "DTSTART") true undated_block)
                   = Some None) by (vm_compute; reflexivity).
  split; [exact Huid |]. split; [exact Hsum |]. split; [exact Hstart |].
  destruct (C5_unparsable_start_kept_as_invalid_date iso_intl dec_10_2025 0
              undated_block _ _ Huid Hsum Hstart) as (e & He & _ & Hd & Ht & _).
  exists e. split; [exact He |]. split; [exact Hd | exact Ht].
Defined.

Lemma C6_witness :
  let w1 := snd (EventAlerts.main (H := JS.Fixed.number) iso_intl env_eleven first_world) in
  EventAlerts.loadCache (H := JS.Fixed.number) (EventAlerts.cache_file first_world)
  = seen_state []
  /\ EventAlerts.main (H := JS.Fixed.number) iso_intl env_eleven first_world = (0, w1)
  /\ new_events (H := JS.Fixed.number) iso_intl env_eleven first_world = Some eleven_new
  /\ new_events (H := JS.Fixed.number) iso_intl env_eleven
                 (runs (H := JS.Fixed.number) iso_intl [env_offline] w1) = Some []
  /\ exists ids1,
       EventAlerts.loadCache (H := JS.Fixed.number) (EventAlerts.cache_file w1)
       = seen_state ids1
       /\ forall e, e ∈ eleven_new -> EventAlerts.id e ∈ ids1.
Proof.
  intros w1.
  assert (Hnew : new_events (H := JS.Fixed.number) iso_intl env_eleven first_world
                 = Some eleven_new) by (vm_compute; reflexivity).
  assert (Hnew' : new_events (H := JS.Fixed.number) iso_intl env_eleven
                    (runs (H := JS.Fixed.number) iso_intl [env_offline] w1) = Some [])
    by (vm_compute; reflexivity).
  destruct (C6_seen_set_only_grows (H := JS.Fixed.number) iso_intl env_eleven first_world
              w1 [] eleven_new [env_offline] env_eleven [] eq_refl first_run_completes
              Hnew Hnew') as ((ids1 & Hload & _ & Hall) & _).
  split; [reflexivity |]. split; [exact first_run_completes |].
  split; [exact Hnew |]. split; [exact Hnew' |].
  exists ids1. split; [exact Hload | exact Hall].
Defined.

Lemma C7_witness :
  run_fails (H := JS.Fixed.number) iso_intl env_offline first_world
  /\ fst (EventAlerts.main (H := JS.Fixed.number) iso_intl env_offline first_world) = 1
  /\ EventAlerts.cache_file
       (snd (EventAlerts.main (H := JS.Fixed.number) iso_intl env_offline first_world))
     = EventAlerts.cache_file first_world.
Proof.
  assert (Hfail : run_fails (H := JS.Fixed.number) iso_intl env_offline first_world)
    by (left; reflexivity).
  split; [exact Hfail |].
  exact (C7_failed_run_keeps_cache (H := JS.Fixed.number) iso_intl env_offline
           first_world Hfail).
Defined.

Lemma C8_witness :
  JS.JSON_parse (H := JS.Fixed.number) (JS.js "{oops") = None
  /\ EventAlerts.loadCache (H := JS.Fixed.number) (Some (JS.js "{oops"))
     = EventAlerts.empty_cache.
Proof.
  assert (Hbad : JS.JSON_parse (H := JS.Fixed.number) (JS.js "{oops") = None)
    by (vm_compute; reflexivity).
  split; [exact Hbad |].
  exact (proj1 (proj2 (C8_missing_or_corrupt_cache_is_empty (H := JS.Fixed.number)
                         iso_intl (JS.js "{oops") Hbad))).
Defined.

(** * More of the code *)

(** * Further properties *)

(** ** Texts *)
Section Texts.
Import JS.

Lemma starts_with_single c s :
  starts_with [c] s = match s with
                      | d :: _ => (c =? d)%N
                      | [] => false
                      end.
Proof. destruct s as [| d s]; cbn; [reflexivity | by rewrite andb_true_r]. Qed.

(** With a separator of one code unit, [split] cuts at every occurrence. *)
Lemma split_go_single_cons c cur d s :
  split_go [c] 0 cur (d :: s)
  = if (c =? d)%N then rev cur :: split_go [c] 0 [] s
    else split_go [c] 0 (d :: cur) s.
Proof. cbn [split_go]. rewrite starts_with_single. reflexivity. Qed.

Lemma split_go_single_no c s : forall cur,
  c ∉ s -> split_go [c] 0 cur s = [rev cur ++ s].
Proof.
  induction s as [| d s IH]; intros cur Hc.
  - cbn. by rewrite app_nil_r.
  - rewrite split_go_single_cons. apply not_elem_of_cons in Hc as [Hd Hs].
    destruct (N.eqb_spec c d); [contradiction |].
    rewrite IH by assumption. cbn [rev]. by rewrite <- app_assoc.
Qed.

Lemma split_go_single_app c k v : forall cur,
  c ∉ k ->
  split_go [c] 0 cur (k ++ c :: v) = (rev cur ++ k) :: split_go [c] 0 [] v.
Proof.
  induction k as [| d k IH]; intros cur Hc.
  - cbn [app]. rewrite split_go_single_cons, N.eqb_refl. by rewrite app_nil_r.
  - cbn [app]. rewrite split_go_single_cons. apply not_elem_of_cons in Hc as [Hd Hk].
    destruct (N.eqb_spec c d); [contradiction |].
    rewrite IH by assumption. cbn [rev]. by rewrite <- app_assoc.
Qed.

Lemma split_single_no c s : c ∉ s -> split [c] s = [s].
Proof. intros Hc. unfold split. by rewrite split_go_single_no. Qed.

Lemma split_single_app c k v :
  c ∉ k -> split [c] (k ++ c :: v) = k :: split [c] v.
Proof. intros Hc. unfold split. by rewrite split_go_single_app. Qed.

Lemma split_go_not_nil sep s : forall skip cur, split_go sep skip cur s <> [].
Proof.
  induction s as [| d s IH]; intros skip cur; cbn [split_go]; [discriminate |].
  destruct skip; [| apply IH]. destruct (starts_with sep (d :: s)); [discriminate | apply IH].
Qed.

Lemma join_cons sep x l : l <> [] -> join sep (x :: l) = x ++ sep ++ join sep l.
Proof. destruct l; [contradiction | reflexivity]. Qed.

(** Joining the pieces with the separator gives the text back. *)
Lemma join_split_go_single c s : forall cur,
  join [c] (split_go [c] 0 cur s) = rev cur ++ s.
Proof.
  induction s as [| d s IH]; intros cur; [cbn; by rewrite app_nil_r |].
  rewrite split_go_single_cons. destruct (N.eqb_spec c d) as [<- | Hne].
  - rewrite join_cons by apply split_go_not_nil. by rewrite IH.
  - rewrite IH. cbn [rev]. by rewrite <- app_assoc.
Qed.

Lemma join_split_single c s : join [c] (split [c] s) = s.
Proof. apply join_split_go_single. Qed.

(** A text in which the separator does not occur is one piece. *)
Lemma split_go_no_occurrence sep s : forall cur,
  occurs sep s = false -> split_go sep 0 cur s = [rev cur ++ s].
Proof.
  induction s as [| d s IH]; intros cur; cbn [occurs split_go].
  - intros _. by rewrite app_nil_r.
  - intros Ho. apply orb_false_iff in Ho as [Hs Ho]. rewrite Hs.
    rewrite IH by assumption. cbn [rev]. by rewrite <- app_assoc.
Qed.

Lemma or_else_empty s : or_else s [] = s.
Proof. by destruct s. Qed.

End Texts.

(** ** The reading of [.env] *)
Section DotEnvFacts.
Import JS GymCommon DotEnv.

Lemma set_field_lookup (row : gmap jsstring jsstring) h v :
  h <> js "__proto__" -> set_field row h v !! h = Some v.
Proof.
  intros Hh. unfold set_field, str_eqb. rewrite bool_decide_eq_false_2 by assumption.
  apply lookup_insert_eq.
Qed.

Lemma set_field_lookup_ne (row : gmap jsstring jsstring) h h' v :
  h <> h' -> set_field row h v !! h' = row !! h'.
Proof.
  intros Hh. unfold set_field. destruct (str_eqb h (js "__proto__")); [reflexivity |].
  by apply lookup_insert_ne.
Qed.

(** A line either leaves [env] as it is or sets the key [line_key] names. *)
Lemma env_line_key env line K :
  env_line env line !! K
  = if bool_decide (line_key line = Some K)
    then Some (trim (join [61%N] (tail (split [61%N] line))))
    else env !! K.
Proof.
  unfold env_line, line_key.
  destruct (negb (falsy (Some (hd [] (split [61%N] line))))
            && negb (starts_with [35%N] (hd [] (split [61%N] line)))) eqn:E; cbn [andb].
  - unfold set_field. destruct (str_eqb (trim (hd [] (split [61%N] line))) (js "__proto__")) eqn:Ep;
      cbn [negb].
    + by rewrite bool_decide_eq_false_2.
    + case_bool_decide as HK.
      * injection HK as <-. apply lookup_insert_eq.
      * apply lookup_insert_ne. congruence.
  - by rewrite bool_decide_eq_false_2.
Qed.

(** X1. In [.env], the value of a key is the one of the last line that
    assigns it: for a line [k=v] whose [k] is not empty, has no equals sign
    and does not begin with [#], with no later line for the same key, the
    object holds the trimmed [v] under the trimmed [k]; equals signs in [v]
    are kept. *)
Theorem X1_env_last_assignment
  (envContent : jsstring) (pre post : list jsstring) (k v : jsstring) :
  split [LF] envContent = pre ++ (k ++ 61%N :: v) :: post ->
  k <> [] ->
  61%N ∉ k ->
  starts_with [35%N] k = false ->
  trim k <> js "__proto__" ->
  Forall (fun l => line_key l <> Some (trim k)) post ->
  parseEnv envContent !! trim k = Some (trim v).
Proof.
  intros Hlines Hk Heq Hhash Hproto Hpost. unfold parseEnv. rewrite Hlines.
  rewrite fold_left_app. cbn [fold_left].
  set (e := fold_left env_line pre ∅).
  assert (Hline : env_line e (k ++ 61%N :: v) !! trim k = Some (trim v)).
  { rewrite env_line_key. rewrite bool_decide_eq_true_2.
    - rewrite split_single_app by assumption. cbn [tail].
      by rewrite join_split_single.
    - unfold line_key. rewrite split_single_app by assumption. cbn [hd].
      rewrite Hhash. unfold str_eqb. rewrite bool_decide_eq_false_2 by assumption.
      by destruct k. }
  revert Hline. generalize (env_line e (k ++ 61%N :: v)). clear e Hlines.
  induction Hpost as [| l post Hl Hpost IH]; intros e He; [exact He |].
  cbn [fold_left]. apply IH. rewrite env_line_key.
  by rewrite bool_decide_eq_false_2.
Qed.

(** Lines that are empty or begin with [#] change nothing. *)
Lemma env_line_ignored env line :
  line = [] \/ starts_with [35%N] line = true -> env_line env line = env.
Proof.
  intros [-> | Hc]; [reflexivity |].
  destruct line as [| c line]; [discriminate |].
  rewrite starts_with_single in Hc. apply N.eqb_eq in Hc as <-.
  unfold env_line, split. rewrite split_go_single_cons.
  change (61 =? 35)%N with false. cbv iota.
  assert (Hhd : forall s cur, starts_with [35%N] (rev cur) = true ->
                  starts_with [35%N] (hd [] (split_go [61%N] 0 cur s)) = true).
  { induction s as [| d s IH]; intros cur Hcur; [exact Hcur |].
    rewrite split_go_single_cons. destruct (61 =? d)%N; [exact Hcur |].
    apply IH. cbn [rev]. destruct (rev cur); [discriminate | exact Hcur]. }
  rewrite Hhd by reflexivity. by rewrite andb_false_r.
Qed.

End DotEnvFacts.

Lemma X1_witness :
  DotEnv.parseEnv (lines ["# mail"; "GMAIL_USER = me@example.org "; EmptyString;
                          "GMAIL_APP_PASSWORD=ab=cd=="; "OTHER=1"; EmptyString]%string)
    !! JS.js "GMAIL_APP_PASSWORD"
  = Some (JS.js "ab=cd==").
Proof.
  exact (X1_env_last_assignment
           (lines ["# mail"; "GMAIL_USER = me@example.org "; EmptyString;
                   "GMAIL_APP_PASSWORD=ab=cd=="; "OTHER=1"; EmptyString]%string)
           [JS.js "# mail"; JS.js "GMAIL_USER = me@example.org "; []]
           [JS.js "OTHER=1"; []]
           (JS.js "GMAIL_APP_PASSWORD") (JS.js "ab=cd==")
           ltac:(vm_compute; reflexivity) ltac:(discriminate)
           ltac:(vm_compute; intros Hin; repeat (apply elem_of_cons in Hin as [Hin | Hin]; [discriminate Hin |]); by apply elem_of_nil in Hin)
           ltac:(reflexivity) ltac:(vm_compute; discriminate)
           ltac:(repeat constructor; vm_compute; discriminate)).
Defined.

(** ** Rows of the sheet *)
Section RowFacts.
Import JS GymCommon.

Lemma lookup_map {A B} (f : A -> B) (l : list A) (i : nat) :
  map f l !! i = f <$> l !! i.
Proof.
  revert i. induction l as [| x l IH]; intros [| i]; cbn; try reflexivity. apply IH.
Qed.

Lemma fill_row_other (values : list jsstring) hs : forall k n (acc : gmap jsstring jsstring) h,
  h ∉ hs ->
  fold_left (fun row ih => set_field row (snd ih)
                             (or_else (default [] (values !! fst ih)) []))
            (zip (seq k n) hs) acc !! h
  = acc !! h.
Proof.
  induction hs as [| h0 hs IH]; intros k n acc h Hh.
  - by destruct n.
  - destruct n as [| n]; [reflexivity |]. cbn [seq zip zip_with fold_left fst snd].
    apply not_elem_of_cons in Hh as [Hne Hh].
    rewrite IH by assumption. by apply set_field_lookup_ne.
Qed.

Lemma fill_row_lookup (values : list jsstring) hs : forall k (acc : gmap jsstring jsstring) i h,
  NoDup hs ->
  js "__proto__" ∉ hs ->
  hs !! i = Some h ->
  fold_left (fun row ih => set_field row (snd ih)
                             (or_else (default [] (values !! fst ih)) []))
            (zip (seq k (length hs)) hs) acc !! h
  = Some (default [] (values !! (k + i)%nat)).
Proof.
  induction hs as [| h0 hs IH]; intros k acc i h Hnd Hproto Hi; [discriminate |].
  cbn [length seq zip zip_with fold_left fst snd].
  apply NoDup_cons in Hnd as [Hh0 Hnd]. apply not_elem_of_cons in Hproto as [Hp0 Hproto].
  destruct i as [| i]; cbn in Hi.
  - injection Hi as <-. rewrite fill_row_other by assumption.
    rewrite set_field_lookup by congruence. by rewrite or_else_empty, Nat.add_0_r.
  - rewrite (IH (S k) _ i h) by assumption. by rewrite Nat.add_succ_r.
Qed.

(** X2. In a row of [parseCSV], the cell under a header is the trimmed
    cell at the position of the header in the line, and the empty string
    when the line is too short; there is one row for each line after the
    first.  (The headers are to be distinct and none is [__proto__].) *)
Theorem X2_parseCSV_cells
  (content : jsstring) (i j : nat) (h line : jsstring) :
  let lines := split [LF] (trim content) in
  let headers := cells (hd [] lines) in
  NoDup headers ->
  js "__proto__" ∉ headers ->
  headers !! i = Some h ->
  tail lines !! j = Some line ->
  length (parseCSV content) = (length lines - 1)%nat
  /\ exists row,
       parseCSV content !! j = Some row
       /\ row !! h = Some (default [] (cells line !! i))
       /\ forall h', h' ∉ headers -> row !! h' = None.
Proof.
  intros lines headers Hnd Hproto Hi Hj. unfold parseCSV. fold lines. fold headers.
  clearbody headers. clearbody lines.
  split; [rewrite length_map; destruct lines; cbn; lia |].
  exists (make_row headers (cells line)). split; [| split].
  - by rewrite lookup_map, Hj.
  - unfold make_row. by rewrite (fill_row_lookup _ headers 0 ∅ i h).
  - intros h' Hh'. unfold make_row. by rewrite fill_row_other.
Qed.

End RowFacts.

Lemma X2_witness :
  exists row,
    GymCommon.parseCSV two_shifts_csv !! 1%nat = Some row
    /\ row !! JS.js "Hours" = Some (JS.js "3").
Proof.
  destruct (X2_parseCSV_cells two_shifts_csv 1 1 (JS.js "Hours")
              (JS.js "12/01/2025,3,9:00,12:00"))
    as (_ & row & Hrow & Hcell & _).
  - vm_compute. repeat constructor; intros Hin;
      repeat (apply elem_of_cons in Hin as [Hin | Hin]; [discriminate Hin |]);
      by apply elem_of_nil in Hin.
  - vm_compute. intros Hin.
    repeat (apply elem_of_cons in Hin as [Hin | Hin]; [discriminate Hin |]).
    by apply elem_of_nil in Hin.
  - vm_compute. reflexivity.
  - vm_compute. reflexivity.
  - exists row. split; [exact Hrow | exact Hcell].
Defined.

(** ** The aggregation as a whole *)
Section AggregationFacts.
Import JS GymCommon.
Context {num : Type} `{Number num}.
Variable tz : Z.

Lemma gh_step_other period acc row :
  in_period tz period row = false -> GymShiftsGH.step tz period acc row = acc.
Proof.
  unfold in_period, GymShiftsGH.step. intros Hp.
  destruct (skip_row row); [reflexivity |]. cbn in Hp |- *.
  destruct (length (date_parts row) =? 3)%nat; [| reflexivity]. cbn in Hp |- *.
  by rewrite Hp.
Qed.

Lemma gh_fold_filter period rows : forall acc,
  fold_left (GymShiftsGH.step tz period) rows acc
  = fold_left add_row (List.filter (in_period tz period) rows) acc.
Proof.
  induction rows as [| r rows IH]; intros acc; [reflexivity |]. cbn [fold_left List.filter].
  destruct (in_period tz period r) eqn:Hp.
  - rewrite (gh_step_counts tz period acc r Hp). cbn [fold_left]. apply IH.
  - rewrite gh_step_other by assumption. apply IH.
Qed.

Lemma fold_add_row rows : forall acc,
  fold_left add_row rows acc
  = {| GymShiftsGH.totalHours :=
         fold_left num_add (map row_hours rows) (GymShiftsGH.totalHours acc);
       GymShiftsGH.shiftLines :=
         GymShiftsGH.shiftLines acc
         ++ map (fun r => shift_line r (row_hours r)) rows |}.
Proof.
  induction rows as [| r rows IH]; intros acc; cbn [fold_left map].
  - rewrite app_nil_r. by destruct acc.
  - rewrite IH. cbn. by rewrite <- app_assoc.
Qed.

(** The loop of the GitHub-Actions script as one fold over the rows of the
    period. *)
Lemma gh_aggregate_fold (period : option Z * option Z) (rows : list Row) :
  GymShiftsGH.aggregate tz period rows
  = fold_left add_row (List.filter (in_period tz period) rows) GymShiftsGH.start.
Proof. apply gh_fold_filter. Qed.

(** X3. In the GitHub-Actions script the lines are those of the rows of
    the period, one for each and in the order of the sheet, and the total
    is the sum of their hours from the left; every other row (header echo,
    a date without three parts, a date that is no number, a date outside
    the period) changes nothing. *)
Theorem X3_gh_total_and_lines (period : option Z * option Z) (rows : list Row) :
  let counted := List.filter (in_period tz period) rows in
  GymShiftsGH.shiftLines (GymShiftsGH.aggregate tz period rows)
  = map (fun r => shift_line r (row_hours r)) counted
  /\ GymShiftsGH.totalHours (GymShiftsGH.aggregate tz period rows)
     = fold_left num_add (map row_hours counted) num_zero.
Proof.
  intros counted. rewrite gh_aggregate_fold, fold_add_row.
  split; reflexivity.
Qed.

Lemma step_other period acc row :
  unreadable row = false ->
  GymShifts.shiftKey row ∉ GymShifts.seenShifts acc ->
  in_period tz period row = false ->
  GymShifts.step tz period acc row
  = {| GymShifts.totalHours := GymShifts.totalHours acc;
       GymShifts.shiftLines := GymShifts.shiftLines acc;
       GymShifts.seenShifts := {[GymShifts.shiftKey row]} ∪ GymShifts.seenShifts acc |}.
Proof.
  unfold unreadable, in_period, GymShifts.step. intros Hu Hfresh Hp.
  destruct (skip_row row); [discriminate |]. cbn in Hu, Hp |- *.
  apply negb_false_iff in Hu. rewrite Hu in Hp |- *. cbn in Hp |- *.
  rewrite bool_decide_eq_false_2 by assumption. by rewrite Hp.
Qed.


Lemma standalone_fold period rows : forall acc,
  let counted :=
    List.filter (in_period tz period) (first_by_key (GymShifts.seenShifts acc) rows) in
  GymShifts.totalHours (fold_left (GymShifts.step tz period) rows acc)
  = fold_left num_add (map row_hours counted) (GymShifts.totalHours acc)
  /\ GymShifts.shiftLines (fold_left (GymShifts.step tz period) rows acc)
     = GymShifts.shiftLines acc ++ map (fun r => shift_line r (row_hours r)) counted.
Proof.
  induction rows as [| r rows IH]; intros acc.
  - cbn. by rewrite app_nil_r.
  - cbn [fold_left first_by_key]. destruct (unreadable r) eqn:Hu.
    { rewrite step_unreadable by assumption. apply IH. }
    case_bool_decide as Hseen.
    { rewrite step_seen by assumption. apply IH. }
    destruct (in_period tz period r) eqn:Hp.
    + rewrite (step_counts tz period acc r Hp Hseen). cbn [List.filter]. rewrite Hp.
      specialize (IH {| GymShifts.totalHours := num_add (GymShifts.totalHours acc) (row_hours r);
                        GymShifts.shiftLines :=
                          GymShifts.shiftLines acc ++ [shift_line r (row_hours r)];
                        GymShifts.seenShifts :=
                          {[GymShifts.shiftKey r]} ∪ GymShifts.seenShifts acc |}).
      cbn in IH |- *. destruct IH as [-> ->]. by rewrite <- app_assoc.
    + rewrite (step_other period acc r Hu Hseen Hp). cbn [List.filter]. rewrite Hp.
      specialize (IH {| GymShifts.totalHours := GymShifts.totalHours acc;
                        GymShifts.shiftLines := GymShifts.shiftLines acc;
                        GymShifts.seenShifts :=
                          {[GymShifts.shiftKey r]} ∪ GymShifts.seenShifts acc |}).
      cbn in IH |- *. exact IH.
Qed.

(** X4. The stand-alone script computes what the GitHub-Actions script
    computes on the sheet with its duplicates removed: the rows it cannot
    read and the rows whose date, start time and end time an earlier
    readable row has are taken out, whether or not that earlier row lies in
    the period. *)
Theorem X4_standalone_is_gh_without_duplicates
  (period : option Z * option Z) (rows : list Row) :
  GymShifts.totalHours (GymShifts.aggregate tz period rows)
  = GymShiftsGH.totalHours (GymShiftsGH.aggregate tz period (first_by_key ∅ rows))
  /\ GymShifts.shiftLines (GymShifts.aggregate tz period rows)
     = GymShiftsGH.shiftLines (GymShiftsGH.aggregate tz period (first_by_key ∅ rows)).
Proof.
  rewrite gh_aggregate_fold, fold_add_row. cbn [GymShiftsGH.totalHours GymShiftsGH.shiftLines GymShiftsGH.start app].
  destruct (standalone_fold period rows GymShifts.start) as [Ht Hl].
  unfold GymShifts.aggregate. rewrite Ht, Hl. split; reflexivity.
Qed.






(** *** The order of the lines *)

Lemma str_ltb_asym a : forall b, str_ltb a b = true -> str_ltb b a = false.
Proof.
  induction a as [| x a IH]; intros [| y b]; cbn; try reflexivity; try discriminate.
  intros Hab. apply orb_true_iff in Hab as [Hlt | Heq].
  - apply N.ltb_lt in Hlt. apply orb_false_iff. split; [apply N.ltb_ge; lia |].
    apply andb_false_iff. left. apply N.eqb_neq. lia.
  - apply andb_true_iff in Heq as [Heq Hab]. apply N.eqb_eq in Heq as ->.
    rewrite N.ltb_irrefl, N.eqb_refl. cbn. by apply IH.
Qed.

Lemma insert_sorted_perm x l : insert_sorted x l ≡ₚ x :: l.
Proof.
  induction l as [| y l IH]; cbn; [reflexivity |].
  destruct (str_ltb x y); [reflexivity |]. rewrite IH. apply Permutation_swap.
Qed.

Lemma insert_sorted_sorted x l :
  Sorted str_le l -> Sorted str_le (insert_sorted x l).
Proof.
  induction l as [| y l IH]; intros Hs; cbn; [repeat constructor |].
  destruct (str_ltb x y) eqn:Hxy.
  - constructor; [assumption |]. constructor. by apply str_ltb_asym.
  - apply Sorted_inv in Hs as [Hs Hhd]. constructor; [by apply IH |].
    destruct l as [| z l]; cbn; [by constructor |].
    destruct (str_ltb x z); constructor; [exact Hxy |].
    by apply HdRel_inv in Hhd.
Qed.

Lemma sort_sorted_perm l : Sorted str_le (sort l) /\ sort l ≡ₚ l.
Proof.
  induction l as [| x l [IHs IHp]]; cbn; [split; [constructor | reflexivity] |].
  split; [by apply insert_sorted_sorted |]. by rewrite insert_sorted_perm, IHp.
Qed.

End AggregationFacts.

(** X6. The lines of the summary of the stand-alone script are the lines
    of the counted shifts, each as often as it was pushed, in ascending
    order of their code units; with none, the text says so. *)
Theorem X6_summary_lines_sorted
  {num : Type} `{JS.Number num} (tz : Z) (env : GymShifts.Env)
  (rows : list GymCommon.Row) :
  let period := GymCommon.getPayPeriod tz (GymShifts.now env) in
  let acc := GymShifts.aggregate tz period rows in
  exists ls,
    Sorted str_le ls
    /\ ls ≡ₚ GymShifts.shiftLines acc
    /\ GymCommon.text (GymShifts.summary tz env rows)
       = GymCommon.emailBody (GymCommon.formatDate tz (fst period))
                             (GymCommon.formatDate tz (snd period)) ls
                             (GymShifts.totalHours acc).
Proof.
  intros period acc. exists (GymCommon.sort (GymShifts.shiftLines acc)).
  destruct (sort_sorted_perm (GymShifts.shiftLines acc)) as [Hs Hp].
  split; [exact Hs |]. split; [exact Hp | reflexivity].
Qed.


(** ** Pay periods at every instant *)
Section Periods.
Import JS GymCommon.

Lemma civil_round_trip z :
  let '(y, m, d) := civil_from_days z in
  1 <= m <= 12 /\ 1 <= d <= 31 /\ days_from_civil y m d = z.
Proof.
  unfold civil_from_days, days_from_civil.
  repeat match goal with
         | |- context [if ?b then _ else _] => destruct b eqn:?
         end; Z.div_mod_to_equations; lia.
Qed.

Lemma days_from_civil_day y m d :
  days_from_civil y m d = days_from_civil y m 1 + d - 1.
Proof. unfold days_from_civil. lia. Qed.

(** [MakeDay] with the year and month of a day and a day of the month
    counted from that of the day moves by days, across months and years. *)
Lemma MakeDay_civil z k :
  let '(y, m, d) := civil_from_days z in MakeDay y (m - 1) (d + k) = z + k.
Proof.
  pose proof (civil_round_trip z) as Hrt.
  destruct (civil_from_days z) as [[y m] d]. destruct Hrt as (Hm & _ & Hz).
  unfold MakeDay. rewrite Z.div_small, Z.mod_small, Z.add_0_r by lia.
  replace (m - 1 + 1) with m by lia. rewrite days_from_civil_day in Hz. lia.
Qed.

Lemma setDate_days tz z k :
  Z.abs (z * msPerDay - tz) <= 8640000000000000 ->
  Z.abs ((z + k) * msPerDay - tz) <= 8640000000000000 ->
  setDate tz (Some (z * msPerDay - tz)) (Some (snd (civil_from_days z) + k))
  = Some ((z + k) * msPerDay - tz).
Proof.
  intros Hz Hk. pose proof (setDate_midnight tz z (snd (civil_from_days z) + k) Hz) as Hs.
  pose proof (MakeDay_civil z k) as Hm.
  destruct (civil_from_days z) as [[y m] d]. cbn [snd] in *.
  rewrite Hm in Hs. by apply Hs.
Qed.

Lemma getPayPeriod_index tz t :
  - msPerDay < tz < msPerDay ->
  Z.abs t <= 8640000000000000 - 14 * msPerDay ->
  let i := (t - (20421 * msPerDay - tz)) / msPerDay / 14 in
  getPayPeriod tz t
  = (Some ((20421 + 14 * i) * msPerDay - tz),
     Some ((20421 + 14 * i + 13) * msPerDay - tz)).
Proof.
  intros Htz Ht i.
  assert (Hi : (20421 + 14 * i) * msPerDay - tz <= t
               < (20421 + 14 * i) * msPerDay - tz + 14 * msPerDay).
  { subst i. rewrite Z.div_div by (unfold msPerDay; lia).
    unfold msPerDay in *. Z.div_mod_to_equations. lia. }
  unfold getPayPeriod, ANCHOR_DATE, UTC, MakeDate, PERIOD_LENGTH_DAYS.
  change (days_from_civil 2025 11 29) with 20421. rewrite Z.add_0_r.
  rewrite TimeClip_in_range by (unfold msPerDay in *; lia).
  cbn [fmap option_fmap option_map]. fold i.
  rewrite getDate_midnight. cbn [mbind option_bind].
  rewrite (setDate_days tz 20421 (i * 14)) by (unfold msPerDay in *; lia).
  replace (20421 + i * 14) with (20421 + 14 * i) by lia.
  rewrite getDate_midnight. cbn [fmap option_fmap option_map].
  replace (snd (civil_from_days (20421 + 14 * i)) + 14 - 1)
    with (snd (civil_from_days (20421 + 14 * i)) + 13) by lia.
  rewrite setDate_days by (unfold msPerDay in *; lia). reflexivity.
Qed.

(** X7. The pay periods tile the time line: at every instant the period
    starts at a local midnight that lies a whole number of fortnights from
    the anchor, at most fourteen days back; it ends thirteen days later,
    at the midnight that begins its last day. *)
Theorem X7_pay_periods_tile (tz t : Z) :
  - msPerDay < tz < msPerDay ->
  Z.abs t <= 8640000000000000 - 14 * msPerDay ->
  exists s,
    getPayPeriod tz t = (Some s, Some (s + 13 * msPerDay))
    /\ s <= t < s + 14 * msPerDay
    /\ (s - local_midnight tz 2025 11 29) mod (14 * msPerDay) = 0.
Proof.
  intros Htz Ht. pose proof (getPayPeriod_index tz t Htz Ht) as Hp.
  cbv zeta in Hp.
  set (i := (t - (20421 * msPerDay - tz)) / msPerDay / 14) in *.
  exists ((20421 + 14 * i) * msPerDay - tz). split; [| split].
  - rewrite Hp. do 2 f_equal. lia.
  - subst i. rewrite Z.div_div by (unfold msPerDay; lia).
    unfold msPerDay in *. Z.div_mod_to_equations. lia.
  - unfold local_midnight. change (days_from_civil 2025 11 29) with 20421.
    replace ((20421 + 14 * i) * msPerDay - tz - (20421 * msPerDay - tz))
      with (i * (14 * msPerDay)) by lia.
    apply Z.mod_mul. unfold msPerDay. lia.
Qed.

End Periods.

Lemma X7_witness :
  exists s,
    GymCommon.getPayPeriod (-18000000) 1700000000000
    = (Some s, Some (s + 13 * JS.msPerDay))
    /\ s <= 1700000000000 < s + 14 * JS.msPerDay
    /\ (s - local_midnight (-18000000) 2025 11 29) mod (14 * JS.msPerDay) = 0.
Proof.
  apply (X7_pay_periods_tile (-18000000) 1700000000000);
    unfold JS.msPerDay; lia.
Defined.

(** ** Integers and their decimal text *)
Section Decimals.
Import JS.

Lemma digits_value_pos d : forall p,
  digits_value 10 (Some (N.pos p)) (js (NilEmpty.string_of_uint d))
  = Some (N.pos (Pos.of_uint_acc d p)).
Proof.
  induction d; intros p; digit_units; [reflexivity | ..];
    cbn [digits_value digit_value]; cbn; rewrite <- IHd; do 2 f_equal; lia.
Qed.

Lemma digits_value_zero d :
  digits_value 10 (Some 0%N) (js (NilEmpty.string_of_uint d)) = Some (Pos.of_uint d).
Proof.
  induction d; digit_units; [reflexivity | ..]; cbn;
    try exact IHd; apply digits_value_pos.
Qed.

Lemma digits_value_uint d :
  d <> Decimal.Nil ->
  digits_value 10 None (js (NilEmpty.string_of_uint d)) = Some (Pos.of_uint d).
Proof.
  destruct d; intros Hd; try contradiction; digit_units; cbn;
    try apply digits_value_pos; apply digits_value_zero.
Qed.

Lemma parseInt_uint d :
  d <> Decimal.Nil ->
  parseInt (js (NilEmpty.string_of_uint d)) = Some (Z.of_N (Pos.of_uint d))
  /\ parseInt (45%N :: js (NilEmpty.string_of_uint d))
     = Some (- Z.of_N (Pos.of_uint d)).
Proof.
  intros Hd. pose proof (digits_value_uint d Hd) as Hv. revert Hv.
  destruct d as [| d | d | d | d | d | d | d | d | d | d]; try contradiction;
    try (digit_units; unfold parseInt; cbn [trim_start drop_while is_space];
         cbn; intros ->; split; reflexivity).
  destruct d; digit_units; unfold parseInt; cbn [trim_start drop_while is_space];
    cbn; intros ->; split; reflexivity.
Qed.

Lemma N_to_uint_nonnil n : N.to_uint n <> Decimal.Nil.
Proof. destruct n; [discriminate | apply DecimalPos.Unsigned.to_uint_nonnil]. Qed.

Lemma uint_digits d :
  Forall (fun c => (48 <= c <= 57)%N) (js (NilEmpty.string_of_uint d)).
Proof. induction d; digit_units; constructor; try assumption; lia. Qed.

(** [parseInt] reads back the text of every integer. *)
Lemma parseInt_Z_to_string (z : Z) : parseInt (Z_to_string z) = Some z.
Proof.
  unfold Z_to_string, N_to_string.
  destruct (parseInt_uint (N.to_uint (Z.to_N z)) (N_to_uint_nonnil _)) as [Hp _].
  destruct (parseInt_uint (N.to_uint (Z.to_N (- z))) (N_to_uint_nonnil _)) as [_ Hn].
  fold (N.of_uint (N.to_uint (Z.to_N z))) in Hp.
  fold (N.of_uint (N.to_uint (Z.to_N (- z)))) in Hn.
  rewrite DecimalN.Unsigned.of_to in Hp, Hn.
  destruct (Z.ltb_spec z 0).
  - change (js "-" ++ ?s) with (45%N :: s). rewrite Hn. f_equal. lia.
  - rewrite Hp. f_equal. lia.
Qed.

Lemma Z_to_string_units z :
  Forall (fun c => c = 45%N \/ (48 <= c <= 57)%N) (Z_to_string z).
Proof.
  unfold Z_to_string, N_to_string.
  destruct (z <? 0); [constructor; [by left |] |];
    (eapply Forall_impl; [apply uint_digits |]); intros c Hc; by right.
Qed.

Lemma Z_to_string_not_nil z : Z_to_string z <> [].
Proof.
  unfold Z_to_string, N_to_string. destruct (z <? 0); [discriminate |].
  pose proof (N_to_uint_nonnil (Z.to_N z)).
  by destruct (N.to_uint (Z.to_N z)).
Qed.

Lemma pad_start0_units n z :
  Forall (fun c => c = 45%N \/ (48 <= c <= 57)%N) (pad_start0 n (Z_to_string z)).
Proof.
  unfold pad_start0. apply Forall_app. split; [| apply Z_to_string_units].
  apply Forall_forall. intros c Hc%list_elem_of_In%repeat_spec. right. lia.
Qed.

Lemma units_no_slash s :
  Forall (fun c => c = 45%N \/ (48 <= c <= 57)%N) s -> 47%N ∉ s.
Proof.
  intros Hs Hin. rewrite Forall_forall in Hs. apply Hs in Hin. lia.
Qed.

Lemma parseInt_pad2 v :
  0 <= v <= 99 -> parseInt (pad_start0 2 (Z_to_string v)) = Some v.
Proof.
  intros Hv.
  assert (Hall : forallb (fun n => bool_decide
            (parseInt (pad_start0 2 (Z_to_string (Z.of_nat n))) = Some (Z.of_nat n)))
            (seq 0 100) = true) by (vm_compute; reflexivity).
  rewrite forallb_forall in Hall.
  assert (Hin : In (Z.to_nat v) (seq 0 100)) by (apply in_seq; lia).
  apply Hall in Hin. rewrite Z2Nat.id in Hin by lia.
  by apply bool_decide_eq_true in Hin.
Qed.

End Decimals.

(** ** Rows dated as the summary prints dates *)
Section DatedRows.
Import JS GymCommon.

Lemma date_parts_of_format tz z :
  split [47%N] (formatDate tz (Some (z * msPerDay - tz)))
  = let '(y, m, d) := civil_from_days z in
    [pad_start0 2 (Z_to_string m); pad_start0 2 (Z_to_string d); Z_to_string y].
Proof.
  rewrite formatDate_midnight. destruct (civil_from_days z) as [[y m] d].
  replace (m - 1 + 1) with m by lia.
  change (?a ++ [47%N] ++ ?b ++ [47%N] ++ ?c) with (a ++ 47%N :: (b ++ 47%N :: c)).
  rewrite split_single_app by apply units_no_slash, pad_start0_units.
  rewrite split_single_app by apply units_no_slash, pad_start0_units.
  rewrite split_single_no by apply units_no_slash, Z_to_string_units.
  reflexivity.
Qed.

Lemma format_readable (tz z : Z) (row : Row) :
  row !! js "Date" = Some (formatDate tz (Some (z * msPerDay - tz))) ->
  unreadable row = false.
Proof.
  intros Hrow. unfold unreadable, skip_row, date_parts. rewrite Hrow. change (default [] (Some ?x)) with x.
  rewrite date_parts_of_format. rewrite formatDate_midnight.
  destruct (civil_from_days z) as [[y m] d]. cbn [length Nat.eqb negb].
  rewrite orb_false_r.
  assert (Hu : Forall (fun c => (45 <= c <= 57)%N)
            (pad_start0 2 (Z_to_string (m - 1 + 1)) ++ [47%N]
             ++ pad_start0 2 (Z_to_string d) ++ [47%N] ++ Z_to_string y)).
  { assert (Hpad : forall v, Forall (fun c => (45 <= c <= 57)%N)
                                (pad_start0 2 (Z_to_string v))).
    { intros v. eapply Forall_impl; [apply pad_start0_units |]. intros c Hc; cbn beta in Hc; lia. }
    apply Forall_app. split; [apply Hpad |]. constructor; [lia |].
    apply Forall_app. split; [apply Hpad |]. constructor; [lia |].
    eapply Forall_impl; [apply Z_to_string_units |]. intros c Hc; cbn beta in Hc; lia. }
  destruct (pad_start0 2 (Z_to_string (m - 1 + 1)) ++ [47%N]
            ++ pad_start0 2 (Z_to_string d) ++ [47%N] ++ Z_to_string y)
    as [| c s] eqn:Es.
  { by destruct (pad_start0 2 (Z_to_string (m - 1 + 1))). }
  apply Forall_cons in Hu as [Hc _]. cbn [falsy orb].
  rewrite !bool_decide_eq_false_2; [reflexivity | |];
    intros [= -> _]; lia.
Qed.

Lemma rowDate_of_format tz z :
  Z.abs (z * msPerDay - tz) <= 8640000000000000 ->
  ~ 0 <= fst (fst (civil_from_days z)) <= 99 ->
  rowDate tz (split [47%N] (formatDate tz (Some (z * msPerDay - tz))))
  = Some (z * msPerDay - tz).
Proof.
  intros Hz Hy. rewrite date_parts_of_format.
  pose proof (civil_round_trip z) as Hrt. pose proof (MakeDay_civil z 0) as Hmk.
  destruct (civil_from_days z) as [[y m] d]. cbn [fst] in Hy.
  destruct Hrt as (Hm & Hd & _).
  change (rowDate tz [?a; ?b; ?c])
    with (Date_local tz (parseInt c) ((fun m => m - 1) <$> parseInt a) (parseInt b)).
  rewrite parseInt_Z_to_string, !parseInt_pad2 by lia.
  cbn [fmap option_fmap option_map]. unfold Date_local. cbn [mbind option_bind].
  unfold full_year.
  replace ((0 <=? y) && (y <=? 99)) with false by lia.
  rewrite !Z.add_0_r in Hmk. rewrite Hmk. unfold UTC, MakeDate.
  rewrite Z.add_0_r. by apply TimeClip_in_range.
Qed.

(** X8. A row whose date is written the way the summary prints dates,
    month, day and year with a slash between them, counts exactly when its
    day is one of the fourteen days of the period of the run: the first
    and the last day are both included. *)
Theorem X8_formatted_row_counts_within_fourteen_days
  (tz t z : Z) (row : Row) :
  - msPerDay < tz < msPerDay ->
  Z.abs t <= 8640000000000000 - 14 * msPerDay ->
  Z.abs (z * msPerDay - tz) <= 8640000000000000 ->
  ~ 0 <= fst (fst (civil_from_days z)) <= 99 ->
  row !! js "Date" = Some (formatDate tz (Some (z * msPerDay - tz))) ->
  exists first_day,
    fst (getPayPeriod tz t) = Some (first_day * msPerDay - tz)
    /\ (in_period tz (getPayPeriod tz t) row = true
        <-> first_day <= z <= first_day + 13).
Proof.
  intros Htz Ht Hz Hy Hrow.
  pose proof (getPayPeriod_index tz t Htz Ht) as Hp. cbv zeta in Hp.
  set (i := (t - (20421 * msPerDay - tz)) / msPerDay / 14) in *.
  exists (20421 + 14 * i). rewrite Hp. cbn [fst snd]. split; [reflexivity |].
  pose proof (format_readable tz z row Hrow) as Hr.
  unfold unreadable in Hr. apply orb_false_iff in Hr as [Hskip Hlen].
  apply negb_false_iff in Hlen.
  unfold in_period. rewrite Hskip, Hlen. cbn [negb andb fst snd].
  unfold date_parts. rewrite Hrow. change (default [] (Some ?x)) with x.
  rewrite rowDate_of_format by assumption.
  unfold date_ge, date_le, msPerDay. rewrite andb_true_iff. lia.
Qed.

End DatedRows.

Lemma X8_witness :
  exists first_day,
    fst (GymCommon.getPayPeriod 0 (local_midnight 0 2025 12 10))
    = Some (first_day * JS.msPerDay - 0)
    /\ (in_period 0
          (GymCommon.getPayPeriod 0 (local_midnight 0 2025 12 10))
          (shift_row "12/12/2025" "2" "9:00" "11:00") = true
        <-> first_day <= 20434 <= first_day + 13).
Proof.
  apply (X8_formatted_row_counts_within_fourteen_days
           0 (local_midnight 0 2025 12 10) 20434).
  - unfold JS.msPerDay. lia.
  - vm_compute. discriminate.
  - vm_compute. discriminate.
  - vm_compute. intros [_ Hle]. apply Hle. reflexivity.
  - vm_compute. reflexivity.
Defined.

(** ** The runs of the gym-shift summaries *)
Section GymRuns.
Import JS GymCommon.
Context {num : Type} `{Number num}.
Variable tz : Z.

(** X9. When the sheet cannot be read, the request rejected or answered
    with an error status, the GitHub-Actions script sends nothing and ends
    with exit code 1.  The stand-alone script goes on with the rows of the
    local file, or with none: whether it ends with exit code 0 is up to
    the relay alone, and without a file its message says that no shifts
    are recorded and that the total is that of zero hours. *)
Theorem X9_sheet_that_cannot_be_read
  (env : GymShifts.Env) (env_gh : GymShiftsGH.Env) :
  (forall csv, GymShifts.sheet env <> Some (true, csv)) ->
  (forall csv, GymShiftsGH.sheet env_gh <> Some (true, csv)) ->
  let rows := match GymShifts.shifts_file env with
              | Some content => parseCSV content
              | None => []
              end in
  let period := getPayPeriod tz (GymShifts.now env) in
  GymShiftsGH.main tz env_gh = (1, [])
  /\ GymShifts.main tz env
     = (if GymShifts.transport env (GymShifts.summary tz env rows)
        then (0, [GymShifts.summary tz env rows]) else (1, []))
  /\ (GymShifts.shifts_file env = None ->
      text (GymShifts.summary tz env rows)
      = js "Pay Period: " ++ formatDate tz (fst period) ++ [32; 8211; 32]%N
        ++ formatDate tz (snd period) ++ [LF; LF]
        ++ js "No shifts recorded for this pay period" ++ [LF; LF]
        ++ js "Total Hours: " ++ num_toFixed1 num_zero).
Proof.
  intros Hsheet Hsheet_gh rows period. split; [| split].
  - unfold GymShiftsGH.main, GymShiftsGH.fetchShifts.
    destruct (falsy _ || falsy _); [reflexivity |].
    destruct (GymShiftsGH.sheet env_gh) as [[[|] csv] |]; try reflexivity.
    by destruct (Hsheet_gh csv).
  - unfold GymShifts.main, GymShifts.fetchShifts. subst rows.
    destruct (GymShifts.sheet env) as [[[|] csv] |];
      [by destruct (Hsheet csv) | |];
      by destruct (GymShifts.shifts_file env).
  - intros Hfile. subst rows. rewrite Hfile. reflexivity.
Qed.

(** X10. The GitHub-Actions script ends with exit code 0 exactly when both
    credentials are set, the sheet answers with a success status and the
    relay accepts the summary of its rows; the relay then has that one
    message, and none otherwise. *)
Theorem X10_gh_exit_code (env : GymShiftsGH.Env) :
  (fst (GymShiftsGH.main tz env) = 0
   <-> falsy (GymShiftsGH.GMAIL_USER env) = false
       /\ falsy (GymShiftsGH.GMAIL_APP_PASSWORD env) = false
       /\ exists csv,
            GymShiftsGH.sheet env = Some (true, csv)
            /\ GymShiftsGH.transport env (GymShiftsGH.summary tz env (parseCSV csv))
               = true
            /\ snd (GymShiftsGH.main tz env)
               = [GymShiftsGH.summary tz env (parseCSV csv)])
  /\ (fst (GymShiftsGH.main tz env) <> 0 ->
      GymShiftsGH.main tz env = (1, [])).
Proof.
  unfold GymShiftsGH.main, GymShiftsGH.fetchShifts.
  destruct (falsy (GymShiftsGH.GMAIL_USER env)); cbn [orb].
  { split; [| reflexivity]. split; [discriminate | by intros [? _]]. }
  destruct (falsy (GymShiftsGH.GMAIL_APP_PASSWORD env)).
  { split; [| reflexivity]. split; [discriminate | by intros (_ & ? & _)]. }
  destruct (GymShiftsGH.sheet env) as [[[|] csv] |].
  - destruct (GymShiftsGH.transport env _) eqn:Et.
    + split; [| by intros []]. split; [| reflexivity]. intros _.
      split; [reflexivity |]. split; [reflexivity |]. exists csv. by rewrite Et.
    + split; [| reflexivity]. split; [discriminate |].
      intros (_ & _ & csv' & [= <-] & Ht & _). congruence.
  - split; [| reflexivity]. split; [discriminate |].
    by intros (_ & _ & csv' & ? & _).
  - split; [| reflexivity]. split; [discriminate |].
    by intros (_ & _ & csv' & ? & _).
Qed.

End GymRuns.

Lemma X9_witness :
  GymShiftsGH.main (H := JS.Fixed.number) 0 env_gh_no_sheet = (1, [])
  /\ fst (GymShifts.main (H := JS.Fixed.number) 0 env_no_sheet) = 0.
Proof.
  destruct (X9_sheet_that_cannot_be_read (H := JS.Fixed.number) 0
              env_no_sheet env_gh_no_sheet) as (Hgh & Hmain & _).
  - intros csv. discriminate.
  - intros csv. discriminate.
  - split; [exact Hgh |]. rewrite Hmain. reflexivity.
Defined.

(** ** More on the runs of the event pipeline *)
Section MoreRuns.
Import JS EventAlerts.
Context {num : Type} `{Number num}.
Variable intl : Intl.

(** The relay accepts the messages of a prefix of the events. *)
Lemma deliveries_prefix env events : forall ob,
  exists k,
    (k <= length events)%nat
    /\ fst (deliveries env ob events) = map (email_of env) (take k events)
    /\ (snd (deliveries env ob events) = true -> k = length events).
Proof.
  induction events as [| e rest IH]; intros ob; cbn [deliveries].
  - exists 0%nat. repeat split; reflexivity || lia.
  - destruct (transport env ob (email_of env e)).
    + destruct (IH (ob ++ [email_of env e])) as (k & Hk & Hfst & Hsnd).
      destruct (deliveries env (ob ++ [email_of env e]) rest) as [ms ok].
      cbn [fst snd] in *. exists (S k). cbn [length take map].
      split; [lia |]. split; [by rewrite Hfst |]. intros Hok. by rewrite Hsnd.
    + exists 0%nat. cbn. split; [lia |]. split; [reflexivity | discriminate].
Qed.

(** The outbox after a run, whatever its outcome. *)
Lemma main_outbox env w :
  outbox (snd (main intl env w))
  = outbox w
    ++ match new_events intl env w with
       | Some new => fst (deliveries env (outbox w) (take 10 new))
       | None => []
       end.
Proof.
  unfold main, new_events, events_of. rewrite main_try_unfold.
  destruct (feed env) as [icalText |]; [| by rewrite app_nil_r].
  cbn [fmap option_fmap option_map mbind option_bind]. cbv zeta.
  destruct (seen_at_start (cache_file w)) as [seenIds |]; [| by rewrite app_nil_r].
  cbn [mbind option_bind].
  destruct (deliveries env (outbox w) _) as [ms [|]]; [| reflexivity].
  destruct (set_prop _ _ _); reflexivity.
Qed.

(** X11. A run adds at most ten messages to those the relay has accepted
    before, whether it completes or not: the messages of the first events
    of [new], in the order of the feed; without a feed or a seen-set it
    adds none. *)
Theorem X11_at_most_ten_messages_per_run (env : Env) (w : World) :
  exists k,
    (k <= 10)%nat
    /\ outbox (snd (main intl env w))
       = outbox w
         ++ map (email_of env) (take k (default [] (new_events intl env w)))
    /\ (fst (main intl env w) = 0 ->
        forall new, new_events intl env w = Some new -> k = length (take 10 new)).
Proof.
  rewrite main_outbox.
  destruct (new_events intl env w) as [new |] eqn:Hnew.
  - destruct (deliveries_prefix env (take 10 new) (outbox w)) as (k & Hk & Hfst & Hsnd).
    exists k. rewrite length_take in Hk. split; [lia |].
    cbn [default]. split.
    + rewrite Hfst. do 2 f_equal. rewrite take_take. f_equal. lia.
    + intros Hexit new' [= <-]. apply Hsnd.
      revert Hexit. unfold main. rewrite main_try_unfold.
      unfold new_events, events_of in Hnew.
      destruct (feed env) as [icalText |]; [| discriminate].
      cbn [fmap option_fmap option_map mbind option_bind] in Hnew. cbv zeta.
      destruct (seen_at_start (cache_file w)) as [seenIds |]; [| discriminate].
      cbn [mbind option_bind] in Hnew. injection Hnew as <-.
      destruct (deliveries env (outbox w) _) as [ms [|]]; [reflexivity | discriminate].
  - exists 0%nat. split; [lia |]. split; [reflexivity |]. intros _ new. discriminate.
Qed.

(** *** A cache file that holds no object *)

Lemma seen_at_start_primitive file :
  is_primitive (loadCache file) = true ->
  seen_at_start file = match loadCache file with JNull => None | _ => Some [] end.
Proof. unfold seen_at_start. by destruct (loadCache file). Qed.

Lemma set_prop_primitive (v : json num) k x :
  is_primitive v = true -> set_prop v k x = None.
Proof. by destruct v. Qed.

Lemma main_primitive env w :
  is_primitive (loadCache (cache_file w)) = true ->
  fst (main intl env w) = 1 /\ cache_file (snd (main intl env w)) = cache_file w.
Proof.
  intros Hprim.
  assert (Hexit : fst (main intl env w) = 1).
  { unfold main. rewrite main_try_unfold.
    destruct (feed env); [| reflexivity]. cbv zeta.
    destruct (seen_at_start (cache_file w)); [| reflexivity].
    destruct (deliveries env (outbox w) _) as [ms [|]]; [| reflexivity].
    by rewrite set_prop_primitive. }
  split; [exact Hexit |]. apply main_failed_keeps_file. rewrite Hexit. discriminate.
Qed.

Lemma filter_is_new_nil (events : list Event) :
  List.filter (is_new (num := num) []) events = events.
Proof. induction events as [| e events IH]; [reflexivity |]. cbn. by rewrite IH. Qed.

(** X12. A cache file whose text is JSON for null, a boolean, a number or
    a string stops the pipeline for good: every run ends with exit code 1
    and leaves the file as it is.  Unless the value is null, each of these
    runs first offers the first ten events of the feed to the relay, all
    of them new to it every time. *)
Theorem X12_cache_without_object_fails_every_run
  (w : World) (envs : list Env) (env : Env) :
  is_primitive (loadCache (num := num) (cache_file w)) = true ->
  cache_file (runs intl envs w) = cache_file w
  /\ fst (main intl env (runs intl envs w)) = 1
  /\ (loadCache (num := num) (cache_file w) <> JNull ->
      new_events intl env (runs intl envs w) = events_of intl env).
Proof.
  intros Hprim.
  assert (Hfile : cache_file (runs intl envs w) = cache_file w).
  { revert w Hprim. induction envs as [| env1 envs IH]; intros w Hprim; [reflexivity |].
    cbn [runs fold_left]. destruct (main_primitive env1 w Hprim) as [_ Hkeep].
    fold (runs intl envs (snd (main intl env1 w))).
    rewrite IH by (by rewrite Hkeep). exact Hkeep. }
  split; [exact Hfile |]. split.
  - apply main_primitive. by rewrite Hfile.
  - intros Hnull. unfold new_events. rewrite Hfile, seen_at_start_primitive by assumption.
    destruct (events_of intl env) as [events |]; [| reflexivity].
    destruct (loadCache (cache_file w)); try contradiction;
      cbn; by rewrite filter_is_new_nil.
Qed.

(** X13. A cache file whose text is a JSON array is never updated: the
    run reads no ids from it, so every event of the feed is new, and a run
    that completes writes the array back as it was. *)
Theorem X13_cache_array_records_nothing
  (env : Env) (w : World) (l : list (json num)) :
  loadCache (cache_file w) = JArr l ->
  new_events intl env w = events_of intl env
  /\ (fst (main intl env w) = 0 ->
      cache_file (snd (main intl env w)) = saveCache (JArr l)).
Proof.
  intros Harr.
  assert (Hseen : seen_at_start (cache_file w) = Some []).
  { unfold seen_at_start. by rewrite Harr. }
  split.
  - unfold new_events. rewrite Hseen.
    destruct (events_of intl env) as [events |]; [| reflexivity].
    cbn. by rewrite filter_is_new_nil.
  - intros Hexit.
    destruct (main intl env w) as [code w'] eqn:Hrun. cbn [fst snd] in *. subst code.
    destruct (main_success intl env w w' Hrun)
      as (icalText & seenIds & cache' & _ & _ & Hset & ->).
    rewrite Harr in Hset. cbn [set_prop] in Hset. injection Hset as <-.
    reflexivity.
Qed.

(** *** The list [new] on a state *)

Lemma is_new_strings (l : list jsstring) (e : Event) :
  is_new (num := num) (map JStr l) e = bool_decide (id e ∉ l).
Proof.
  unfold is_new. destruct (set_has (map JStr l) (JStr (id e))) eqn:E; cbn [negb].
  - apply set_has_str, elem_of_JStr_map in E. by rewrite bool_decide_eq_false_2 by tauto.
  - rewrite bool_decide_eq_true_2; [reflexivity |].
    intros Hin. apply elem_of_JStr_map, set_has_str in Hin. congruence.
Qed.

Lemma filter_ext_elem {A} (f g : A -> bool) (l : list A) :
  (forall x, f x = g x) -> List.filter f l = List.filter g l.
Proof.
  intros Hfg. induction l as [| x l IH]; [reflexivity |]. cbn. by rewrite Hfg, IH.
Qed.

(** Every event of the feed whose id the state has not is in [new]. *)
Lemma new_events_complete env w ids events new e :
  loadCache (cache_file w) = seen_state ids ->
  events_of intl env = Some events ->
  new_events intl env w = Some new ->
  e ∈ events -> id e ∉ ids -> e ∈ new.
Proof.
  intros Hload Hevents Hnew He Hid.
  destruct (seen_at_start_state _ _ Hload) as (l & Hseen & Hl).
  unfold new_events in Hnew. rewrite Hevents, Hseen in Hnew.
  cbn [mbind option_bind] in Hnew. injection Hnew as <-.
  apply list_elem_of_In, filter_In. split; [by apply list_elem_of_In |].
  rewrite is_new_strings. apply bool_decide_eq_true_2. by rewrite Hl.
Qed.

(** X14. On a state, [new] is the list of the events of the feed whose id
    is none of the ids of the state, in the order of the feed.  An id that
    the feed has twice and the state has not is twice in [new]. *)
Theorem X14_new_events_are_the_unseen_ones
  (env : Env) (w : World) (ids : list jsstring) (events : list Event) :
  loadCache (cache_file w) = seen_state ids ->
  events_of intl env = Some events ->
  new_events intl env w
  = Some (List.filter (fun e => bool_decide (id e ∉ ids)) events).
Proof.
  intros Hload Hevents.
  destruct (seen_at_start_state _ _ Hload) as (l & Hseen & Hl).
  unfold new_events. rewrite Hevents, Hseen. cbn [mbind option_bind]. f_equal.
  apply filter_ext_elem. intros e. rewrite is_new_strings.
  apply bool_decide_ext. by rewrite Hl.
Qed.

(** *** A second run on the same feed *)

Lemma set_add_all_nodup (ids : list jsstring) : forall acc,
  NoDup acc ->
  exists l, set_add_all (num := num) (map JStr acc) (map JStr ids) = map JStr l
            /\ NoDup l /\ forall x, x ∈ l <-> x ∈ acc \/ x ∈ ids.
Proof.
  induction ids as [| a ids IH]; intros acc Hacc.
  - exists acc. split; [reflexivity |]. split; [assumption |].
    intros x. rewrite elem_of_nil. tauto.
  - cbn [map set_add_all fold_left].
    destruct (set_add_str (map JStr acc) a) as [[Hin ->] | [Hnin ->]].
    + destruct (IH acc Hacc) as (l & El & Hnd & Hl). exists l.
      split; [exact El |]. split; [exact Hnd |].
      intros x. rewrite Hl, elem_of_cons. apply elem_of_JStr_map in Hin.
      split; [tauto | intros [? | [-> | ?]]; tauto].
    + change [JStr a] with (map (JStr (num := num)) [a]). rewrite <- map_app.
      assert (Hacc' : NoDup (acc ++ [a])).
      { apply NoDup_app. split; [assumption |]. split; [| apply NoDup_singleton].
        intros x Hx Hxa. apply list_elem_of_singleton in Hxa as ->.
        by apply Hnin, elem_of_JStr_map. }
      destruct (IH (acc ++ [a]) Hacc') as (l & El & Hnd & Hl). exists l.
      split; [exact El |]. split; [exact Hnd |].
      intros x. rewrite Hl, elem_of_app, !elem_of_cons, elem_of_nil. tauto.
Qed.

Lemma mark_seen_nodup (new : list Event) : forall acc,
  NoDup acc ->
  exists l, mark_seen (num := num) (map JStr acc) new = map JStr l
            /\ NoDup l
            /\ forall x, x ∈ l <-> x ∈ acc \/ exists e, e ∈ new /\ id e = x.
Proof.
  induction new as [| e new IH]; intros acc Hacc.
  - exists acc. split; [reflexivity |]. split; [assumption |].
    intros x. split; [tauto |].
    intros [? | (e & He & _)]; [assumption | by apply elem_of_nil in He].
  - rewrite mark_seen_cons.
    destruct (set_add_str (map JStr acc) (id e)) as [[Hin ->] | [Hnin ->]].
    + destruct (IH acc Hacc) as (l & El & Hnd & Hl). exists l.
      split; [exact El |]. split; [exact Hnd |].
      intros x. rewrite Hl. apply elem_of_JStr_map in Hin. split.
      * intros [? | (e' & He' & <-)]; [by left |].
        right. exists e'. split; [by right | reflexivity].
      * intros [? | (e' & He' & <-)]; [by left |].
        apply elem_of_cons in He' as [-> | He']; [by left |].
        right. by exists e'.
    + change [JStr (id e)] with (map (JStr (num := num)) [id e]). rewrite <- map_app.
      assert (Hacc' : NoDup (acc ++ [id e])).
      { apply NoDup_app. split; [assumption |]. split; [| apply NoDup_singleton].
        intros x Hx Hxa. apply list_elem_of_singleton in Hxa as ->.
        by apply Hnin, elem_of_JStr_map. }
      destruct (IH (acc ++ [id e]) Hacc') as (l & El & Hnd & Hl). exists l.
      split; [exact El |]. split; [exact Hnd |].
      intros x. rewrite Hl, elem_of_app, list_elem_of_singleton. split.
      * intros [[? | ->] | (e' & He' & <-)]; [by left | |].
        -- right. exists e. split; [left | reflexivity].
        -- right. exists e'. split; [by right | reflexivity].
      * intros [? | (e' & He' & <-)]; [by left; left |].
        apply elem_of_cons in He' as [-> | He']; [by left; right |].
        right. by exists e'.
Qed.

(** The seen-set of an array of strings without repetition is the array. *)
Lemma set_add_all_fresh (l : list jsstring) : forall acc,
  NoDup (acc ++ l) ->
  set_add_all (num := num) (map JStr acc) (map JStr l) = map JStr (acc ++ l).
Proof.
  induction l as [| a l IH]; intros acc Hnd.
  - by rewrite app_nil_r.
  - cbn [map set_add_all fold_left].
    destruct (set_add_str (map JStr acc) a) as [[Hin _] | [_ ->]].
    + apply elem_of_JStr_map in Hin. apply NoDup_app in Hnd as (_ & Hdis & _).
      exfalso. apply (Hdis a Hin). left.
    + change [JStr a] with (map (JStr (num := num)) [a]). rewrite <- map_app.
      change (fold_left set_add ?x ?y) with (set_add_all y x).
      rewrite IH by (by rewrite <- app_assoc). by rewrite <- app_assoc.
Qed.

(** The state a completed run writes has no id twice. *)
Lemma main_writes_nodup env w w' ids :
  loadCache (cache_file w) = seen_state ids ->
  main intl env w = (0, w') ->
  exists new ids',
    new_events intl env w = Some new
    /\ cache_file w' = saveCache (seen_state ids')
    /\ NoDup ids'
    /\ forall x, x ∈ ids' <-> x ∈ ids \/ exists e, e ∈ new /\ id e = x.
Proof.
  intros Hload Hrun.
  destruct (main_success intl env w w' Hrun)
    as (icalText & seenIds & cache' & Hfeed & Hseen & Hset & ->).
  unfold seen_at_start in Hseen. rewrite Hload in Hseen.
  unfold seen_state, get_prop in Hseen. cbn [obj_get] in Hseen.
  rewrite str_eqb_refl in Hseen. cbn [mbind option_bind Set_new] in Hseen.
  destruct (set_add_all_nodup ids [] (NoDup_nil_2 (A := jsstring))) as (l & El & Hnd & Hl).
  change (@nil (json num)) with (map (JStr (num := num)) []) in Hseen.
  rewrite El in Hseen. injection Hseen as <-.
  set (new := List.filter _ _) in Hset.
  destruct (mark_seen_nodup new l Hnd) as (ids' & Eids' & Hnd' & Hids').
  exists new, ids'. split; [| split; [| split]].
  - unfold new_events, events_of, seen_at_start. rewrite Hfeed, Hload.
    unfold seen_state, get_prop. cbn [obj_get]. rewrite str_eqb_refl.
    cbn [fmap option_fmap option_map mbind option_bind Set_new].
    change (@nil (json num)) with (map (JStr (num := num)) []).
    by rewrite El.
  - cbn [cache_file]. f_equal.
    rewrite Hload, Eids', set_prop_state in Hset. by injection Hset as <-.
  - exact Hnd'.
  - intros x. rewrite Hids', Hl, elem_of_nil. tauto.
Qed.

Lemma filter_none {A} (f : A -> bool) (l : list A) :
  (forall x, x ∈ l -> f x = false) -> List.filter f l = [].
Proof.
  induction l as [| x l IH]; intros Hf; [reflexivity |]. cbn.
  rewrite (Hf x) by left. apply IH. intros y Hy. apply Hf. by right.
Qed.

(** X15. After a run that completed on a state, a run on a feed that has
    no other ids changes nothing: it sends no message, it writes the text
    the file already has, and it ends with exit code 0. *)
Theorem X15_run_without_new_ids_changes_nothing
  (env env' : Env) (w0 w1 : World) (ids0 : list jsstring)
  (events events' : list Event) :
  loadCache (cache_file w0) = seen_state ids0 ->
  main intl env w0 = (0, w1) ->
  events_of intl env = Some events ->
  events_of intl env' = Some events' ->
  (forall e', e' ∈ events' -> exists e, e ∈ events /\ id e' = id e) ->
  main intl env' w1 = (0, w1).
Proof.
  intros Hload Hrun Hevents Hevents' Hsame.
  destruct (main_writes_nodup env w0 w1 ids0 Hload Hrun)
    as (new & ids1 & Hnew & Hfile & Hnd & Hids1).
  assert (Hseen : seen_at_start (cache_file w1) = Some (map JStr ids1)).
  { unfold seen_at_start. rewrite Hfile, load_saved_state.
    unfold seen_state, get_prop. cbn [obj_get]. rewrite str_eqb_refl.
    cbn [mbind option_bind Set_new]. f_equal.
    change (@nil (json num)) with (map (JStr (num := num)) []).
    by rewrite set_add_all_fresh. }
  unfold events_of in Hevents'.
  destruct (feed env') as [text' |] eqn:Hfeed'; [| discriminate].
  cbn in Hevents'. injection Hevents' as Hevents'.
  unfold main. rewrite main_try_unfold, Hfeed'. cbv zeta. rewrite Hseen, Hevents'.
  rewrite filter_none.
  - cbn [take deliveries mark_seen fold_left].
    rewrite Hfile, load_saved_state, set_prop_state, app_nil_r.
    destruct w1 as [file1 ob1]. cbn [cache_file outbox] in *. by rewrite Hfile.
  - intros e' He'. rewrite is_new_strings. apply bool_decide_eq_false_2.
    intros Hfresh. apply Hfresh, Hids1.
    destruct (Hsame e' He') as (e & He & ->).
    destruct (decide (id e ∈ ids0)) as [Hin | Hnin]; [by left |].
    right. exists e. split; [| reflexivity].
    by apply (new_events_complete env w0 ids0 events new e).
Qed.

(** *** A run that failed on a delivery *)

(** X16. When the relay refuses a message, the run forgets the messages
    it has sent: the next run, on the same events and with a relay that
    accepts everything, sends the first ten events of [new] again, those
    included that were delivered before the refusal. *)
Theorem X16_failed_run_is_repeated_in_full
  (env env' : Env) (w : World) (o : object) (new : list Event) :
  loadCache (cache_file w) = JObj o ->
  new_events intl env w = Some new ->
  fst (main intl env w) = 1 ->
  events_of intl env' = events_of intl env ->
  GMAIL_USER env' = GMAIL_USER env ->
  (forall ob m, transport env' ob m = true) ->
  exists k,
    (k < length (take 10 new))%nat
    /\ outbox (snd (main intl env w))
       = outbox w ++ map (email_of env) (take k new)
    /\ fst (main intl env' (snd (main intl env w))) = 0
    /\ outbox (snd (main intl env' (snd (main intl env w))))
       = outbox w ++ map (email_of env) (take k new)
         ++ map (email_of env) (take 10 new).
Proof.
  intros Hobj Hnew Hexit Hevents Huser Hrelay.
  pose proof (main_failed_keeps_file intl env w ltac:(rewrite Hexit; discriminate))
    as Hkeep.
  assert (Hrefused : snd (deliveries env (outbox w) (take 10 new)) = false).
  { revert Hexit. unfold main. rewrite main_try_unfold.
    unfold new_events, events_of in Hnew.
    destruct (feed env) as [icalText |]; [| discriminate].
    cbn [fmap option_fmap option_map mbind option_bind] in Hnew. cbv zeta.
    destruct (seen_at_start (cache_file w)) as [seenIds |]; [| discriminate].
    cbn [mbind option_bind] in Hnew. injection Hnew as <-.
    destruct (deliveries env (outbox w) _) as [ms [|]]; [| reflexivity].
    rewrite Hobj. cbn [set_prop]. discriminate. }
  destruct (deliveries_prefix env (take 10 new) (outbox w)) as (k & Hk & Hfst & Hsnd).
  assert (Hlt : (k < length (take 10 new))%nat).
  { destruct (decide (k = length (take 10 new))) as [-> | Hne]; [| lia].
    exfalso. rewrite firstn_all in Hfst.
    pose proof (deliveries_all env (outbox w) (take 10 new)) as Hall.
    clear Hsnd. revert Hrefused Hfst.
    generalize (outbox w). generalize (take 10 new). clear.
    induction l as [| e l IH]; intros ob; cbn [deliveries]; [discriminate |].
    destruct (transport env ob (email_of env e)); [| discriminate].
    specialize (IH (ob ++ [email_of env e])).
    destruct (deliveries env (ob ++ [email_of env e]) l) as [ms ok].
    cbn [fst snd map] in *. intros Hok [= Hms]. by apply IH. }
  assert (Hout : outbox (snd (main intl env w))
                 = outbox w ++ map (email_of env) (take k new)).
  { rewrite main_outbox, Hnew, Hfst. do 2 f_equal. rewrite take_take. f_equal.
    rewrite length_take in Hlt. lia. }
  exists k. split; [exact Hlt |]. split; [exact Hout |].
  assert (Hnew' : new_events intl env' (snd (main intl env w)) = Some new).
  { unfold new_events in *. by rewrite Hevents, Hkeep. }
  assert (Haccept : forall events ob,
             deliveries env' ob events = (map (email_of env) events, true)).
  { induction events as [| e events IH]; intros ob; cbn [deliveries map]; [reflexivity |].
    rewrite Hrelay, IH. unfold email_of. by rewrite Huser. }
  remember (snd (main intl env w)) as w1 eqn:Hw1. clear Hw1.
  assert (Hrun' : fst (main intl env' w1) = 0).
  { unfold main. rewrite main_try_unfold.
    unfold new_events, events_of in Hnew'.
    destruct (feed env') as [icalText |]; [| discriminate].
    cbn [fmap option_fmap option_map mbind option_bind] in Hnew'. cbv zeta.
    destruct (seen_at_start (cache_file w1)) as [seenIds |]; [| discriminate].
    rewrite Haccept, Hkeep, Hobj. reflexivity. }
  split; [exact Hrun' |].
  rewrite main_outbox, Hnew', Haccept, Hout. cbn [fst]. by rewrite <- app_assoc.
Qed.

End MoreRuns.

Lemma X12_witness :
  EventAlerts.cache_file
    (runs (H := JS.Fixed.number) iso_intl [env_eleven; env_eleven] (world_of_file "true"))
  = Some (JS.js "true")
  /\ fst (EventAlerts.main (H := JS.Fixed.number) iso_intl env_eleven
            (runs (H := JS.Fixed.number) iso_intl [env_eleven; env_eleven]
                  (world_of_file "true"))) = 1
  /\ new_events (H := JS.Fixed.number) iso_intl env_eleven
       (runs (H := JS.Fixed.number) iso_intl [env_eleven; env_eleven]
             (world_of_file "true"))
     = Some eleven_new.
Proof.
  destruct (X12_cache_without_object_fails_every_run (H := JS.Fixed.number) iso_intl
              (world_of_file "true") [env_eleven; env_eleven] env_eleven)
    as (Hfile & Hexit & Hnew); [vm_compute; reflexivity |].
  split; [exact Hfile |]. split; [exact Hexit |].
  rewrite Hnew by (vm_compute; discriminate). vm_compute. reflexivity.
Defined.

Lemma X13_witness :
  new_events (H := JS.Fixed.number) iso_intl env_eleven (world_of_file "[]")
  = events_of iso_intl env_eleven.
Proof.
  apply (X13_cache_array_records_nothing (H := JS.Fixed.number) iso_intl env_eleven
           (world_of_file "[]") []).
  vm_compute. reflexivity.
Defined.

Lemma X14_witness :
  new_events (H := JS.Fixed.number) iso_intl env_eleven first_world
  = Some (List.filter (fun e => bool_decide (EventAlerts.id e ∉ @nil jsstring)) eleven_new).
Proof.
  apply (X14_new_events_are_the_unseen_ones (H := JS.Fixed.number) iso_intl
           env_eleven first_world [] eleven_new); vm_compute; reflexivity.
Defined.

Lemma X15_witness :
  let w1 := snd (EventAlerts.main (H := JS.Fixed.number) iso_intl env_eleven first_world) in
  EventAlerts.main (H := JS.Fixed.number) iso_intl env_eleven w1 = (0, w1).
Proof.
  intros w1.
  apply (X15_run_without_new_ids_changes_nothing (H := JS.Fixed.number) iso_intl
           env_eleven env_eleven first_world w1 [] eleven_new eleven_new).
  - reflexivity.
  - exact first_run_completes.
  - vm_compute. reflexivity.
  - vm_compute. reflexivity.
  - intros e' He'. exists e'. split; [exact He' | reflexivity].
Defined.

Lemma X16_witness :
  exists k,
    (k < length (take 10 eleven_new))%nat
    /\ EventAlerts.outbox
         (snd (EventAlerts.main (H := JS.Fixed.number) iso_intl env_flaky first_world))
       = EventAlerts.outbox first_world
         ++ map (EventAlerts.email_of env_flaky) (take k eleven_new)
    /\ fst (EventAlerts.main (H := JS.Fixed.number) iso_intl env_eleven
              (snd (EventAlerts.main (H := JS.Fixed.number) iso_intl env_flaky
                      first_world))) = 0
    /\ EventAlerts.outbox
         (snd (EventAlerts.main (H := JS.Fixed.number) iso_intl env_eleven
                 (snd (EventAlerts.main (H := JS.Fixed.number) iso_intl env_flaky
                         first_world))))
       = EventAlerts.outbox first_world
         ++ map (EventAlerts.email_of env_flaky) (take k eleven_new)
         ++ map (EventAlerts.email_of env_flaky) (take 10 eleven_new).
Proof.
  apply (X16_failed_run_is_repeated_in_full (H := JS.Fixed.number) iso_intl
           env_flaky env_eleven first_world [(EventAlerts.SEEN_IDS, JS.JArr [])]
           eleven_new).
  - reflexivity.
  - vm_compute. reflexivity.
  - vm_compute. reflexivity.
  - vm_compute. reflexivity.
  - reflexivity.
  - intros ob m. reflexivity.
Defined.

(** ** More on the parser of the feed *)
Section MoreParser.
Import JS EventAlerts.
Context {num : Type} `{Number num}.
Variable intl : Intl.

(** *** Backslashes *)

Lemma replace_single_empty c s : c ∉ replace_all [c] [] s.
Proof.
  unfold replace_all. induction s as [| x s IH]; cbn [replace_go].
  - apply not_elem_of_nil.
  - rewrite starts_with_single.
    destruct (N.eqb_spec c x) as [-> | Hne]; cbn [length Nat.sub app]; [exact IH |].
    apply not_elem_of_cons. split; [exact Hne | exact IH].
Qed.

Lemma elem_of_drop_while f (x : N) s : x ∈ drop_while f s -> x ∈ s.
Proof.
  induction s as [| c s IH]; cbn; [tauto |].
  destruct (f c); [| tauto]. intros Hx. right. by apply IH.
Qed.

Lemma elem_of_trim (x : N) s : x ∈ trim s -> x ∈ s.
Proof.
  unfold trim, trim_start. rewrite list_elem_of_In, <- in_rev, <- list_elem_of_In.
  intros Hx. apply elem_of_drop_while in Hx.
  rewrite list_elem_of_In, <- in_rev, <- list_elem_of_In in Hx.
  by apply elem_of_drop_while in Hx.
Qed.

Lemma clean_title_no_backslash s : BACKSLASH ∉ clean_title s.
Proof. intros Hin. apply elem_of_trim in Hin. by apply replace_single_empty in Hin. Qed.

Lemma clean_location_no_backslash s : BACKSLASH ∉ clean_location s.
Proof. intros Hin. apply elem_of_trim in Hin. by apply replace_single_empty in Hin. Qed.

Lemma match_field_falsy key params s :
  falsy (match_field key params s) = false ->
  exists cap, match_field key params s = Some cap /\ cap <> [].
Proof.
  destruct (match_field key params s) as [cap |] eqn:E; [| discriminate].
  intros _. exists cap. split; [reflexivity |]. by apply match_field_nonempty in E.
Qed.

(** X17. Every event the loop builds comes from a block that has an
    identifier and a title, both with at least one code unit.  Its id is
    the identifier trimmed and its title is made from the title of the
    block: the title "Untitled Event" of the code is never used.  Neither
    its title nor its location has a backslash. *)
Theorem X17_events_have_id_and_title
  (today now : Z) (block : jsstring) (e : Event) :
  parseBlock intl today now block = Some e ->
  exists uid summary,
    match_field (js "UID:") false block = Some uid
    /\ match_field (js "SUMMARY") true block = Some summary
    /\ uid <> [] /\ summary <> []
    /\ id e = trim uid
    /\ title e = clean_title summary
    /\ (BACKSLASH ∉ title e)
    /\ (BACKSLASH ∉ location e)
    /\ timestamp e = toISOString now.
Proof.
  unfold parseBlock.
  destruct (falsy (match_field (js "UID:") false block)) eqn:Eu; [discriminate |].
  destruct (falsy (match_field (js "SUMMARY") true block)) eqn:Es; [discriminate |].
  cbn [orb].
  destruct (match_field_falsy _ _ _ Eu) as (uid & Huid & Hu).
  destruct (match_field_falsy _ _ _ Es) as (summary & Hsummary & Hs).
  destruct (is_past _ today); [discriminate |]. intros [= <-].
  exists uid, summary. rewrite Huid, Hsummary. cbn [id title location timestamp].
  change (default [] (Some ?x)) with x.
  assert (Hor : or_else summary (js "Untitled Event") = summary)
    by (by destruct summary).
  rewrite Hor. repeat split; try assumption; try reflexivity.
  - apply clean_title_no_backslash.
  - destruct (falsy (match_field (js "LOCATION:") false block)).
    + unfold TBD, BACKSLASH. rewrite !not_elem_of_cons.
      repeat split; try discriminate. apply not_elem_of_nil.
    + apply clean_location_no_backslash.
Qed.

(** X18. A block with an identifier and a title and no start is kept
    whatever [today] is, with the text TBD for its date and its time;
    without a location its location is TBD, and without a link its link
    is the page of all events. *)
Theorem X18_block_without_start_is_kept
  (today now : Z) (block uid summary : jsstring) :
  match_field (js "UID:") false block = Some uid ->
  match_field (js "SUMMARY") true block = Some summary ->
  match_field (js "DTSTART") true block = None ->
  exists e,
    parseBlock intl today now block = Some e
    /\ id e = trim uid
    /\ date e = TBD /\ time e = TBD
    /\ (match_field (js "LOCATION:") false block = None -> location e = TBD)
    /\ (match_field (js "URL:") false block = None -> url e = DEFAULT_URL).
Proof.
  intros Huid Hsummary Hstart. unfold parseBlock.
  rewrite (falsy_match_field _ _ _ _ Huid), (falsy_match_field _ _ _ _ Hsummary).
  rewrite Hstart, Huid. cbn [orb parseICalDate falsy is_past default].
  eexists. split; [reflexivity |]. cbn [id date time location url].
  repeat split; try reflexivity; by intros ->.
Qed.

(** *** A response that is no calendar *)

Lemma parseFeed_no_event today clock text :
  occurs ICAL_SEPARATOR (replace_all [BACKSLASH; 110%N] [LF] text) = false ->
  parseFeed intl today clock text = [].
Proof.
  intros Hno. unfold parseFeed, eventBlocks, split.
  by rewrite split_go_no_occurrence.
Qed.

(** X19. A response in which no event begins, an error page for one,
    gives no events.  The script does not look at the status of the
    response: on a state, the run completes, sends nothing and keeps the
    ids of the state. *)
Theorem X19_response_without_events
  (env : Env) (w : World) (text : jsstring) (ids : list jsstring) :
  feed env = Some text ->
  occurs ICAL_SEPARATOR (replace_all [BACKSLASH; 110%N] [LF] text) = false ->
  loadCache (cache_file w) = seen_state ids ->
  events_of intl env = Some []
  /\ fst (main intl env w) = 0
  /\ outbox (snd (main intl env w)) = outbox w
  /\ exists ids',
       cache_file (snd (main intl env w)) = saveCache (seen_state ids')
       /\ forall x, x ∈ ids' <-> x ∈ ids.
Proof.
  intros Hfeed Hno Hload.
  assert (Hevents : events_of intl env = Some []).
  { unfold events_of. rewrite Hfeed. cbn. by rewrite parseFeed_no_event. }
  split; [exact Hevents |].
  destruct (seen_at_start_state _ _ Hload) as (l & Hseen & Hl).
  unfold main. rewrite main_try_unfold, Hfeed. cbv zeta.
  rewrite Hseen, parseFeed_no_event by assumption.
  cbn [List.filter take deliveries mark_seen fold_left].
  rewrite Hload, set_prop_state. cbn [fst snd outbox cache_file].
  split; [reflexivity |]. split; [by rewrite app_nil_r |].
  exists l. split; [reflexivity | exact Hl].
Qed.

(** *** Well-formed starts *)

Lemma digit_cases x : 0 <= x <= 9 -> In x [0; 1; 2; 3; 4; 5; 6; 7; 8; 9].
Proof.
  intros Hx.
  assert (Hc : x = 0 \/ x = 1 \/ x = 2 \/ x = 3 \/ x = 4 \/ x = 5 \/ x = 6
               \/ x = 7 \/ x = 8 \/ x = 9) by lia.
  repeat (destruct Hc as [-> | Hc]; [cbn; auto 20 |]). subst x. cbn. auto 20.
Qed.

Lemma pad4 v :
  0 <= v <= 9999 ->
  exists a b c d, pad 4 v = [a; b; c; d] /\ parseInt [a; b; c; d] = Some v.
Proof.
  intros Hv.
  assert (Hd : 0 <= v / 1000 <= 9 /\ 0 <= v / 100 mod 10 <= 9
               /\ 0 <= v / 10 mod 10 <= 9 /\ 0 <= v mod 10 <= 9
               /\ 1000 * (v / 1000) + 100 * (v / 100 mod 10)
                  + 10 * (v / 10 mod 10) + v mod 10 = v)
    by (Z.div_mod_to_equations; lia).
  destruct Hd as (Ha & Hb & Hc & Hd & Hsum).
  assert (Hall :
    forallb (fun a => forallb (fun b => forallb (fun c => forallb (fun d =>
      let n := 1000 * a + 100 * b + 10 * c + d in
      (length (pad 4 n) =? 4)%nat && bool_decide (parseInt (pad 4 n) = Some n))
      [0; 1; 2; 3; 4; 5; 6; 7; 8; 9]) [0; 1; 2; 3; 4; 5; 6; 7; 8; 9])
      [0; 1; 2; 3; 4; 5; 6; 7; 8; 9]) [0; 1; 2; 3; 4; 5; 6; 7; 8; 9] = true)
    by (vm_compute; reflexivity).
  rewrite forallb_forall in Hall.
  specialize (Hall (v / 1000) (digit_cases _ Ha)).
  rewrite forallb_forall in Hall.
  specialize (Hall (v / 100 mod 10) (digit_cases _ Hb)).
  rewrite forallb_forall in Hall.
  specialize (Hall (v / 10 mod 10) (digit_cases _ Hc)).
  rewrite forallb_forall in Hall.
  specialize (Hall (v mod 10) (digit_cases _ Hd)).
  cbv zeta in Hall. rewrite Hsum in Hall.
  apply andb_true_iff in Hall as [Hlen Hparse].
  apply Nat.eqb_eq in Hlen. apply bool_decide_eq_true in Hparse.
  destruct (pad 4 v) as [| a [| b [| c [| d [| ? ?]]]]]; try discriminate Hlen.
  by exists a, b, c, d.
Qed.

Lemma pad2 v :
  0 <= v <= 99 ->
  exists a b, pad 2 v = [a; b] /\ parseInt [a; b] = Some v.
Proof.
  intros Hv.
  assert (Hd : 0 <= v / 10 <= 9 /\ 0 <= v mod 10 <= 9
               /\ 10 * (v / 10) + v mod 10 = v)
    by (Z.div_mod_to_equations; lia).
  destruct Hd as (Ha & Hb & Hsum).
  assert (Hall :
    forallb (fun a => forallb (fun b =>
      let n := 10 * a + b in
      (length (pad 2 n) =? 2)%nat && bool_decide (parseInt (pad 2 n) = Some n))
      [0; 1; 2; 3; 4; 5; 6; 7; 8; 9]) [0; 1; 2; 3; 4; 5; 6; 7; 8; 9] = true)
    by (vm_compute; reflexivity).
  rewrite forallb_forall in Hall.
  specialize (Hall (v / 10) (digit_cases _ Ha)).
  rewrite forallb_forall in Hall.
  specialize (Hall (v mod 10) (digit_cases _ Hb)).
  cbv zeta in Hall. rewrite Hsum in Hall.
  apply andb_true_iff in Hall as [Hlen Hparse].
  apply Nat.eqb_eq in Hlen. apply bool_decide_eq_true in Hparse.
  destruct (pad 2 v) as [| a [| b [| ? ?]]]; try discriminate Hlen.
  by exists a, b.
Qed.

Lemma days_from_civil_bounds y m d :
  0 <= y <= 9999 -> 1 <= m <= 12 -> 0 <= d <= 99 ->
  -800000 <= days_from_civil (full_year y) m d <= 3000000.
Proof.
  intros Hy Hm Hd. unfold full_year, days_from_civil.
  repeat match goal with
         | |- context [if ?b then _ else _] => destruct b eqn:?
         end; Z.div_mod_to_equations; lia.
Qed.

(** X20. A start written as year, month, day, one more code unit, hour
    and minute, each with its digits, is read as that minute of UTC: what
    follows the minute, seconds and a zone among them, is not read, and
    neither is a zone given as a parameter.  A start that is a date only
    is read as midnight UTC.  A day or an hour beyond the month or the day
    runs over into the next. *)
Theorem X20_parseICalDate_reads_minutes_of_utc
  (y m d h mi : Z) (sep : N) (rest : jsstring) :
  0 <= y <= 9999 -> 1 <= m <= 12 -> 0 <= d <= 99 ->
  0 <= h <= 99 -> 0 <= mi <= 99 ->
  parseICalDate
    (Some (pad 4 y ++ pad 2 m ++ pad 2 d ++ sep :: pad 2 h ++ pad 2 mi ++ rest))
  = Some (Some (days_from_civil (full_year y) m d * msPerDay
                + h * msPerHour + mi * msPerMinute))
  /\ parseICalDate (Some (pad 4 y ++ pad 2 m ++ pad 2 d))
     = Some (Some (days_from_civil (full_year y) m d * msPerDay)).
Proof.
  intros Hy Hm Hd Hh Hmi.
  destruct (pad4 y Hy) as (y1 & y2 & y3 & y4 & -> & Py).
  destruct (pad2 m ltac:(lia)) as (m1 & m2 & -> & Pm).
  destruct (pad2 d Hd) as (d1 & d2 & -> & Pd).
  destruct (pad2 h Hh) as (h1 & h2 & -> & Ph).
  destruct (pad2 mi Hmi) as (i1 & i2 & -> & Pi).
  pose proof (days_from_civil_bounds y m d Hy Hm Hd) as Hb.
  assert (Hday : MakeDay (full_year y) (m - 1) d = days_from_civil (full_year y) m d).
  { unfold MakeDay. rewrite Z.div_small, Z.mod_small, Z.add_0_r by lia.
    replace (m - 1 + 1) with m by lia.
    rewrite (days_from_civil_day _ _ d). lia. }
  change (parseICalDate (Some ([y1; y2; y3; y4] ++ [m1; m2] ++ [d1; d2]
                                ++ sep :: [h1; h2] ++ [i1; i2] ++ rest)))
    with (Some (Date_UTC (parseInt [y1; y2; y3; y4])
                         ((fun x => x - 1) <$> parseInt [m1; m2])
                         (parseInt [d1; d2]) (parseInt [h1; h2]) (parseInt [i1; i2]))).
  change (parseICalDate (Some ([y1; y2; y3; y4] ++ [m1; m2] ++ [d1; d2])))
    with (Some (Date_UTC (parseInt [y1; y2; y3; y4])
                         ((fun x => x - 1) <$> parseInt [m1; m2])
                         (parseInt [d1; d2]) (Some 0) (Some 0))).
  rewrite Py, Pm, Pd, Ph, Pi.
  cbn [fmap option_fmap option_map]. unfold Date_UTC. cbn [mbind option_bind].
  rewrite Hday. unfold MakeDate, MakeTime.
  rewrite !TimeClip_in_range by (unfold msPerDay, msPerHour, msPerMinute; lia).
  split; do 2 f_equal; lia.
Qed.

End MoreParser.

Lemma X17_witness :
  exists uid summary,
    JS.match_field (JS.js "UID:") false undated_block = Some uid
    /\ JS.match_field (JS.js "SUMMARY") true undated_block = Some summary
    /\ uid <> [] /\ summary <> []
    /\ EventAlerts.id chess_night = JS.trim uid
    /\ EventAlerts.title chess_night = EventAlerts.clean_title summary
    /\ (JS.BACKSLASH ∉ EventAlerts.title chess_night)
    /\ (JS.BACKSLASH ∉ EventAlerts.location chess_night)
    /\ EventAlerts.timestamp chess_night = JS.toISOString 0.
Proof.
  apply (X17_events_have_id_and_title iso_intl dec_10_2025 0 undated_block chess_night).
  vm_compute. reflexivity.
Defined.

Lemma X18_witness :
  exists e,
    EventAlerts.parseBlock iso_intl dec_10_2025 0 unscheduled_block = Some e
    /\ EventAlerts.id e = JS.trim (JS.js "evt-2")
    /\ EventAlerts.date e = EventAlerts.TBD /\ EventAlerts.time e = EventAlerts.TBD
    /\ (JS.match_field (JS.js "LOCATION:") false unscheduled_block = None ->
        EventAlerts.location e = EventAlerts.TBD)
    /\ (JS.match_field (JS.js "URL:") false unscheduled_block = None ->
        EventAlerts.url e = EventAlerts.DEFAULT_URL).
Proof.
  apply (X18_block_without_start_is_kept iso_intl dec_10_2025 0 unscheduled_block
           (JS.js "evt-2") (JS.js "Open House"));
    vm_compute; reflexivity.
Defined.

Lemma X19_witness :
  events_of iso_intl env_error_page = Some []
  /\ fst (EventAlerts.main (H := JS.Fixed.number) iso_intl env_error_page first_world) = 0
  /\ EventAlerts.outbox
       (snd (EventAlerts.main (H := JS.Fixed.number) iso_intl env_error_page first_world))
     = EventAlerts.outbox first_world.
Proof.
  destruct (X19_response_without_events (H := JS.Fixed.number) iso_intl env_error_page
              first_world
              (JS.js "<html><body>503 Service Unavailable</body></html>") [])
    as (Hevents & Hexit & Hout & _).
  - reflexivity.
  - vm_compute. reflexivity.
  - reflexivity.
  - split; [exact Hevents |]. split; [exact Hexit | exact Hout].
Defined.

Lemma X20_witness :
  EventAlerts.parseICalDate
    (Some (JS.pad 4 2025 ++ JS.pad 2 12 ++ JS.pad 2 20
           ++ 84%N :: JS.pad 2 18 ++ JS.pad 2 30 ++ JS.js "00Z"))
  = Some (Some (JS.days_from_civil (JS.full_year 2025) 12 20 * JS.msPerDay
                + 18 * JS.msPerHour + 30 * JS.msPerMinute))
  /\ EventAlerts.parseICalDate (Some (JS.pad 4 2025 ++ JS.pad 2 12 ++ JS.pad 2 20))
     = Some (Some (JS.days_from_civil (JS.full_year 2025) 12 20 * JS.msPerDay)).
Proof.
  apply (X20_parseICalDate_reads_minutes_of_utc 2025 12 20 18 30 84%N (JS.js "00Z")); lia.
Defined.
